(** * The Trino Go client: query execution engine

    A shallow embedding of [trino/trino.go] (package [trino]): the server
    error mapping, the column type-signature converter factory, the segment
    codec, the connection's response-header ingestion and retrying round
    trip, the statement's spooling configuration, and the spooling pipeline
    (dispatcher, throttle and ordered streamer); then the segment fetcher,
    the closing and reading of rows, the value converters and scanners, the
    metadata, queueing and dispatch of spooled segments, the map-valued DSN
    parameters and the building of requests.

    Part I holds the model, function by function, under the names the Go
    source uses.  Part II holds the main properties proved about it, Part
    III further ones. *)

From Stdlib Require Import ZArith Lia Bool List Ascii String Strings.Byte.
From Stdlib Require Import Floats.PrimFloat Floats.FloatOps Floats.SpecFloat.
From Stdlib Require Import Numbers.Cyclic.Int63.Uint63.
From Stdlib Require Import Sorting.Sorted.
From stdpp Require Import base tactics option list sorting strings gmap.

Set Warnings "-register-all".

Local Open Scope string_scope.
Local Open Scope list_scope.
Local Open Scope Z_scope.

(* ===================================================================== *)
(** * Part I: the model *)
(* ===================================================================== *)

(** ** Go values shared by the whole package *)

(** [int64] arithmetic wraps around; [wrap64] is the two's-complement
    reading of an unbounded integer. *)
Definition int64_min : Z := - 2 ^ 63.
Definition int64_max : Z := 2 ^ 63 - 1.
Definition wrap64 (z : Z) : Z := (z + 2 ^ 63) mod 2 ^ 64 - 2 ^ 63.
Definition in_int64 (z : Z) : Prop := int64_min <= z <= int64_max.

(** [len(x)] of a slice, as the [int] Go returns. *)
Definition len {A : Type} (l : list A) : Z := Z.of_nat (length l).

(** A decoded JSON node ([interface{}] after [json.Decoder.UseNumber]):
    numbers stay as their literal text ([json.Number]). *)
Inductive jsonValue : Type :=
| JNull
| JBool (b : bool)
| JNumber (literal : string)
| JString (s : string)
| JArray (elems : list jsonValue)
| JObject (fields : list (string * jsonValue)).

(** [type queryData []interface{}]: one row. *)
Definition queryData : Type := list jsonValue.

(** ** Errors *)

Record ErrorLocation : Type := mkErrorLocation {
  LineNumber : Z;
  ColumnNumber : Z
}.

Record ErrorInfo : Type := mkErrorInfo {
  ei_Code : Z;
  ei_Name : string;
  ei_Type : string
}.

Inductive FailureInfo : Type :=
| mkFailureInfo (fType fMessage : string) (Cause : option FailureInfo)
    (Suppressed : list FailureInfo) (Stack : list string)
    (fErrorInfo : ErrorInfo) (fErrorLocation : ErrorLocation).

(** [type ErrTrino struct]: the [error] object of a response body. *)
Record ErrTrino : Type := mkErrTrino {
  Message : string;
  SqlState : string;
  ErrorCode : Z;
  ErrorName : string;
  ErrorType : string;
  errorLocation : ErrorLocation;
  failureInfo : FailureInfo
}.

(** Go's [error] values as this package builds them.  The package-level
    sentinels are constructors; [&ErrQueryFailed{StatusCode, Reason}] keeps
    both fields; an error made by [fmt.Errorf] keeps its format string and
    its operands, so two such errors are told apart by their format. *)
Inductive error : Type :=
| ErrOperationNotSupported
| ErrQueryCancelled
| ErrUnsupportedHeader
| ErrInvalidResponseType
| ErrInvalidProgressCallbackHeader
| ErrQueryFailed (StatusCode : Z) (Reason : error)
| ErrTrinoValue (e : ErrTrino)
| contextCanceled
| contextDeadlineExceeded
| errorsNew (text : string)
| NumError (Func Num : string) (Err : error)
| Errorf (format : string) (operands : list operand)
with operand : Type :=
| opInt (z : Z)
| opString (s : string)
| opError (e : error).

(** What a call yields: a value, a returned [error], or a run-time panic. *)
Inductive outcome (A : Type) : Type :=
| Ok (a : A)
| Err (e : error)
| Panic (msg : string).
Arguments Ok {A} a.
Arguments Err {A} e.
Arguments Panic {A} msg.

Definition bindOutcome {A B : Type} (o : outcome A) (k : A -> outcome B) : outcome B :=
  match o with
  | Ok a => k a
  | Err e => Err e
  | Panic m => Panic m
  end.

Notation "'let*' x ':=' o 'in' k" := (bindOutcome o (fun x => k))
  (at level 10, x name, o at level 100, k at level 200).

(** [strings.HasPrefix]. *)
Definition HasPrefix (s pre : string) : bool := String.prefix pre s.

(** A [switch] case listing several string constants. *)
Definition oneOf (s : string) (cases : list string) : bool :=
  existsb (String.eqb s) cases.

(** ** Server error mapping: [handleResponseError] *)

Definition handleResponseError (status : Z) (respErr : ErrTrino) : option error :=
  if String.eqb (ErrorName respErr) "" then None
  else if String.eqb (ErrorName respErr) "USER_CANCELLED" then Some ErrQueryCancelled
  else Some (ErrQueryFailed status (ErrTrinoValue respErr)).

(** ** Type signatures and the converter factory *)

(** [type typeKind string]. *)
Definition typeKind : Type := string.
Definition KIND_TYPE : typeKind := "TYPE".
Definition KIND_NAMED_TYPE : typeKind := "NAMED_TYPE".
Definition KIND_LONG : typeKind := "LONG".
Definition KIND_VARIABLE : typeKind := "VARIABLE".

(** [typeSignature], [typeArgument] and [namedTypeSignature] refer to each
    other.  A [typeArgument] always holds its three decoded fields; the ones
    its [Kind] does not select keep Go's zero value. *)
Inductive typeSignature : Type :=
| mkTypeSignature (RawType : string) (Arguments : list typeArgument)
with typeArgument : Type :=
| mkTypeArgument (Kind : typeKind) (argTypeSignature : typeSignature)
    (argNamedTypeSignature : namedTypeSignature) (long : Z)
with namedTypeSignature : Type :=
| mkNamedTypeSignature (FieldName : string) (TypeSignature : typeSignature).

Definition RawType (s : typeSignature) : string :=
  match s with mkTypeSignature r _ => r end.
Definition Arguments (s : typeSignature) : list typeArgument :=
  match s with mkTypeSignature _ a => a end.
Definition Kind (a : typeArgument) : typeKind :=
  match a with mkTypeArgument k _ _ _ => k end.
Definition argTypeSignature (a : typeArgument) : typeSignature :=
  match a with mkTypeArgument _ t _ _ => t end.
Definition argNamedTypeSignature (a : typeArgument) : namedTypeSignature :=
  match a with mkTypeArgument _ _ n _ => n end.
Definition long (a : typeArgument) : Z :=
  match a with mkTypeArgument _ _ _ l => l end.
Definition TypeSignature (n : namedTypeSignature) : typeSignature :=
  match n with mkNamedTypeSignature _ t => t end.

(** The zero values. *)
Definition zeroTypeSignature : typeSignature := mkTypeSignature "" [].
Definition zeroNamedTypeSignature : namedTypeSignature :=
  mkNamedTypeSignature "" zeroTypeSignature.

(** An argument of kind [LONG] as [unmarshalArguments] leaves it. *)
Definition longArgument (n : Z) : typeArgument :=
  mkTypeArgument KIND_LONG zeroTypeSignature zeroNamedTypeSignature n.

(** [getNestedTypes]: the raw types along the chain of single arguments. *)
Fixpoint getNestedTypes (types : list string) (signature : typeSignature) : list string :=
  match signature with
  | mkTypeSignature rawType arguments =>
      let types := types ++ [rawType] in
      match arguments with
      | [mkTypeArgument kind ts (mkNamedTypeSignature _ nts) _] =>
          if String.eqb kind KIND_TYPE then getNestedTypes types ts
          else if String.eqb kind KIND_NAMED_TYPE then getNestedTypes types nts
          else types
      | _ => types
      end
  end.

(** The [reflect.Type] values [getScanType] can return. *)
Inductive scanType : Type :=
| tNullBool | tNullString | tBytes | tNullInt32 | tNullInt64 | tNullFloat64
| tNullTime | tNullMap
| tNullSliceBool | tNullSliceString | tNullSliceInt64 | tNullSliceFloat64
| tNullSliceTime | tNullSliceMap
| tNullSlice2Bool | tNullSlice2String | tNullSlice2Int64 | tNullSlice2Float64
| tNullSlice2Time | tNullSlice2Map
| tNullSlice3Bool | tNullSlice3String | tNullSlice3Int64 | tNullSlice3Float64
| tNullSlice3Time | tNullSlice3Map
| tInterface.

Definition stringLikeTypes : list string :=
  ["json"; "char"; "varchar"; "interval year to month"; "interval day to second";
   "decimal"; "ipaddress"; "uuid"; "unknown"].
Definition stringLikeElemTypes : list string :=
  ["json"; "char"; "varchar"; "varbinary"; "interval year to month";
   "interval day to second"; "decimal"; "ipaddress"; "uuid"; "unknown"].
Definition integerTypes : list string := ["tinyint"; "smallint"; "integer"; "bigint"].
Definition floatTypes : list string := ["real"; "double"].
Definition temporalTypes : list string :=
  ["date"; "time"; "time with time zone"; "timestamp"; "timestamp with time zone"].

(** The innermost [switch typeNames[3]] of [getScanType]. *)
Definition getScanType3 (t3 : string) : scanType :=
  if oneOf t3 ["boolean"] then tNullSlice3Bool
  else if oneOf t3 stringLikeElemTypes then tNullSlice3String
  else if oneOf t3 integerTypes then tNullSlice3Int64
  else if oneOf t3 floatTypes then tNullSlice3Float64
  else if oneOf t3 temporalTypes then tNullSlice3Time
  else if oneOf t3 ["map"] then tNullSlice3Map
  else tInterface.

Definition getScanType2 (t2 : string) (rest : list string) : outcome scanType :=
  if oneOf t2 ["boolean"] then Ok tNullSlice2Bool
  else if oneOf t2 stringLikeElemTypes then Ok tNullSlice2String
  else if oneOf t2 integerTypes then Ok tNullSlice2Int64
  else if oneOf t2 floatTypes then Ok tNullSlice2Float64
  else if oneOf t2 temporalTypes then Ok tNullSlice2Time
  else if oneOf t2 ["map"] then Ok tNullSlice2Map
  else if oneOf t2 ["array"] then
    match rest with
    | [] => Err ErrInvalidResponseType
    | t3 :: _ => Ok (getScanType3 t3)
    end
  else Ok tInterface.

Definition getScanType1 (t1 : string) (rest : list string) : outcome scanType :=
  if oneOf t1 ["boolean"] then Ok tNullSliceBool
  else if oneOf t1 stringLikeElemTypes then Ok tNullSliceString
  else if oneOf t1 integerTypes then Ok tNullSliceInt64
  else if oneOf t1 floatTypes then Ok tNullSliceFloat64
  else if oneOf t1 temporalTypes then Ok tNullSliceTime
  else if oneOf t1 ["map"] then Ok tNullSliceMap
  else if oneOf t1 ["array"] then
    match rest with
    | [] => Err ErrInvalidResponseType
    | t2 :: rest' => getScanType2 t2 rest'
    end
  else Ok tInterface.

(** [getScanType]; indexing an empty [typeNames] panics. *)
Definition getScanType (typeNames : list string) : outcome scanType :=
  match typeNames with
  | [] => Panic "index out of range [0] with length 0"
  | t0 :: rest =>
      if oneOf t0 ["boolean"] then Ok tNullBool
      else if oneOf t0 stringLikeTypes then Ok tNullString
      else if oneOf t0 ["varbinary"] then Ok tBytes
      else if oneOf t0 ["tinyint"; "smallint"] then Ok tNullInt32
      else if oneOf t0 ["integer"] then Ok tNullInt32
      else if oneOf t0 ["bigint"] then Ok tNullInt64
      else if oneOf t0 floatTypes then Ok tNullFloat64
      else if oneOf t0 temporalTypes then Ok tNullTime
      else if oneOf t0 ["map"] then Ok tNullMap
      else if oneOf t0 ["array"] then
        match rest with
        | [] => Err ErrInvalidResponseType
        | t1 :: rest' => getScanType1 t1 rest'
        end
      else Ok tInterface
  end.

Record optionalInt64 : Type := mkOptionalInt64 {
  value : Z;
  hasValue : bool
}.

Definition noInt64 : optionalInt64 := mkOptionalInt64 0 false.
Definition newOptionalInt64 (v : Z) : optionalInt64 := mkOptionalInt64 v true.

Record typeConverter : Type := mkTypeConverter {
  typeName : string;
  parsedType : list string;
  tc_scanType : scanType;
  precision : optionalInt64;
  scale : optionalInt64;
  size : optionalInt64
}.

(** [signature.Arguments[i]] once [len(signature.Arguments) > i] holds: the
    parameter when it is of kind [LONG], the invalid-type error otherwise. *)
Definition longParameter (a : typeArgument) : outcome optionalInt64 :=
  if negb (String.eqb (Kind a) KIND_LONG) then Err ErrInvalidResponseType
  else Ok (newOptionalInt64 (long a)).

Definition newTypeConverter (typeName : string) (signature : typeSignature)
  : outcome typeConverter :=
  let parsedType := getNestedTypes [] signature in
  let* scanType := getScanType parsedType in
  let result := mkTypeConverter typeName parsedType scanType noInt64 noInt64 noInt64 in
  if oneOf (RawType signature) ["char"; "varchar"] then
    match Arguments signature with
    | a0 :: _ =>
        let* size := longParameter a0 in
        Ok (mkTypeConverter typeName parsedType scanType noInt64 noInt64 size)
    | [] => Ok result
    end
  else if oneOf (RawType signature) ["decimal"] then
    match Arguments signature with
    | [] => Ok result
    | [a0] =>
        let* precision := longParameter a0 in
        Ok (mkTypeConverter typeName parsedType scanType precision noInt64 noInt64)
    | a0 :: a1 :: _ =>
        let* precision := longParameter a0 in
        let* scale := longParameter a1 in
        Ok (mkTypeConverter typeName parsedType scanType precision scale noInt64)
    end
  else if oneOf (RawType signature)
            ["time"; "time with time zone"; "timestamp"; "timestamp with time zone"] then
    match Arguments signature with
    | a0 :: _ =>
        let* precision := longParameter a0 in
        Ok (mkTypeConverter typeName parsedType scanType precision noInt64 noInt64)
    | [] => Ok result
    end
  else Ok result.

(** ** The segment codec: [decompressSegment] and [decodeSegment] *)

Record segmentMetadata : Type := mkSegmentMetadata {
  rowOffset : Z;
  rowsCount : Z;
  segmentSize : Z;
  uncompressedSize : Z
}.

(** What [zstd.NewReader] followed by [io.ReadAll] comes to. *)
Inductive zstdRun : Type :=
| zstdNewReaderError (err : error)
| zstdReadAllError (err : error)
| zstdDecoded (decompressed : list byte).

Definition fmtSegmentSizeMismatch : string :=
  "segment size mismatch: expected %d bytes, got %d bytes".
Definition fmtDecompressedSizeMismatch : string :=
  "decompressed size mismatch: expected %d bytes, got %d bytes".
Definition fmtUnsupportedEncoder : string := "unsupported segment encoder: %s".

(** An error is a size mismatch when one of the two size checks made it. *)
Definition isSizeMismatch (e : error) : bool :=
  match e with
  | Errorf format _ =>
      String.eqb format fmtSegmentSizeMismatch
      || String.eqb format fmtDecompressedSizeMismatch
  | _ => false
  end.

Definition isUnsupportedEncoder (e : error) : bool :=
  match e with
  | Errorf format _ => String.eqb format fmtUnsupportedEncoder
  | _ => false
  end.

Section Codec.

(** The compression libraries and the JSON decoder are outside the
    package: [zstdReadAll data] stands for reading a zstd stream to its
    end, [lz4UncompressBlock src n] for [lz4.UncompressBlock] into a
    destination of [n] bytes (it yields the bytes written), and
    [jsonDecodeRows] for [json.Decoder.Decode] into a [[]queryData]. *)
Variable zstdReadAll : list byte -> zstdRun.
Variable lz4UncompressBlock : list byte -> Z -> outcome (list byte).
Variable jsonDecodeRows : list byte -> outcome (list queryData).

(** The two decompressing cases of the [switch encoding]; [make] of a
    negative length panics. *)
Definition decompressBranch (data : list byte) (encoding : string)
    (metadata : segmentMetadata) : outcome (list byte) :=
  if String.eqb encoding "json+zstd" then
    match zstdReadAll data with
    | zstdNewReaderError err =>
        Err (Errorf "error creating zstd reader: %w" [opError err])
    | zstdReadAllError err =>
        Err (Errorf "failed to decompress zstd segment at rowOffset %d: %v"
               [opInt (rowOffset metadata); opError err])
    | zstdDecoded decompressedData => Ok decompressedData
    end
  else if String.eqb encoding "json+lz4" then
    if uncompressedSize metadata <? 0 then Panic "makeslice: len out of range"
    else
      match lz4UncompressBlock data (uncompressedSize metadata) with
      | Ok written => Ok written
      | Err err =>
          Err (Errorf "failed to decompress LZ4 segment at rowOffset %d: %v"
                 [opInt (rowOffset metadata); opError err])
      | Panic m => Panic m
      end
  else Err (Errorf fmtUnsupportedEncoder [opString encoding]).

Definition decompressSegment (data : list byte) (encoding : string)
    (metadata : segmentMetadata) : outcome (list byte) :=
  if uncompressedSize metadata =? 0 then Ok data
  else
    let* decompressedData := decompressBranch data encoding metadata in
    if negb (len decompressedData =? uncompressedSize metadata) then
      Err (Errorf fmtDecompressedSizeMismatch
             [opInt (uncompressedSize metadata); opInt (len decompressedData)])
    else Ok decompressedData.

Definition decodeSegment (data : list byte) (encoding : string)
    (metadata : segmentMetadata) : outcome (list queryData) :=
  if negb (len data =? segmentSize metadata) then
    Err (Errorf fmtSegmentSizeMismatch
           [opInt (segmentSize metadata); opInt (len data)])
  else
    let* decompressedSegment := decompressSegment data encoding metadata in
    if rowsCount metadata <? 0 then Panic "makeslice: len out of range"
    else
      match jsonDecodeRows decompressedSegment with
      | Ok queryDataList => Ok queryDataList
      | Err err =>
          Err (Errorf "failed to decode segment into JSON at rowOffset %d: %v"
                 [opInt (rowOffset metadata); opError err])
      | Panic m => Panic m
      end.

End Codec.

(** ** HTTP headers *)

(** [http.Header] is [map[string][]string].  Its methods canonicalise the
    key first; every key this package passes is a constant already in
    canonical form, so the model looks keys up as they are. *)
Abbreviation Header := (gmap string (list string)).

Definition Header_Values (h : Header) (key : string) : list string :=
  default [] (h !! key).

Definition Header_Get (h : Header) (key : string) : string :=
  match Header_Values h key with
  | v :: _ => v
  | [] => ""
  end.

Definition Header_Add (h : Header) (key v : string) : Header :=
  <[key := Header_Values h key ++ [v]]> h.

Definition Header_Set (h : Header) (key v : string) : Header :=
  <[key := [v]]> h.

Definition Header_Del (h : Header) (key : string) : Header :=
  delete key h.

Definition trinoHeaderPrefix : string := "X-Trino-".
Definition preparedStatementHeader : string := "X-Trino-Prepared-Statement".
Definition preparedStatementName : string := "_trino_go".
Definition trinoUserHeader : string := "X-Trino-User".
Definition trinoCatalogHeader : string := "X-Trino-Catalog".
Definition trinoSchemaHeader : string := "X-Trino-Schema".
Definition trinoSessionHeader : string := "X-Trino-Session".
Definition trinoSetCatalogHeader : string := "X-Trino-Set-Catalog".
Definition trinoSetSchemaHeader : string := "X-Trino-Set-Schema".
Definition trinoSetPathHeader : string := "X-Trino-Set-Path".
Definition trinoSetSessionHeader : string := "X-Trino-Set-Session".
Definition trinoClearSessionHeader : string := "X-Trino-Clear-Session".
Definition trinoSetRoleHeader : string := "X-Trino-Set-Role".
Definition trinoProgressCallbackParam : string := "X-Trino-Progress-Callback".
Definition trinoProgressCallbackPeriodParam : string := "X-Trino-Progress-Callback-Period".
Definition trinoAddedPrepareHeader : string := "X-Trino-Added-Prepare".
Definition trinoDeallocatedPrepareHeader : string := "X-Trino-Deallocated-Prepare".
Definition trinoQueryDataEncodingHeader : string := "X-Trino-Query-Data-Encoding".
Definition trinoEncoding : string := "encoding".
Definition trinoSpoolingWorkerCount : string := "spooling_worker_count".
Definition trinoMaxOutOfOrdersSegments : string := "max_out_of_order_segments".
Definition authorizationHeader : string := "Authorization".
Definition accessTokenConfig : string := "accessToken".

Definition defaultallowedOutOfOrder : Z := 10.
Definition defaultSpoolingDownloadWorkers : Z := 5.
Definition defaulttrinoEncoding : string := "json".

(** [responseToRequestHeaderMap], as the pairs its [range] visits (the two
    pairs write different request headers, so their order does not show). *)
Definition responseToRequestHeaderMap : list (string * string) :=
  [(trinoSetSchemaHeader, trinoSchemaHeader);
   (trinoSetCatalogHeader, trinoCatalogHeader)].

Definition unsupportedResponseHeaders : list string :=
  [trinoSetPathHeader; trinoSetRoleHeader].

(** ** The connection's round trip *)

Record Response : Type := mkResponse {
  StatusCode : Z;
  respHeader : Header;
  Body : string;
  BodyReadError : option error;
  ContentLength : Z
}.

(** [newErrQueryFailedFromResponse]: the reason is at most 8 KiB of body. *)
Definition newErrQueryFailedFromResponse (resp : Response) : error :=
  let maxBytes := 8 * 1024 in
  match BodyReadError resp with
  | Some err => ErrQueryFailed (StatusCode resp) err
  | None =>
      let reason := String.substring 0 (Z.to_nat maxBytes) (Body resp) in
      let reason :=
        if ContentLength resp >? maxBytes then reason +:+ "..." else reason in
      ErrQueryFailed (StatusCode resp) (errorsNew reason)
  end.

(** The loop that drops, from the values of [header], those that start with
    [v] followed by an equals sign: [Values], [Del], then [Add] of each value
    that stays. *)
Definition dropEntries (httpHeaders : Header) (header v : string) : Header :=
  let values := Header_Values httpHeaders header in
  fold_left
    (fun h v2 => if negb (HasPrefix v2 (v +:+ "=")) then Header_Add h header v2 else h)
    values (Header_Del httpHeaders header).

(** The [case http.StatusOK] of [roundTrip]: the connection's headers after
    the response's headers are taken in, and what the call returns. *)
Definition roundTripStatusOK (httpHeaders : Header) (resp : Response)
  : Header * outcome Response :=
  let h := fold_left
    (fun h '(src, dst) =>
       let v := Header_Get (respHeader resp) src in
       if negb (String.eqb v "") then Header_Set h dst v else h)
    responseToRequestHeaderMap httpHeaders in
  let h :=
    let v := Header_Get (respHeader resp) trinoAddedPrepareHeader in
    if negb (String.eqb v "") then Header_Add h preparedStatementHeader v else h in
  let h :=
    let v := Header_Get (respHeader resp) trinoDeallocatedPrepareHeader in
    if negb (String.eqb v "") then dropEntries h preparedStatementHeader v else h in
  let h :=
    let v := Header_Get (respHeader resp) trinoSetSessionHeader in
    if negb (String.eqb v "") then Header_Add h trinoSessionHeader v else h in
  let h :=
    let v := Header_Get (respHeader resp) trinoClearSessionHeader in
    if negb (String.eqb v "") then dropEntries h trinoSessionHeader v else h in
  if existsb (fun name => negb (String.eqb (Header_Get (respHeader resp) name) ""))
       unsupportedResponseHeaders
  then (h, Err ErrUnsupportedHeader)
  else (h, Ok resp).

(** [time.Duration] counts nanoseconds in an [int64]. *)
Definition Millisecond : Z := 1000000.
Definition Second : Z := 1000000000.

(** [float64(d)] for an [int64] (round to nearest even, exact below 2^53). *)
Definition float64_of_int64 (z : Z) : float :=
  if z <? 0 then PrimFloat.opp (PrimFloat.of_uint63 (Uint63.of_Z (- z)))
  else PrimFloat.of_uint63 (Uint63.of_Z z).

(** [int64(f)] for a [float64]: the fraction is discarded.  A value that
    does not fit ([NaN], an infinity, beyond the range) converts as amd64
    does, to the least [int64]. *)
Definition int64_of_float64 (f : float) : Z :=
  match Prim2SF f with
  | S754_zero _ => 0
  | S754_finite sign m e =>
      let magnitude :=
        if 0 <=? e then Z.pos m * 2 ^ e else Z.pos m / 2 ^ (- e) in
      let v := if sign then - magnitude else magnitude in
      if (int64_min <=? v) && (v <=? int64_max) then v else int64_min
  | _ => int64_min
  end.

(** [math.Phi] as the [float64] constant the compiler stores. *)
Definition mathPhi : float := 0x1.9e3779b97f4a8p+0%float.

(** [math.Min], with its special cases. *)
Definition mathMin (x y : float) : float :=
  if (PrimFloat.eqb x neg_infinity || PrimFloat.eqb y neg_infinity)%bool then neg_infinity
  else if (PrimFloat.is_nan x || PrimFloat.is_nan y)%bool then nan
  else if (PrimFloat.eqb x 0%float && PrimFloat.eqb x y)%bool then
    (if PrimFloat.get_sign x then x else y)
  else if PrimFloat.ltb x y then x else y.

Definition initialDelay : Z := 100 * Millisecond.
Definition maxDelayBetweenRequests : float := float64_of_int64 (15 * Second).

(** The update of [delay] after a retry:
    [time.Duration(math.Min(float64(delay)*math.Phi, maxDelayBetweenRequests))]. *)
Definition nextDelay (delay : Z) : Z :=
  int64_of_float64
    (mathMin (PrimFloat.mul (float64_of_int64 delay) mathPhi) maxDelayBetweenRequests).

(** What [c.httpClient.Do(req)] gives back. *)
Inductive doResult : Type :=
| doError (err : error)
| doResponse (resp : Response).

(** One turn of the [select] in the loop of [roundTrip]: the context is
    done (with [ctx.Err()]), or the timer fires and the request is sent. *)
Inductive selectCase : Type :=
| ctxDone (err : error)
| timerFired (result : doResult).

(** A run of [roundTrip]: what it returned ([None] while it still waits in
    its [select]), the connection's headers, and the delays it passed to
    [timer.Reset], oldest first. *)
Record roundTripRun : Type := mkRoundTripRun {
  returned : option (outcome Response);
  connHeaders : Header;
  timerResets : list Z
}.

Definition isRetryStatus (status : Z) : bool :=
  (status =? 502) || (status =? 503) || (status =? 504).

(** The [for] loop of [roundTrip], run against the turns the environment
    takes. *)
Fixpoint roundTripLoop (turns : list selectCase) (httpHeaders : Header)
    (delay : Z) (resets : list Z) : roundTripRun :=
  match turns with
  | [] => mkRoundTripRun None httpHeaders resets
  | ctxDone err :: _ => mkRoundTripRun (Some (Err err)) httpHeaders resets
  | timerFired (doError err) :: _ =>
      mkRoundTripRun (Some (Err (ErrQueryFailed 0 err))) httpHeaders resets
  | timerFired (doResponse resp) :: turns' =>
      if StatusCode resp =? 200 then
        let '(h, out) := roundTripStatusOK httpHeaders resp in
        mkRoundTripRun (Some out) h resets
      else if isRetryStatus (StatusCode resp) then
        roundTripLoop turns' httpHeaders (nextDelay delay) (resets ++ [delay])
      else
        mkRoundTripRun (Some (Err (newErrQueryFailedFromResponse resp))) httpHeaders resets
  end.

(** [Conn.roundTrip]: the first request goes out at once ([NewTimer(0)]). *)
Definition roundTrip (turns : list selectCase) (httpHeaders : Header) : roundTripRun :=
  roundTripLoop turns httpHeaders initialDelay [].

(** The delay passed to the [n]-th [timer.Reset]. *)
Fixpoint retryDelay (n : nat) : Z :=
  match n with
  | O => initialDelay
  | S n' => nextDelay (retryDelay n')
  end.

(** ** The statement driver: spooling configuration in [exec] *)

(** [strconv.Atoi]: an optional sign, then decimal digits, within [int]. *)
Definition ErrSyntax : error := errorsNew "invalid syntax".
Definition ErrRange : error := errorsNew "value out of range".

Definition digitValue (c : ascii) : option Z :=
  let n := Z.of_nat (nat_of_ascii c) in
  if (48 <=? n) && (n <=? 57) then Some (n - 48) else None.

Fixpoint parseDigits (s : string) (acc : Z) : option Z :=
  match s with
  | EmptyString => Some acc
  | String c s' =>
      match digitValue c with
      | Some d => parseDigits s' (10 * acc + d)
      | None => None
      end
  end.

Definition Atoi (s : string) : outcome Z :=
  let '(negative, digits) :=
    match s with
    | String "+"%char rest => (false, rest)
    | String "-"%char rest => (true, rest)
    | _ => (false, s)
    end in
  match digits with
  | EmptyString => Err (NumError "Atoi" s ErrSyntax)
  | _ =>
      match parseDigits digits 0 with
      | None => Err (NumError "Atoi" s ErrSyntax)
      | Some n =>
          let v := if negative then - n else n in
          if (int64_min <=? v) && (v <=? int64_max) then Ok v
          else Err (NumError "Atoi" s ErrRange)
      end
  end.

(** A [driver.Value] as [exec] looks at it: it asserts a progress updater,
    a [time.Duration] or a [string], and hands anything else to [Serial]. *)
Inductive driverValue : Type :=
| vString (s : string)
| vDuration (d : Z)
| vProgressUpdater (updater : nat)
| vInt (z : Z)
| vBool (b : bool)
| vNil.

Record NamedValue : Type := mkNamedValue {
  Name : string;
  Value : driverValue
}.

(** The fields of [Conn] and [driverStmt] that [exec] reads or writes before
    it sends the request. *)
Record Conn : Type := mkConn {
  httpHeaders : Header;
  progressUpdater : option nat;
  progressUpdaterPeriod : Z;
  useExplicitPrepare : bool;
  forwardAuthorizationHeader : bool
}.

Record driverStmt : Type := mkDriverStmt {
  query : string;
  user : string;
  usingSpooledProtocol : bool;
  spoolingMaxOutOfOrderSegments : Z;
  spoolingWorkerCount : Z
}.

(** The locals of [exec] together with the two objects it mutates. *)
Record execState : Type := mkExecState {
  es_conn : Conn;
  es_st : driverStmt;
  es_hs : Header;
  es_ss : list string
}.

Definition fmtSpoolingWorkers : string :=
  "spooling worker cannot be greater than max out of order segments allowed. spooling workers: %d, allowed out of order segments: %d".

Definition isSpoolingConfigError (e : error) : bool :=
  match e with
  | Errorf format _ => String.eqb format fmtSpoolingWorkers
  | _ => false
  end.

Definition getAuthorization (token : string) : string :=
  if String.eqb token "" then "" else "Bearer " +:+ token.

Fixpoint ReplaceAllQuote (s : string) : string :=
  match s with
  | EmptyString => EmptyString
  | String c s' =>
      if Ascii.eqb c "'"%char then String c (String c (ReplaceAllQuote s'))
      else String c (ReplaceAllQuote s')
  end.

(** [formatStringLiteral]: single quotes around, each inner one doubled. *)
Definition formatStringLiteral (query : string) : string :=
  "'" +:+ ReplaceAllQuote query +:+ "'".

Fixpoint Join (elems : list string) (sep : string) : string :=
  match elems with
  | [] => ""
  | [e] => e
  | e :: rest => e +:+ sep +:+ Join rest sep
  end.

Definition setWorkerCount (st : driverStmt) (n : Z) : driverStmt :=
  mkDriverStmt (query st) (user st) (usingSpooledProtocol st)
    (spoolingMaxOutOfOrderSegments st) n.
Definition setMaxOutOfOrder (st : driverStmt) (n : Z) : driverStmt :=
  mkDriverStmt (query st) (user st) (usingSpooledProtocol st) n (spoolingWorkerCount st).
Definition setUser (st : driverStmt) (u : string) : driverStmt :=
  mkDriverStmt (query st) u (usingSpooledProtocol st)
    (spoolingMaxOutOfOrderSegments st) (spoolingWorkerCount st).
Definition setProgressUpdater (c : Conn) (u : option nat) : Conn :=
  mkConn (httpHeaders c) u (progressUpdaterPeriod c) (useExplicitPrepare c)
    (forwardAuthorizationHeader c).
Definition setProgressPeriod (c : Conn) (d : Z) : Conn :=
  mkConn (httpHeaders c) (progressUpdater c) d (useExplicitPrepare c)
    (forwardAuthorizationHeader c).

(** [arg.Value.(string)]: the assertion panics on any other dynamic type. *)
Definition assertString (v : driverValue) : outcome string :=
  match v with
  | vString s => Ok s
  | _ => Panic "interface conversion: interface {} is not string"
  end.

Section Exec.

(** [Serial] lives in another file of the package; [url.QueryEscape] and
    the canonical form of a header key come from Go's libraries. *)
Variable Serial : driverValue -> outcome string.
Variable QueryEscape : string -> string.
Variable CanonicalMIMEHeaderKey : string -> string.

(** One turn of [for _, arg := range args].  The state it yields is kept
    also when the turn ends the call. *)
Definition execArg (arg : NamedValue) (s : execState) : execState * outcome unit :=
  let conn := es_conn s in
  let st := es_st s in
  if String.eqb (Name arg) trinoProgressCallbackParam then
    match Value arg with
    | vProgressUpdater u =>
        (mkExecState (setProgressUpdater conn (Some u)) st (es_hs s) (es_ss s), Ok tt)
    | _ => (s, Panic "interface conversion: interface {} is not trino.ProgressUpdater")
    end
  else if String.eqb (Name arg) trinoProgressCallbackPeriodParam then
    match Value arg with
    | vDuration d =>
        (mkExecState (setProgressPeriod conn d) st (es_hs s) (es_ss s), Ok tt)
    | _ => (s, Panic "interface conversion: interface {} is not time.Duration")
    end
  else if forwardAuthorizationHeader conn && String.eqb (Name arg) accessTokenConfig then
    match assertString (Value arg) with
    | Ok token =>
        (mkExecState conn st
           (Header_Add (es_hs s) authorizationHeader (getAuthorization token))
           (es_ss s), Ok tt)
    | Err e => (s, Err e)
    | Panic m => (s, Panic m)
    end
  else if String.eqb (Name arg) trinoEncoding then
    match assertString (Value arg) with
    | Ok enc =>
        (mkExecState conn st (Header_Add (es_hs s) trinoQueryDataEncodingHeader enc)
           (es_ss s), Ok tt)
    | Err e => (s, Err e)
    | Panic m => (s, Panic m)
    end
  else if String.eqb (Name arg) trinoSpoolingWorkerCount then
    match (let* text := assertString (Value arg) in Atoi text) with
    | Ok numberOfWorkers =>
        (mkExecState conn (setWorkerCount st numberOfWorkers) (es_hs s) (es_ss s), Ok tt)
    | Err e => (s, Err e)
    | Panic m => (s, Panic m)
    end
  else if String.eqb (Name arg) trinoMaxOutOfOrdersSegments then
    match (let* text := assertString (Value arg) in Atoi text) with
    | Ok maxSegmentsOutOfOrder =>
        (mkExecState conn (setMaxOutOfOrder st maxSegmentsOutOfOrder) (es_hs s) (es_ss s),
         Ok tt)
    | Err e => (s, Err e)
    | Panic m => (s, Panic m)
    end
  else
    match Serial (Value arg) with
    | Err e => (s, Err e)
    | Panic m => (s, Panic m)
    | Ok serialized =>
        if HasPrefix (Name arg) trinoHeaderPrefix then
          match assertString (Value arg) with
          | Ok headerValue =>
              let st' :=
                if String.eqb (Name arg) trinoUserHeader then setUser st headerValue
                else st in
              (mkExecState conn st'
                 (Header_Add (es_hs s) (CanonicalMIMEHeaderKey (Name arg)) headerValue)
                 (es_ss s), Ok tt)
          | Err e => (s, Err e)
          | Panic m => (s, Panic m)
          end
        else
          let hs :=
            if useExplicitPrepare conn
               && String.eqb (Header_Get (es_hs s) preparedStatementHeader) ""
            then
              Header_Add
                (fold_left (fun h v => Header_Add h preparedStatementHeader v)
                   (Header_Values (httpHeaders conn) preparedStatementHeader) (es_hs s))
                preparedStatementHeader
                (preparedStatementName +:+ "=" +:+ QueryEscape (query st))
            else es_hs s in
          (mkExecState conn st hs (es_ss s ++ [serialized]), Ok tt)
    end.

Fixpoint execArgs (args : list NamedValue) (s : execState) : execState * outcome unit :=
  match args with
  | [] => (s, Ok tt)
  | arg :: args' =>
      match execArg arg s with
      | (s', Ok _) => execArgs args' s'
      | stopped => stopped
      end
  end.

(** The request [exec] is about to post. *)
Record statementRequest : Type := mkStatementRequest {
  req_query : string;
  req_hs : Header
}.

(** [driverStmt.exec] from its first line to the point where the request
    is built: the arguments are consumed, the progress options and the
    spooling options are checked, and the encoding header is defaulted.
    Sending the request is [roundTrip]'s part. *)
Definition exec (conn : Conn) (st : driverStmt) (args : list NamedValue)
  : execState * outcome statementRequest :=
  let hs := Header_Add ∅ "X-Trino-Client-Capabilities" "PARAMETRIC_DATETIME" in
  let s0 := mkExecState conn st hs [] in
  let '(s, looped) :=
    match args with
    | [] => (s0, Ok (query st))
    | _ =>
        match execArgs args s0 with
        | (s, Err e) => (s, Err e)
        | (s, Panic m) => (s, Panic m)
        | (s, Ok _) =>
            let c := es_conn s in
            if (bool_decide (progressUpdater c <> None) && (progressUpdaterPeriod c =? 0))
               || (bool_decide (progressUpdater c = None) && (progressUpdaterPeriod c >? 0))
            then (s, Err ErrInvalidProgressCallbackHeader)
            else
              match es_ss s with
              | [] => (s, Ok (query st))
              | ss =>
                  if useExplicitPrepare c then
                    (s, Ok ("EXECUTE " +:+ preparedStatementName +:+ " USING " +:+ Join ss ", "))
                  else
                    (s, Ok ("EXECUTE IMMEDIATE " +:+ formatStringLiteral (query st)
                              +:+ " USING " +:+ Join ss ", "))
              end
        end
    end in
  match looped with
  | Err e => (s, Err e)
  | Panic m => (s, Panic m)
  | Ok query =>
      if spoolingWorkerCount (es_st s) >? spoolingMaxOutOfOrderSegments (es_st s) then
        (s, Err (Errorf fmtSpoolingWorkers
                   [opInt (spoolingWorkerCount (es_st s));
                    opInt (spoolingMaxOutOfOrderSegments (es_st s))]))
      else
        let hs :=
          if String.eqb (Header_Get (es_hs s) trinoQueryDataEncodingHeader) "" then
            Header_Add (es_hs s) trinoQueryDataEncodingHeader defaulttrinoEncoding
          else es_hs s in
        (s, Ok (mkStatementRequest query hs))
  end.

End Exec.

(** The first lines of [startSpoolingProtocolWorkers]: the protocol flag and
    the two defaults. *)
Definition startSpoolingProtocolWorkers (st : driverStmt) : driverStmt :=
  let workers :=
    if spoolingWorkerCount st =? 0 then defaultSpoolingDownloadWorkers
    else spoolingWorkerCount st in
  let maxOutOfOrder :=
    if spoolingMaxOutOfOrderSegments st =? 0 then defaultallowedOutOfOrder
    else spoolingMaxOutOfOrderSegments st in
  mkDriverStmt (query st) (user st) true maxOutOfOrder workers.

(** ** The spooling pipeline: the ordered streamer *)

Record decodedSegment : Type := mkDecodedSegment {
  ds_rowOffset : Z;
  ds_queryData : list queryData
}.

(** The order the streamer's comparison function induces. *)
Definition offsetLe (a b : decodedSegment) : Prop := ds_rowOffset a <= ds_rowOffset b.
Definition offsetLt (a b : decodedSegment) : Prop := ds_rowOffset a < ds_rowOffset b.

Definition fmtOutOfOrder : string :=
  "all %d out-of-order segments buffered (limit: %d). This indicates a bug or inconsistency in the segments metadata response (e.g., missing, duplicate, or misordered segments, or row offsets not matching the expected sequence)".

Definition isOutOfOrderError (e : error) : bool :=
  match e with
  | Errorf format _ => String.eqb format fmtOutOfOrder
  | _ => false
  end.

(** The locals of the streamer's goroutine between two receives. *)
Record streamer : Type := mkStreamer {
  buffer : list decodedSegment;
  nextExpectedOffset : Z
}.

(** The inner [for consumed < len(buffer) && ...] loop and the compaction
    after it, on the buffer from [consumed] on: the segments whose rows were
    sent (one throttle token is taken after each), the offset expected
    next, and the segments that stay buffered. *)
Fixpoint drain (nextExpectedOffset : Z) (buffer : list decodedSegment)
  : list decodedSegment * Z * list decodedSegment :=
  match buffer with
  | [] => ([], nextExpectedOffset, [])
  | segment :: rest =>
      if ds_rowOffset segment =? nextExpectedOffset then
        let '(sent, next, kept) :=
          drain (wrap64 (nextExpectedOffset + len (ds_queryData segment))) rest in
        (segment :: sent, next, kept)
      else ([], nextExpectedOffset, buffer)
  end.

(** A run of the streamer: its locals, the segments whose rows it sent on
    [spoolingRowsChannel] (in order), and the errors it published. *)
Record streamerRun : Type := mkStreamerRun {
  locals : streamer;
  sent : list decodedSegment;
  published : list error
}.

(** What travels on [spoolingRowsChannel]. *)
Definition rowBatches (r : streamerRun) : list (list queryData) :=
  map ds_queryData (sent r).

Section Streamer.

(** [slices.SortFunc] with the streamer's comparison on [rowOffset]; the
    sort is not stable, so the model leaves it open and the proofs assume
    only that it permutes and sorts. *)
Variable SortFunc : list decodedSegment -> list decodedSegment.

(** [qr.stmt.spoolingMaxOutOfOrderSegments]. *)
Variable maxOutOfOrder : Z.

(** The body of [case segment, ok := <-qr.stmt.decodedSegments] for a
    received segment. *)
Definition receive (r : streamerRun) (segment : decodedSegment) : streamerRun :=
  let buffer := buffer (locals r) ++ [segment] in
  let next := nextExpectedOffset (locals r) in
  if negb (next =? ds_rowOffset segment) then
    let errors :=
      if len buffer >=? maxOutOfOrder then
        [Errorf fmtOutOfOrder [opInt (len buffer); opInt maxOutOfOrder]]
      else [] in
    mkStreamerRun (mkStreamer buffer next) (sent r) (published r ++ errors)
  else
    let '(emitted, next', kept) := drain next (SortFunc buffer) in
    mkStreamerRun (mkStreamer kept next') (sent r ++ emitted) (published r).

(** The streamer from its start until [decodedSegments] is closed, having
    delivered [arrivals] in that order. *)
Definition startOrderedSegmentStreamer (arrivals : list decodedSegment) : streamerRun :=
  fold_left receive arrivals (mkStreamerRun (mkStreamer [] 0) [] []).

End Streamer.

#[global] Instance offsetLe_dec : RelDecision offsetLe :=
  fun a b => Z_le_dec (ds_rowOffset a) (ds_rowOffset b).

(** The streamer's sort, instantiated: a merge sort on [rowOffset]. *)
Definition sortByRowOffset (l : list decodedSegment) : list decodedSegment :=
  merge_sort offsetLe l.

(** ** The spooling pipeline: dispatcher, throttle and streamer together *)

Inductive segmentKind : Type :=
| inlineSegment
| spooledSegment
| otherSegment.

(** A queued segment: the value of its [type] field, and the decoded segment
    that downloading and decoding it would hand to the streamer. *)
Record segmentToProccess : Type := mkSegmentToProccess {
  segmentIndex : Z;
  kind : segmentKind;
  decoded : decodedSegment
}.

(** Where the streamer's goroutine stands. *)
Inductive streamerPhase : Type :=
| waiting
| draining
| releasing (segment : decodedSegment).

(** The pipeline of one statement.  [inFlight] gathers the segments between
    the dispatcher and the streamer (queued for download, downloading,
    queued for decoding, decoding, or offered on [decodedSegments]): they
    may overtake one another.  In the phases [draining] and [releasing] the
    streamer's buffer is kept from [consumed] on.  The last three fields
    count channel operations. *)
Record pipeline : Type := mkPipeline {
  segmentsToProccess : list segmentToProccess;
  segmentThrottleCh : nat;
  inFlight : list decodedSegment;
  phase : streamerPhase;
  strm : streamer;
  spoolingRowsChannel : list (list queryData);
  errorsCh : list error;
  admitted : nat;
  tokensPushed : nat;
  tokensTaken : nat
}.

(** The moves of the goroutines. *)
Inductive move : Type :=
| enqueue (segment : segmentToProccess)
| dispatch
| workerFails (i : nat) (err : error)
| deliver (i : nat)
| emit
| release
| settle.

Definition startPipeline : pipeline :=
  mkPipeline [] 0 [] waiting (mkStreamer [] 0) [] [] 0 0 0.

Section Pipeline.

Variable SortFunc : list decodedSegment -> list decodedSegment.

(** The capacity of [segmentThrottleCh]. *)
Variable maxOutOfOrder : nat.

(** One move; [None] when the goroutine that would make it is blocked or
    stands elsewhere.
    - [enqueue]: [queueSpoolingSegments] sends a segment.
    - [dispatch]: the dispatcher receives the next segment, pushes one
      token (blocking while the channel is full) and only then looks at
      the segment's type; a type that is neither inline nor spooled sends
      nothing on.
    - [workerFails]: a download or decode worker publishes an error for a
      segment and drops it.
    - [deliver]: the streamer receives a decoded segment.
    - [emit], [release]: one turn of the inner loop, the send of the rows
      and then the receive of one token.
    - [settle]: the inner loop's condition fails. *)
Definition step (m : move) (p : pipeline) : option pipeline :=
  match m with
  | enqueue segment =>
      Some (mkPipeline (segmentsToProccess p ++ [segment]) (segmentThrottleCh p)
              (inFlight p) (phase p) (strm p) (spoolingRowsChannel p) (errorsCh p)
              (admitted p) (tokensPushed p) (tokensTaken p))
  | dispatch =>
      match segmentsToProccess p with
      | [] => None
      | segment :: queue =>
          if (segmentThrottleCh p <? maxOutOfOrder)%nat then
            let forwarded :=
              match kind segment with
              | otherSegment => inFlight p
              | _ => inFlight p ++ [decoded segment]
              end in
            Some (mkPipeline queue (S (segmentThrottleCh p)) forwarded (phase p) (strm p)
                    (spoolingRowsChannel p) (errorsCh p)
                    (S (admitted p)) (S (tokensPushed p)) (tokensTaken p))
          else None
      end
  | workerFails i err =>
      match inFlight p !! i with
      | None => None
      | Some _ =>
          Some (mkPipeline (segmentsToProccess p) (segmentThrottleCh p)
                  (delete i (inFlight p)) (phase p) (strm p)
                  (spoolingRowsChannel p) (errorsCh p ++ [err])
                  (admitted p) (tokensPushed p) (tokensTaken p))
      end
  | deliver i =>
      match phase p, inFlight p !! i with
      | waiting, Some segment =>
          let buffer := buffer (strm p) ++ [segment] in
          let next := nextExpectedOffset (strm p) in
          if negb (next =? ds_rowOffset segment) then
            let errors :=
              if len buffer >=? Z.of_nat maxOutOfOrder then
                [Errorf fmtOutOfOrder [opInt (len buffer); opInt (Z.of_nat maxOutOfOrder)]]
              else [] in
            Some (mkPipeline (segmentsToProccess p) (segmentThrottleCh p)
                    (delete i (inFlight p)) waiting (mkStreamer buffer next)
                    (spoolingRowsChannel p) (errorsCh p ++ errors)
                    (admitted p) (tokensPushed p) (tokensTaken p))
          else
            Some (mkPipeline (segmentsToProccess p) (segmentThrottleCh p)
                    (delete i (inFlight p)) draining (mkStreamer (SortFunc buffer) next)
                    (spoolingRowsChannel p) (errorsCh p)
                    (admitted p) (tokensPushed p) (tokensTaken p))
      | _, _ => None
      end
  | emit =>
      match phase p, buffer (strm p) with
      | draining, segment :: rest =>
          if ds_rowOffset segment =? nextExpectedOffset (strm p) then
            Some (mkPipeline (segmentsToProccess p) (segmentThrottleCh p)
                    (inFlight p) (releasing segment)
                    (mkStreamer rest (nextExpectedOffset (strm p)))
                    (spoolingRowsChannel p ++ [ds_queryData segment]) (errorsCh p)
                    (admitted p) (tokensPushed p) (tokensTaken p))
          else None
      | _, _ => None
      end
  | release =>
      match phase p, segmentThrottleCh p with
      | releasing segment, S tokens =>
          Some (mkPipeline (segmentsToProccess p) tokens
                  (inFlight p) draining
                  (mkStreamer (buffer (strm p))
                     (wrap64 (nextExpectedOffset (strm p) + len (ds_queryData segment))))
                  (spoolingRowsChannel p) (errorsCh p)
                  (admitted p) (tokensPushed p) (S (tokensTaken p)))
      | _, _ => None
      end
  | settle =>
      match phase p, buffer (strm p) with
      | draining, [] =>
          Some (mkPipeline (segmentsToProccess p) (segmentThrottleCh p)
                  (inFlight p) waiting (strm p)
                  (spoolingRowsChannel p) (errorsCh p)
                  (admitted p) (tokensPushed p) (tokensTaken p))
      | draining, segment :: _ =>
          if ds_rowOffset segment =? nextExpectedOffset (strm p) then None
          else
            Some (mkPipeline (segmentsToProccess p) (segmentThrottleCh p)
                    (inFlight p) waiting (strm p)
                    (spoolingRowsChannel p) (errorsCh p)
                    (admitted p) (tokensPushed p) (tokensTaken p))
      | _, _ => None
      end
  end.

(** A schedule of moves, from a given state. *)
Fixpoint runPipeline (moves : list move) (p : pipeline) : option pipeline :=
  match moves with
  | [] => Some p
  | m :: moves' =>
      match step m p with
      | Some p' => runPipeline moves' p'
      | None => None
      end
  end.

End Pipeline.

(** The segments resident in the pipeline: in flight, or in the streamer's
    buffer with their rows not yet sent. *)
Definition resident (p : pipeline) : nat :=
  (length (inFlight p) + length (buffer (strm p)))%nat.


(** ** Notions used to state the properties *)

(** The raw types whose parameters [newTypeConverter] extracts. *)
Definition sizedRawTypes : list string := ["char"; "varchar"].
Definition precisionRawTypes : list string :=
  ["time"; "time with time zone"; "timestamp"; "timestamp with time zone"].

(** The key of a [key=value] header entry: the text before the first equals
    sign, when there is one. *)
Fixpoint entryKey (entry : string) : option string :=
  match entry with
  | EmptyString => None
  | String c rest =>
      if Ascii.eqb c "="%char then Some EmptyString
      else option_map (String c) (entryKey rest)
  end.

(** Stand-ins for the libraries, for running the model on examples. *)
Definition zstdStub (data : list byte) : zstdRun := zstdDecoded (data ++ data).
Definition lz4Stub (data : list byte) (n : Z) : outcome (list byte) := Ok data.
Definition jsonStub (data : list byte) : outcome (list queryData) :=
  Ok (map (fun _ => [JNull]) data).
Definition serialStub (v : driverValue) : outcome string :=
  match v with
  | vString s => Ok ("'" +:+ s +:+ "'")
  | _ => Ok "NULL"
  end.

(** Example values. *)
Definition noLocation : ErrorLocation := mkErrorLocation 0 0.
Definition noFailure : FailureInfo :=
  mkFailureInfo "" "" None [] [] (mkErrorInfo 0 "" "") noLocation.
Definition syntaxError : ErrTrino :=
  mkErrTrino "line 1:1: mismatched input" "" 1 "SYNTAX_ERROR" "USER_ERROR"
    noLocation noFailure.

Definition decimal_10_2 : typeSignature :=
  mkTypeSignature "decimal" [longArgument 10; longArgument 2].
Definition varchar_of_type : typeSignature :=
  mkTypeSignature "varchar"
    [mkTypeArgument KIND_TYPE (mkTypeSignature "integer" []) zeroNamedTypeSignature 0].

Definition threeBytes : list byte := [x00; x01; x02].
Definition plainMetadata : segmentMetadata := mkSegmentMetadata 0 3 3 0.
Definition shortMetadata : segmentMetadata := mkSegmentMetadata 0 3 2 0.
Definition zstdMetadata : segmentMetadata := mkSegmentMetadata 0 3 3 7.
Definition negativeSizeMetadata : segmentMetadata := mkSegmentMetadata 0 0 0 (-1).

Definition sessionHeaders : Header :=
  Header_Add (Header_Add ∅ trinoUserHeader "alice") trinoSessionHeader "join_distribution_type=AUTO".
Definition okResponse (headers : Header) : Response :=
  mkResponse 200 headers "{}" None 2.
Definition setSessionResponse : Response :=
  okResponse (Header_Add ∅ trinoSetSessionHeader "query_max_run_time=1h").
Definition clearSessionResponse : Response :=
  okResponse (Header_Add ∅ trinoClearSessionHeader "query_max_run_time").
Definition setRoleResponse : Response :=
  okResponse (Header_Add ∅ trinoSetRoleHeader "admin").
Definition unavailable : Response := mkResponse 503 ∅ "" None 0.
Definition badGateway : Response := mkResponse 502 ∅ "" None 0.

(** The delay after [n] more retries, and the delays passed to [timer.Reset]
    over [n] retries, from a given delay. *)
Fixpoint delayAfter (delay : Z) (n : nat) : Z :=
  match n with
  | O => delay
  | S n' => delayAfter (nextDelay delay) n'
  end.

Fixpoint delaysFrom (delay : Z) (n : nat) : list Z :=
  match n with
  | O => []
  | S n' => delay :: delaysFrom (nextDelay delay) n'
  end.

(** The retried statuses. *)
Definition retryStatuses : list Z := [502; 503; 504].

Definition freshConn : Conn := mkConn sessionHeaders None 0 true false.
Definition freshStmt : driverStmt := mkDriverStmt "SELECT 1" "" false 0 0.
Definition sameString (s : string) : string := s.
Definition workersOnly : list NamedValue :=
  [mkNamedValue trinoSpoolingWorkerCount (vString "3")].
Definition boundOnly : list NamedValue :=
  [mkNamedValue trinoMaxOutOfOrdersSegments (vString "2")].
Definition workersAndBound (workers bound : string) : list NamedValue :=
  [mkNamedValue trinoSpoolingWorkerCount (vString workers);
   mkNamedValue trinoMaxOutOfOrdersSegments (vString bound)].

(** [exec] with the stand-ins for the libraries. *)
Definition execWith (args : list NamedValue) : execState * outcome statementRequest :=
  exec serialStub sameString sameString freshConn freshStmt args.

(** The rows of a list of segments, in the list's order. *)
Definition allRows (segments : list decodedSegment) : list queryData :=
  concat (map ds_queryData segments).

Fixpoint totalRows (segments : list decodedSegment) : Z :=
  match segments with
  | [] => 0
  | segment :: rest => len (ds_queryData segment) + totalRows rest
  end.

(** Segments that follow one another from [offset]: each starts where the
    rows before it end. *)
Fixpoint tiled (offset : Z) (segments : list decodedSegment) : Prop :=
  match segments with
  | [] => True
  | segment :: rest =>
      ds_rowOffset segment = offset /\ tiled (offset + len (ds_queryData segment)) rest
  end.

Definition hasRows (segment : decodedSegment) : bool :=
  match ds_queryData segment with
  | [] => false
  | _ => true
  end.

(** What the proofs ask of [slices.SortFunc]: it permutes its argument and
    leaves it sorted by [rowOffset]. *)
Definition sortsByRowOffset (SortFunc : list decodedSegment -> list decodedSegment) : Prop :=
  forall l, Permutation (SortFunc l) l /\ StronglySorted offsetLe (SortFunc l).

(** A result set as the server cuts it: non-empty segments that tile the
    rows from offset zero, fewer rows in all than an [int64] counts. *)
Definition wellFormedSegments (segments : list decodedSegment) : Prop :=
  tiled 0 segments /\
  Forall (fun s => hasRows s = true) segments /\
  totalRows segments <= int64_max.

(** What holds of the streamer between two receives, [arrived] being the
    segments received so far: nothing is lost or made up, the segments sent
    are tiled from zero, and the expected offset counts the rows sent. *)
Definition streamerInvariant (r : streamerRun) (arrived : list decodedSegment) : Prop :=
  Permutation (sent r ++ buffer (locals r)) arrived /\
  tiled 0 (sent r) /\
  nextExpectedOffset (locals r) = totalRows (sent r).

(** What holds besides when the segments received and still to come are
    those of a well-formed result set [segments]: the segments sent are its
    first ones, the buffer and the arrivals to come make up the others, and
    no buffered segment starts at the expected offset. *)
Definition completionInvariant (segments : list decodedSegment) (r : streamerRun)
    (coming : list decodedSegment) : Prop :=
  exists todo,
    segments = sent r ++ todo /\
    nextExpectedOffset (locals r) = totalRows (sent r) /\
    Permutation (buffer (locals r) ++ coming) todo /\
    Forall (fun x => ds_rowOffset x <> nextExpectedOffset (locals r)) (buffer (locals r)).

Definition oneRow (offset : Z) : decodedSegment :=
  mkDecodedSegment offset [[JString "row"; JBool (Z.even offset)]].

(** Five one-row segments, decoded in the order 2, 0, 1, 4, 3. *)
Definition arrival_20143 : list decodedSegment :=
  [oneRow 2; oneRow 0; oneRow 1; oneRow 4; oneRow 3].
Definition inOrder_01234 : list decodedSegment :=
  [oneRow 0; oneRow 1; oneRow 2; oneRow 3; oneRow 4].

(** Offsets that increase strictly along a list, as a check that runs. *)
Fixpoint strictlyIncreasing (l : list decodedSegment) : bool :=
  match l with
  | a :: (b :: _) as rest => (ds_rowOffset a <? ds_rowOffset b) && strictlyIncreasing rest
  | _ => true
  end.

(** Along the streamer's run on [arrivals], every buffer handed to the sort
    holds segments of distinct offsets (so every sort orders it alike). *)
Fixpoint sortsAreForced (maxOutOfOrder : Z) (arrivals : list decodedSegment)
    (r : streamerRun) : bool :=
  match arrivals with
  | [] => true
  | segment :: arrivals' =>
      strictlyIncreasing (sortByRowOffset (buffer (locals r) ++ [segment]))
      && sortsAreForced maxOutOfOrder arrivals'
           (receive sortByRowOffset maxOutOfOrder r segment)
  end.

Definition startOfRun : streamerRun := mkStreamerRun (mkStreamer [] 0) [] [].

Definition outOfOrderError (buffered limit : Z) : error :=
  Errorf fmtOutOfOrder [opInt buffered; opInt limit].


Definition queued (index : Z) (k : segmentKind) (offset : Z) : segmentToProccess :=
  mkSegmentToProccess index k (oneRow offset).

(** A schedule with a bound of 2: three segments are queued, two are
    admitted, the second one is decoded first and waits, the first one
    arrives and both are sent, and only then the third is admitted. *)
Definition schedule : list move :=
  [enqueue (queued 0 spooledSegment 0); enqueue (queued 1 inlineSegment 1);
   enqueue (queued 2 spooledSegment 2);
   dispatch; dispatch; deliver 1; deliver 0;
   emit; release; dispatch; emit; release; settle; deliver 0; emit; release; settle].

(** The streamer's moves while it sends [n] segments and then finds the
    inner loop's condition false. *)
Fixpoint drainMoves (n : nat) : list move :=
  match n with
  | O => [settle]
  | S n' => emit :: release :: drainMoves n'
  end.

(** The streamer's moves on receiving the in-flight segment [i], given the
    number of segments the receive sends. *)
Definition receiveMoves (i : nat) (expected : bool) (n : nat) : list move :=
  if expected then deliver i :: drainMoves n else [deliver i].


(** A buffered segment is stale when it starts below the expected offset:
    its rows, or rows at its offset, were already sent. *)
Definition staleBuffered (r : streamerRun) : Prop :=
  exists s, In s (buffer (locals r)) /\ ds_rowOffset s < nextExpectedOffset (locals r).

(** A pipeline whose throttle is full while no segment is resident and the
    streamer waits: every token in the channel belongs to a segment that was
    dropped. *)
Definition allTokensLeaked (maxOutOfOrder : nat) (p : pipeline) : Prop :=
  segmentThrottleCh p = maxOutOfOrder /\ inFlight p = [] /\
  buffer (strm p) = [] /\ phase p = waiting.

(** Two queued segments of a type the dispatcher does not know, admitted. *)
Definition leakingSchedule : list move :=
  [enqueue (queued 0 otherSegment 0); enqueue (queued 1 otherSegment 1);
   enqueue (queued 2 spooledSegment 2); dispatch; dispatch].
Definition leakedEnd : pipeline :=
  Eval vm_compute in
    match runPipeline sortByRowOffset 2 leakingSchedule startPipeline with
    | Some p => p
    | None => startPipeline
    end.

(** A run in which the segment at offset 0 was sent and then arrives a
    second time. *)
Definition afterFirstSegment : streamerRun :=
  receive sortByRowOffset 10 startOfRun (oneRow 0).

Definition leakedLater : pipeline :=
  Eval vm_compute in
    match runPipeline sortByRowOffset 2 [enqueue (queued 3 inlineSegment 3)] leakedEnd with
    | Some p => p
    | None => startPipeline
    end.

(** The outbound headers that taking in a response may change. *)
Definition ingestedHeaders : list string :=
  [trinoSchemaHeader; trinoCatalogHeader; preparedStatementHeader; trinoSessionHeader].

Definition addedPrepareResponse : Response :=
  okResponse (Header_Add ∅ trinoAddedPrepareHeader "_trino_go=SELECT+1").
Definition deallocatedPrepareResponse : Response :=
  okResponse (Header_Add ∅ trinoDeallocatedPrepareHeader "_trino_go").
Definition useResponse : Response :=
  okResponse (Header_Add (Header_Add ∅ trinoSetCatalogHeader "tpch") trinoSetSchemaHeader "tiny").
Definition setSessionAndRoleResponse : Response :=
  okResponse (Header_Add (Header_Add ∅ trinoSetRoleHeader "admin")
                trinoSetSessionHeader "query_max_run_time=1h").
Definition notFound : Response := mkResponse 404 ∅ "no such query" None 13.

Definition addedAndDeallocatedResponse : Response :=
  okResponse (Header_Add (Header_Add ∅ trinoAddedPrepareHeader "_trino_go=SELECT+1")
                trinoDeallocatedPrepareHeader "_trino_go").

(** A response with its [Set-Path] and [Set-Role] headers taken off. *)
Definition withoutUnsupported (resp : Response) : Response :=
  mkResponse (StatusCode resp)
    (Header_Del (Header_Del (respHeader resp) trinoSetPathHeader) trinoSetRoleHeader)
    (Body resp) (BodyReadError resp) (ContentLength resp).

(** The text of the reason of a failed query, when it is a plain text. *)
Definition reasonText (e : error) : option string :=
  match e with
  | ErrQueryFailed _ (errorsNew text) => Some text
  | _ => None
  end.

Definition failedStatus (e : error) : option Z :=
  match e with
  | ErrQueryFailed status _ => Some status
  | _ => None
  end.

(** ** The segment fetcher's round trip *)

(** What [sf.httpClient.Do(req)] gives back, as [SegmentFetcher.roundTrip]
    tells it apart: an error that is a [net.Error] whose [Timeout()] holds,
    any other error, or a response. *)
Inductive fetchResult : Type :=
| fetchTimeout (err : error)
| fetchError (err : error)
| fetchResponse (resp : Response).

Definition maxRetries : Z := 5.
Definition fetcherInitialDelay : Z := 200 * Millisecond.

(** [time.Duration(float64(delay) * math.Phi)]. *)
Definition grownDelay (delay : Z) : Z :=
  int64_of_float64 (PrimFloat.mul (float64_of_int64 delay) mathPhi).

Definition fmtMaxRetries : string := "max retries reached: %w".
Definition fmtMaxRetriesStatus : string := "max retries reached for status code %d".

(** A run of the fetcher's round trip: what it returned ([None] while it
    still waits for its timer) and the delays it passed to [timer.Reset]. *)
Record fetcherRun : Type := mkFetcherRun {
  fetched : option (outcome Response);
  fetcherResets : list Z
}.

(** The [for] loop of [SegmentFetcher.roundTrip], run against the results
    of its requests; its [select] has the timer's case only.  [retries]
    stays below seven, so its increment does not wrap. *)
Fixpoint fetcherLoop (results : list fetchResult) (delay retries : Z) (resets : list Z)
  : fetcherRun :=
  match results with
  | [] => mkFetcherRun None resets
  | fetchTimeout err :: results' =>
      let retries := retries + 1 in
      if retries >? maxRetries then
        mkFetcherRun
          (Some (Err (ErrQueryFailed 0 (Errorf fmtMaxRetries [opError err])))) resets
      else
        let delay := grownDelay delay in
        fetcherLoop results' delay retries (resets ++ [delay])
  | fetchError err :: _ => mkFetcherRun (Some (Err (ErrQueryFailed 0 err))) resets
  | fetchResponse resp :: results' =>
      if StatusCode resp =? 200 then mkFetcherRun (Some (Ok resp)) resets
      else if isRetryStatus (StatusCode resp) then
        let retries := retries + 1 in
        if retries >? maxRetries then
          mkFetcherRun
            (Some (Err (ErrQueryFailed 0
                          (Errorf fmtMaxRetriesStatus [opInt (StatusCode resp)])))) resets
        else
          let delay := grownDelay delay in
          fetcherLoop results' delay retries (resets ++ [delay])
      else mkFetcherRun (Some (Err (newErrQueryFailedFromResponse resp))) resets
  end.

(** [SegmentFetcher.roundTrip]. *)
Definition SegmentFetcher_roundTrip (results : list fetchResult) : fetcherRun :=
  fetcherLoop results fetcherInitialDelay 0 [].

(** The results the fetcher answers with another attempt. *)
Definition retried (result : fetchResult) : bool :=
  match result with
  | fetchTimeout _ => true
  | fetchError _ => false
  | fetchResponse resp => isRetryStatus (StatusCode resp)
  end.

Definition isMaxRetriesError (e : error) : bool :=
  match e with
  | ErrQueryFailed 0 (Errorf format _) =>
      String.eqb format fmtMaxRetries || String.eqb format fmtMaxRetriesStatus
  | _ => false
  end.

(** The delays of [n] attempts in a row, from a given delay. *)
Fixpoint grownDelays (delay : Z) (n : nat) : list Z :=
  match n with
  | O => []
  | S n' => grownDelay delay :: grownDelays (grownDelay delay) n'
  end.

Definition timeoutError : error := errorsNew "i/o timeout".
Definition sixFailures : list fetchResult :=
  [fetchResponse unavailable; fetchTimeout timeoutError; fetchResponse badGateway;
   fetchResponse unavailable; fetchTimeout timeoutError; fetchResponse unavailable].

(** ** Closing the rows: [driverRows.Close] *)

(** The values [qr.err] takes: the two sentinels of Go's libraries that
    [Close] and [Next] compare it with, or an error of this package. *)
Inductive rowsError : Type :=
| sqlErrNoRows
| ioEOF
| rowsFailed (e : error).

(** The fields of [driverRows] that [Close] reads or writes. *)
Record driverRows : Type := mkDriverRows {
  rows_err : option rowsError;
  nextURI : string;
  queryID : string
}.

(** A run of [Close]: the error it returned ([None] while its round trip
    still waits; [Some None] is Go's [nil]), the rows and the connection's
    headers as it leaves them. *)
Record closeRun : Type := mkCloseRun {
  closeReturned : option (option rowsError);
  closedRows : driverRows;
  closedHeaders : Header
}.

(** [driverRows.Close].  [newRequestError] is what [newRequest] returns as
    its error for the DELETE request; [turns] is what the round trip of
    that request meets. *)
Definition driverRows_Close (newRequestError : option error) (turns : list selectCase)
    (qr : driverRows) (httpHeaders : Header) : closeRun :=
  match rows_err qr with
  | Some sqlErrNoRows | Some ioEOF => mkCloseRun (Some None) qr httpHeaders
  | _ =>
      let qr := mkDriverRows (Some ioEOF) (nextURI qr) (queryID qr) in
      match newRequestError with
      | Some err => mkCloseRun (Some (Some (rowsFailed err))) qr httpHeaders
      | None =>
          let run := roundTrip turns httpHeaders in
          match returned run with
          | None => mkCloseRun None qr (connHeaders run)
          | Some (Ok _) => mkCloseRun (Some (rows_err qr)) qr (connHeaders run)
          | Some (Err (ErrQueryFailed status reason)) =>
              if status =? 204 then
                mkCloseRun (Some None) (mkDriverRows (rows_err qr) "" (queryID qr))
                  (connHeaders run)
              else
                mkCloseRun (Some (Some (rowsFailed (ErrQueryFailed status reason)))) qr
                  (connHeaders run)
          | Some (Err err) => mkCloseRun (Some (Some (rowsFailed err))) qr (connHeaders run)
          | Some (Panic _) => mkCloseRun None qr (connHeaders run)
          end
      end
  end.

(** Rows that are being read, and the answers to the DELETE request. *)
Definition openRows : driverRows := mkDriverRows None "http://trino/v1/statement/q1/2" "q1".
Definition noContent : Response := mkResponse 204 ∅ "" None 0.

(** ** Notions for the statement driver *)

(** An argument that [exec] binds to a parameter of the query: its name is
    none of the option names and does not start with [X-Trino-]. *)
Definition positional (conn : Conn) (arg : NamedValue) : bool :=
  negb (String.eqb (Name arg) trinoProgressCallbackParam)
  && negb (String.eqb (Name arg) trinoProgressCallbackPeriodParam)
  && negb (forwardAuthorizationHeader conn && String.eqb (Name arg) accessTokenConfig)
  && negb (String.eqb (Name arg) trinoEncoding)
  && negb (String.eqb (Name arg) trinoSpoolingWorkerCount)
  && negb (String.eqb (Name arg) trinoMaxOutOfOrdersSegments)
  && negb (HasPrefix (Name arg) trinoHeaderPrefix).

(** The progress options as [exec] accepts them: an updater with a period
    other than zero, or no updater and no positive period. *)
Definition progressOptionsAccepted (c : Conn) : Prop :=
  (progressUpdater c <> None -> progressUpdaterPeriod c <> 0) /\
  (progressUpdater c = None -> progressUpdaterPeriod c <= 0).

Definition clientCapabilitiesHeader : string := "X-Trino-Client-Capabilities".

(** Reading a SQL string literal back: the text between the enclosing
    single quotes, each doubled quote standing for one. *)
Fixpoint readQuoted (s : string) : option string :=
  match s with
  | EmptyString => None
  | String c rest =>
      if Ascii.eqb c "'"%char then
        match rest with
        | EmptyString => Some EmptyString
        | String c' rest' =>
            if Ascii.eqb c' "'"%char then option_map (String c) (readQuoted rest')
            else None
        end
      else option_map (String c) (readQuoted rest)
  end.

Definition readStringLiteral (literal : string) : option string :=
  match literal with
  | String c rest => if Ascii.eqb c "'"%char then readQuoted rest else None
  | EmptyString => None
  end.

Definition twoParameters : list NamedValue :=
  [mkNamedValue "" (vString "a"); mkNamedValue "" (vInt 7)].
Definition implicitConn : Conn := mkConn sessionHeaders None 0 false false.

(** Arguments of each kind [exec] tells apart: the two progress options, an
    encoding, the two spooling options, a header and two parameters. *)
Definition mixedArguments : list NamedValue :=
  [mkNamedValue trinoProgressCallbackParam (vProgressUpdater 1);
   mkNamedValue trinoProgressCallbackPeriodParam (vDuration Second);
   mkNamedValue trinoEncoding (vString "json+zstd");
   mkNamedValue trinoSpoolingWorkerCount (vString "3");
   mkNamedValue trinoMaxOutOfOrdersSegments (vString "4");
   mkNamedValue "X-Trino-Source" (vString "cli");
   mkNamedValue "" (vString "a");
   mkNamedValue "" (vInt 7)].

(** Headers that keep every value of [h], in place, and may hold more
    after them. *)
Definition extendsHeader (h h' : Header) : Prop :=
  forall key, exists more, Header_Values h' key = Header_Values h key ++ more.

Definition progressCallback (updater : nat) : NamedValue :=
  mkNamedValue trinoProgressCallbackParam (vProgressUpdater updater).

(** The type names on which [getScanType] fails: an array, nested up to
    three deep, with no element type. *)
Definition bareArrays : list (list string) :=
  [["array"]; ["array"; "array"]; ["array"; "array"; "array"]].

Definition array_of_array : typeSignature :=
  mkTypeSignature "array"
    [mkTypeArgument KIND_TYPE
       (mkTypeSignature "array" [longArgument 1]) zeroNamedTypeSignature 0].

(** ** Converting values: [ConvertValue] and the scanners *)

(** [sql.NullBool], [sql.NullString], [sql.NullInt64], [sql.NullFloat64] and
    [NullTime]: a value and whether it is there. *)
Record sqlNull (A : Type) : Type := mkSqlNull {
  nullValue : A;
  Valid : bool
}.
Arguments mkSqlNull {A} nullValue Valid.
Arguments nullValue {A} _.
Arguments Valid {A} _.

(** [NullSliceBool] and the like: the slice and whether it is there. *)
Record nullSlice (A : Type) : Type := mkNullSlice {
  Slice : list A;
  sliceValid : bool
}.
Arguments mkNullSlice {A} Slice sliceValid.
Arguments Slice {A} _.
Arguments sliceValid {A} _.

(** [strings.Split(s, sep)] for a separator of one byte. *)
Fixpoint Split (s : string) (sep : ascii) : list string :=
  match s with
  | EmptyString => [EmptyString]
  | String c rest =>
      if Ascii.eqb c sep then EmptyString :: Split rest sep
      else
        match Split rest sep with
        | part :: parts => String c part :: parts
        | [] => [String c EmptyString]
        end
  end.

(** [strings.ContainsRune], [strings.Count], [strings.LastIndex] and
    [strings.Replace(s, old, new, 1)] for a byte. *)
Fixpoint ContainsRune (s : string) (r : ascii) : bool :=
  match s with
  | EmptyString => false
  | String c rest => Ascii.eqb c r || ContainsRune rest r
  end.

Fixpoint Count (s : string) (c : ascii) : Z :=
  match s with
  | EmptyString => 0
  | String a rest => (if Ascii.eqb a c then 1 else 0) + Count rest c
  end.

Fixpoint LastIndex (s : string) (c : ascii) : Z :=
  match s with
  | EmptyString => -1
  | String a rest =>
      let i := LastIndex rest c in
      if 0 <=? i then i + 1 else if Ascii.eqb a c then 0 else -1
  end.

Fixpoint ReplaceFirst (s : string) (old : ascii) (new : string) : string :=
  match s with
  | EmptyString => EmptyString
  | String c rest =>
      if Ascii.eqb c old then new +:+ rest else String c (ReplaceFirst rest old new)
  end.

(** [unicode.IsDigit(rune(b))] for a byte [b]: below 256 the decimal digits
    are the ASCII ones. *)
Definition IsDigit (b : ascii) : bool :=
  let n := Z.of_nat (nat_of_ascii b) in (48 <=? n) && (n <=? 57).

(** The last element of a slice known to be non-empty. *)
Definition lastPart (parts : list string) : string := List.last parts EmptyString.

(** A loop that converts the elements in turn and returns at the first
    error. *)
Fixpoint scanEach {A : Type} (scan : jsonValue -> outcome A) (vs : list jsonValue)
  : outcome (list A) :=
  match vs with
  | [] => Ok []
  | v :: vs' =>
      let* a := scan v in
      let* rest := scanEach scan vs' in
      Ok (a :: rest)
  end.

(** A [driver.Value] as [ConvertValue] returns it.  [cvBytes None] is a
    [[]byte] that is nil, which is not the nil interface ([cvNil]). *)
Inductive convertedValue (Time : Type) : Type :=
| cvNil
| cvBool (b : bool)
| cvString (s : string)
| cvBytes (b : option (list byte))
| cvInt64 (z : Z)
| cvFloat64 (f : float)
| cvTime (t : Time)
| cvRaw (v : jsonValue).
Arguments cvNil {Time}.
Arguments cvBool {Time} b.
Arguments cvString {Time} s.
Arguments cvBytes {Time} b.
Arguments cvInt64 {Time} z.
Arguments cvFloat64 {Time} f.
Arguments cvTime {Time} t.
Arguments cvRaw {Time} v.

Definition timeLayouts : list string :=
  ["2006-01-02"; "15:04:05.999999999"; "2006-01-02 15:04:05.999999999"].
Definition timeLayoutsTZ : list string :=
  ["15:04:05.999999999 -07:00"; "2006-01-02 15:04:05.999999999 -07:00"].

Definition fmtTimeZone : string := "cannot convert %v (%T) to time+zone".
Definition fmtTypeNotSupported : string := "type not supported: %q".

Definition convertedStringTypes : list string :=
  ["json"; "char"; "varchar"; "interval year to month"; "interval day to second";
   "decimal"; "ipaddress"; "uuid"; "Geometry"; "SphericalGeography"; "unknown"].

Section Convert.

(** Outside the package: how [fmt] renders a value with [%v] and its type
    with [%T]; [json.Number.Int64] and [json.Number.Float64];
    [strconv.ParseFloat(s, 64)]; [base64.StdEncoding.DecodeString]; and the
    [time] library ([time.Time] and its zero value, [time.Location],
    [time.Local], [time.LoadLocation], [time.Parse] and
    [time.ParseInLocation]). *)
Variable fmtV : jsonValue -> string.
Variable fmtT : jsonValue -> string.
Variable numberInt64 : string -> outcome Z.
Variable numberFloat64 : string -> outcome float.
Variable ParseFloat : string -> outcome float.
Variable DecodeString : string -> outcome (list byte).
Variable Time : Type.
Variable zeroTime : Time.
Variable Location : Type.
Variable Local : Location.
Variable LoadLocation : string -> outcome Location.
Variable timeParse : string -> string -> outcome Time.
Variable ParseInLocation : string -> string -> Location -> outcome Time.

Definition cannotConvert (v : jsonValue) (target : string) : error :=
  Errorf ("cannot convert %v (%T) to " +:+ target) [opString (fmtV v); opString (fmtT v)].

Definition validateMap (v : jsonValue) : option error :=
  match v with
  | JNull => None
  | JObject _ => None
  | _ => Some (cannotConvert v "map")
  end.

Definition validateSlice (v : jsonValue) : option error :=
  match v with
  | JNull => None
  | JArray _ => None
  | _ => Some (cannotConvert v "slice")
  end.

Definition scanNullBool (v : jsonValue) : outcome (sqlNull bool) :=
  match v with
  | JNull => Ok (mkSqlNull false false)
  | JBool vv => Ok (mkSqlNull vv true)
  | _ => Err (cannotConvert v "bool")
  end.

Definition scanNullString (v : jsonValue) : outcome (sqlNull string) :=
  match v with
  | JNull => Ok (mkSqlNull "" false)
  | JString vv => Ok (mkSqlNull vv true)
  | _ => Err (cannotConvert v "string")
  end.

(** [scanNullBytes]: [None] is the nil slice. *)
Definition scanNullBytes (v : jsonValue) : outcome (option (list byte)) :=
  match v with
  | JNull => Ok None
  | JString vv =>
      match DecodeString vv with
      | Ok decoded => Ok (Some decoded)
      | Err err =>
          Err (Errorf "cannot decode base64 string into []byte: %w" [opError err])
      | Panic m => Panic m
      end
  | _ => Err (cannotConvert v "[]byte")
  end.

Definition scanNullInt64 (v : jsonValue) : outcome (sqlNull Z) :=
  match v with
  | JNull => Ok (mkSqlNull 0 false)
  | JNumber vNumber =>
      match numberInt64 vNumber with
      | Ok vv => Ok (mkSqlNull vv true)
      | Err _ => Err (cannotConvert v "int64")
      | Panic m => Panic m
      end
  | _ => Err (cannotConvert v "int64")
  end.

Definition scanNullFloat64 (v : jsonValue) : outcome (sqlNull float) :=
  match v with
  | JNull => Ok (mkSqlNull 0%float false)
  | JNumber vNumber =>
      match numberFloat64 vNumber with
      | Ok vFloat => Ok (mkSqlNull vFloat true)
      | Err err =>
          Err (Errorf "cannot convert %v (%T) to float64: %w"
                 [opString (fmtV v); opString (fmtT v); opError err])
      | Panic m => Panic m
      end
  | JString vText =>
      if String.eqb vText "NaN" then Ok (mkSqlNull nan true)
      else if String.eqb vText "Infinity" then Ok (mkSqlNull infinity true)
      else if String.eqb vText "-Infinity" then Ok (mkSqlNull neg_infinity true)
      else
        match ParseFloat vText with
        | Ok vFloat => Ok (mkSqlNull vFloat true)
        | Err err =>
            Err (Errorf "cannot convert %v (%T) to float64: %w"
                   [opString (fmtV v); opString (fmtT v); opError err])
        | Panic m => Panic m
        end
  | _ => Err (cannotConvert v "float64")
  end.

(** The loop over the layouts: the first layout that parses wins, the
    error of the last one is returned otherwise. *)
Fixpoint tryLayouts (parse : string -> outcome Time) (layouts : list string)
    (last : outcome (sqlNull Time)) : outcome (sqlNull Time) :=
  match layouts with
  | [] => last
  | layout :: layouts' =>
      match parse layout with
      | Ok t => Ok (mkSqlNull t true)
      | Err err => tryLayouts parse layouts' (Err err)
      | Panic m => Panic m
      end
  end.

Definition parseNullTime (v : string) : outcome (sqlNull Time) :=
  tryLayouts (fun layout => ParseInLocation layout v Local) timeLayouts
    (Ok (mkSqlNull zeroTime false)).

Definition parseNullTimeWithLocation (v : string) : outcome (sqlNull Time) :=
  let idx := LastIndex v " " in
  if idx =? -1 then
    Err (Errorf fmtTimeZone [opString v; opString "string"])
  else
    let stamp := String.substring 0 (Z.to_nat idx) v in
    let location :=
      String.substring (Z.to_nat (idx + 1)) (String.length v - Z.to_nat (idx + 1)) v in
    if HasPrefix location "+" || HasPrefix location "-" then
      tryLayouts (fun layout => timeParse layout v) timeLayoutsTZ
        (Ok (mkSqlNull zeroTime false))
    else
      match LoadLocation location with
      | Err err =>
          Err (Errorf "cannot load timezone %q: %v" [opString location; opError err])
      | Panic m => Panic m
      | Ok loc =>
          tryLayouts (fun layout => ParseInLocation layout stamp loc) timeLayouts
            (Ok (mkSqlNull zeroTime false))
      end.

(** [scanNullTime].  Indexing the last part of the split at [0] panics
    when that part is empty. *)
Definition scanNullTime (v : jsonValue) : outcome (sqlNull Time) :=
  match v with
  | JNull => Ok (mkSqlNull zeroTime false)
  | JString vv =>
      let vparts := Split vv " " in
      let* named :=
        if len vparts >? 1 then
          match lastPart vparts with
          | EmptyString => Panic "index out of range [0] with length 0"
          | String c _ => Ok (negb (IsDigit c))
          end
        else Ok false in
      if named then parseNullTimeWithLocation vv
      else if ContainsRune vv "+" then
        parseNullTimeWithLocation (ReplaceFirst vv "+" " +")
      else
        let hyphenCount := Count vv "-" in
        if (hyphenCount =? 1) || (hyphenCount >? 2) then
          let i := LastIndex vv "-" in
          let timestamp :=
            String.substring 0 (Z.to_nat i) vv
            +:+ ReplaceFirst (String.substring (Z.to_nat i) (String.length vv - Z.to_nat i) vv)
                  "-" " -" in
          parseNullTimeWithLocation timestamp
        else parseNullTime vv
  | _ => Err (cannotConvert v "time string")
  end.

(** What [ConvertValue] returns for a value handed over as it is: a nil
    value is the nil interface. *)
Definition rawValue (v : jsonValue) : convertedValue Time :=
  match v with
  | JNull => cvNil
  | _ => cvRaw v
  end.

(** [typeConverter.ConvertValue]; [parsedType] is never empty for a
    converter that [newTypeConverter] made. *)
Definition ConvertValue (c : typeConverter) (v : jsonValue) : outcome (convertedValue Time) :=
  match parsedType c with
  | [] => Panic "index out of range [0] with length 0"
  | t0 :: _ =>
      if oneOf t0 ["boolean"] then
        let* vv := scanNullBool v in
        if negb (Valid vv) then Ok cvNil else Ok (cvBool (nullValue vv))
      else if oneOf t0 convertedStringTypes then
        let* vv := scanNullString v in
        if negb (Valid vv) then Ok cvNil else Ok (cvString (nullValue vv))
      else if oneOf t0 ["varbinary"] then
        let* b := scanNullBytes v in Ok (cvBytes b)
      else if oneOf t0 integerTypes then
        let* vv := scanNullInt64 v in
        if negb (Valid vv) then Ok cvNil else Ok (cvInt64 (nullValue vv))
      else if oneOf t0 floatTypes then
        let* vv := scanNullFloat64 v in
        if negb (Valid vv) then Ok cvNil else Ok (cvFloat64 (nullValue vv))
      else if oneOf t0 temporalTypes then
        let* vv := scanNullTime v in
        if negb (Valid vv) then Ok cvNil else Ok (cvTime (nullValue vv))
      else if oneOf t0 ["map"] then
        match validateMap v with
        | Some err => Err err
        | None => Ok (rawValue v)
        end
      else if oneOf t0 ["array"] then
        match validateSlice v with
        | Some err => Err err
        | None => Ok (rawValue v)
        end
      else if oneOf t0 ["row"] then
        match validateSlice v with
        | Some err => Err err
        | None => Ok (rawValue v)
        end
      else Err (Errorf fmtTypeNotSupported [opString (typeName c)])
  end.

(** [NullSliceBool.Scan], [NullSlice2Bool.Scan] and [NullSlice3Bool.Scan]:
    the receiver as the call leaves it; on an error it is not written. *)
Definition NullSliceBool_Scan (value : jsonValue) : outcome (nullSlice (sqlNull bool)) :=
  match value with
  | JNull => Ok (mkNullSlice [] false)
  | JArray vs =>
      let* slice := scanEach scanNullBool vs in
      Ok (mkNullSlice slice true)
  | _ =>
      Err (Errorf "trino: cannot convert %v (%T) to []bool"
             [opString (fmtV value); opString (fmtT value)])
  end.

Definition NullSlice2Bool_Scan (value : jsonValue)
  : outcome (nullSlice (list (sqlNull bool))) :=
  match value with
  | JNull => Ok (mkNullSlice [] false)
  | JArray vs =>
      let* slice :=
        scanEach (fun v => let* ss := NullSliceBool_Scan v in Ok (Slice ss)) vs in
      Ok (mkNullSlice slice true)
  | _ =>
      Err (Errorf "trino: cannot convert %v (%T) to [][]bool"
             [opString (fmtV value); opString (fmtT value)])
  end.

Definition NullSlice3Bool_Scan (value : jsonValue)
  : outcome (nullSlice (list (list (sqlNull bool)))) :=
  match value with
  | JNull => Ok (mkNullSlice [] false)
  | JArray vs =>
      let* slice :=
        scanEach (fun v => let* ss := NullSlice2Bool_Scan v in Ok (Slice ss)) vs in
      Ok (mkNullSlice slice true)
  | _ =>
      Err (Errorf "trino: cannot convert %v (%T) to [][][]bool"
             [opString (fmtV value); opString (fmtT value)])
  end.

End Convert.


(** Stand-ins for the libraries. *)
Definition fmtStub (v : jsonValue) : string := "?".
Definition int64Stub (literal : string) : outcome Z := Atoi literal.
Definition floatStub (literal : string) : outcome float := Ok 0%float.
Definition base64Stub (s : string) : outcome (list byte) := Ok [].
Definition parseStub (layout v : string) : outcome Z := Err (errorsNew "parsing time").
Definition parseInStub (layout v : string) (loc : string) : outcome Z :=
  Err (errorsNew "parsing time").
Definition loadStub (name : string) : outcome string := Ok name.


Definition timestamp_3 : typeSignature := mkTypeSignature "timestamp" [longArgument 3].
Definition timestampConverter : typeConverter :=
  mkTypeConverter "timestamp(3)" ["timestamp"] tNullTime (newOptionalInt64 3) noInt64 noInt64.

(** [ConvertValue] and [scanNullTime] with the stand-ins for the libraries. *)
Definition convertWith (c : typeConverter) (v : jsonValue) : outcome (convertedValue Z) :=
  ConvertValue fmtStub fmtStub int64Stub floatStub floatStub base64Stub Z 0
    string "Local" loadStub parseStub parseInStub c v.
Definition scanTimeWith (v : jsonValue) : outcome (sqlNull Z) :=
  scanNullTime fmtStub fmtStub Z 0 string "Local" loadStub parseStub parseInStub v.

(** ** Spooled segments: their metadata, queueing and dispatch *)

(** [map[string]interface{}] as its entries; the keys of a Go map are
    distinct, and indexing finds the entry of a key. *)
Definition jsonMap : Type := list (string * jsonValue).

Fixpoint mapIndex (m : jsonMap) (key : string) : option jsonValue :=
  match m with
  | [] => None
  | (k, v) :: rest => if String.eqb k key then Some v else mapIndex rest key
  end.

Definition fmtMissingField : string := "%s is missing in segment metadata".
Definition fmtInvalidField : string :=
  "invalid type for %s in segment metadata, expected json.Number, got %T".
Definition fmtBadNumber : string := "error converting %s to int64: %v".
Definition fmtMetadataMissing : string := "metadata is missing in segment at index %d".
Definition fmtMetadataInvalid : string :=
  "metadata is invalid or cannot be parsed as map[string]interface{} in segment at index %d".
Definition fmtInlineBase64 : string :=
  "error decoding base64 data in inline segment at index %d: %v".
Definition fmtSegmentInvalid : string :=
  "segment at index %d is invalid: expected map[string]interface{}, got %T".

Record segmentToDecode : Type := mkSegmentToDecode {
  td_segmentIndex : Z;
  td_encoding : string;
  td_data : list byte;
  td_metadata : segmentMetadata
}.

Record spooledMetadata : Type := mkSpooledMetadata {
  uri : string;
  ackUri : string;
  sm_encoding : string;
  sm_headers : jsonMap;
  sm_metadata : segmentMetadata
}.

(** The zero values that the parsers return beside an error. *)
Definition zeroSegmentMetadata : segmentMetadata := mkSegmentMetadata 0 0 0 0.
Definition zeroSpooledMetadata : spooledMetadata :=
  mkSpooledMetadata "" "" "" [] zeroSegmentMetadata.

(** An element of the channel [segmentsToProccess], with its segment as
    the JSON object it is. *)
Record queuedSegment : Type := mkQueuedSegment {
  qs_segmentIndex : Z;
  qs_encoding : string;
  qs_segment : jsonMap
}.

(** What the dispatcher hands on. *)
Inductive forwardedSegment : Type :=
| toDecoders (segment : segmentToDecode)
| toDownloaders (metadata : spooledMetadata).

(** One turn of the dispatcher after it pushed its token, run to its end:
    the errors it sent on [st.errors] (a send on that unbuffered channel
    waits until [Next], [fetch] or the drain of [driverStmt.Close] takes
    the error), what it handed on, and the panic that ended it. *)
Record dispatched : Type := mkDispatched {
  dispatchErrors : list error;
  dispatchForwarded : option forwardedSegment;
  dispatchPanic : option string
}.

Definition parseSpooledMetadata (segment : jsonMap) (segmentIndex : Z)
    (metadata : segmentMetadata) (encoding : string) : outcome spooledMetadata :=
  match mapIndex segment "uri" with
  | Some (JString (String c u)) =>
      match mapIndex segment "ackUri" with
      | Some (JString (String c' a)) =>
          match mapIndex segment "headers" with
          | None =>
              Ok (mkSpooledMetadata (String c u) (String c' a) encoding [] metadata)
          | Some (JObject headers) =>
              Ok (mkSpooledMetadata (String c u) (String c' a) encoding headers metadata)
          | Some _ =>
              Err (Errorf
                     "invalid 'headers' field in spooled segment at index %d: expected map[string]interface{}"
                     [opInt segmentIndex])
          end
      | _ =>
          Err (Errorf "missing or invalid 'ackUri' field in spooled segment at index %d"
                 [opInt segmentIndex])
      end
  | _ =>
      Err (Errorf "missing or invalid 'uri' field in spooled segment at index %d"
             [opInt segmentIndex])
  end.

Section SpooledSegments.

(** Outside the package: [fmt]'s rendering of a value's type with [%T],
    [json.Number.Int64], and [base64.StdEncoding.DecodeString], which
    yields the bytes decoded so far beside its error. *)
Variable fmtT : jsonValue -> string.
Variable numberInt64 : string -> outcome Z.
Variable DecodeString : string -> list byte * option error.

Definition parseInt64 (val : jsonValue) (key : string) : outcome Z :=
  match val with
  | JNumber num =>
      match numberInt64 num with
      | Ok n => Ok n
      | Err err => Err (Errorf fmtBadNumber [opString key; opError err])
      | Panic m => Panic m
      end
  | _ => Err (Errorf fmtInvalidField [opString key; opString (fmtT val)])
  end.

Definition getInt64 (metadata : jsonMap) (key : string) : outcome Z :=
  match mapIndex metadata key with
  | None => Err (Errorf fmtMissingField [opString key])
  | Some val => parseInt64 val key
  end.

Definition getOptionalInt64 (metadata : jsonMap) (key : string) : outcome Z :=
  match mapIndex metadata key with
  | None => Ok 0
  | Some val => parseInt64 val key
  end.

Definition parseSegmentMetadata (metadata : jsonMap) : outcome segmentMetadata :=
  let* rowOffset := getInt64 metadata "rowOffset" in
  let* segmentSize := getInt64 metadata "segmentSize" in
  let* uncompressedSize := getOptionalInt64 metadata "uncompressedSize" in
  let* rowsCount := getOptionalInt64 metadata "rowsCount" in
  Ok (mkSegmentMetadata rowOffset rowsCount segmentSize uncompressedSize).

(** The body of the dispatcher's loop for a received segment, from the
    line after the token is pushed.  An error is sent and the turn goes on;
    the parsers' zero values stand in for what failed to parse.  The index
    handed on is the constant zero. *)
Definition dispatchSegment (queued : queuedSegment) : dispatched :=
  let segment := qs_segment queued in
  let segmentMetadata := mapIndex segment "metadata" in
  let errors :=
    match segmentMetadata with
    | None => [Errorf fmtMetadataMissing [opInt (qs_segmentIndex queued)]]
    | Some _ => []
    end in
  let '(typedMetadata, errors) :=
    match segmentMetadata with
    | Some (JObject typed) => (typed, errors)
    | _ => ([], errors ++ [Errorf fmtMetadataInvalid [opInt (qs_segmentIndex queued)]])
    end in
  match parseSegmentMetadata typedMetadata with
  | Panic m => mkDispatched errors None (Some m)
  | parsed =>
      let '(metadata, errors) :=
        match parsed with
        | Ok metadata => (metadata, errors)
        | Err err => (zeroSegmentMetadata, errors ++ [err])
        | Panic _ => (zeroSegmentMetadata, errors)
        end in
      match mapIndex segment "type" with
      | Some (JString type) =>
          if String.eqb type "inline" then
            match mapIndex segment "data" with
            | Some (JString data) =>
                let '(decodedBytes, err) := DecodeString data in
                let errors :=
                  match err with
                  | Some err =>
                      errors ++ [Errorf fmtInlineBase64
                                   [opInt (qs_segmentIndex queued); opError err]]
                  | None => errors
                  end in
                mkDispatched errors
                  (Some (toDecoders
                           (mkSegmentToDecode 0 (qs_encoding queued) decodedBytes metadata)))
                  None
            | _ =>
                mkDispatched errors None
                  (Some "interface conversion: interface {} is not string")
            end
          else if String.eqb type "spooled" then
            match parseSpooledMetadata segment 0 metadata (qs_encoding queued) with
            | Ok spooled => mkDispatched errors (Some (toDownloaders spooled)) None
            | Err err =>
                mkDispatched (errors ++ [err]) (Some (toDownloaders zeroSpooledMetadata)) None
            | Panic m => mkDispatched errors None (Some m)
            end
          else mkDispatched errors None None
      | _ => mkDispatched errors None None
      end
  end.

(** The loop of [queueSpoolingSegments].  Inside its [if !ok] the name
    [segment] is the freshly declared map, so [%T] renders the map type
    whatever the element was. *)
Fixpoint queueSegments (encoding : string) (segmentIndex : Z) (segments : list jsonValue)
  : list queuedSegment * option error :=
  match segments with
  | [] => ([], None)
  | JObject segment :: rest =>
      let '(queued, err) := queueSegments encoding (segmentIndex + 1) rest in
      (mkQueuedSegment segmentIndex encoding segment :: queued, err)
  | _ :: _ =>
      ([], Some (Errorf fmtSegmentInvalid
                   [opInt segmentIndex; opString "map[string]interface {}"]))
  end.

(** [queueSpoolingSegments]: the segments it sent on [segmentsToProccess],
    in order, and the error it returned. *)
Definition queueSpoolingSegments (data : jsonMap) : list queuedSegment * option error :=
  match mapIndex data "encoding" with
  | Some (JString encoding) =>
      match mapIndex data "segments" with
      | Some (JArray segments) => queueSegments encoding 0 segments
      | _ =>
          ([], Some (Errorf
                       "invalid or missing 'segments' field on spooling protocol, expected []interface{}"
                       []))
      end
  | _ =>
      ([], Some (Errorf
                   "invalid or missing 'encoding' field on spooling protocol, expected string"
                   []))
  end.

End SpooledSegments.

(** The segments of a list that are JSON objects, up to the first element
    that is not one. *)
Fixpoint leadingObjects (segments : list jsonValue) : list jsonMap :=
  match segments with
  | JObject segment :: rest => segment :: leadingObjects rest
  | _ => []
  end.

Definition isObject (v : jsonValue) : bool :=
  match v with
  | JObject _ => true
  | _ => false
  end.

(** The kind of a queued segment, by its [type] field. *)
Definition segmentKindOf (segment : jsonMap) : segmentKind :=
  match mapIndex segment "type" with
  | Some (JString type) =>
      if String.eqb type "inline" then inlineSegment
      else if String.eqb type "spooled" then spooledSegment
      else otherSegment
  | _ => otherSegment
  end.

Definition typeStub (v : jsonValue) : string := "?".
Definition decodeStub (s : string) : list byte * option error := ([x00; x01; x02], None).
Definition inlineWithoutMetadata : queuedSegment :=
  mkQueuedSegment 4 "json" [("type", JString "inline"); ("data", JString "AAEC")].
Definition spoolingData : jsonMap :=
  [("encoding", JString "json+zstd");
   ("segments", JArray [JObject [("type", JString "inline")]; JString "oops"; JObject []])].
Definition metadataWithoutSizes : jsonMap :=
  [("rowOffset", JNumber "10"); ("segmentSize", JNumber "3")].

(** ** Map-valued DSN parameters: [decodeMapHeader] *)

Definition mapKeySeparator : ascii := ":"%char.
Definition mapEntrySeparator : ascii := ";"%char.

(** [strings.SplitN(s, sep, 2)] for a separator of one byte: the text cut
    at the first separator, or the text alone when it holds none. *)
Fixpoint SplitN2 (s : string) (sep : ascii) : list string :=
  match s with
  | EmptyString => [EmptyString]
  | String c rest =>
      if Ascii.eqb c sep then [EmptyString; rest]
      else
        match SplitN2 rest sep with
        | part :: parts => String c part :: parts
        | [] => [String c EmptyString]
        end
  end.

(** [isASCII]: every byte is printable ASCII and no space. *)
Fixpoint isASCII (s : string) : bool :=
  match s with
  | EmptyString => true
  | String c rest =>
      let b := Z.of_nat (nat_of_ascii c) in
      if (b <? 33) || (b >? 126) then false else isASCII rest
  end.

Definition fmtMalformed : string := "trino: Malformed %s: %s".
Definition fmtKeyEmpty : string := "trino: %s key is empty".
Definition fmtValueEmpty : string := "trino: %s value is empty".
Definition fmtKeyNotASCII : string :=
  "trino: %s key '%s' contains spaces or is not printable ASCII".
Definition fmtValueNotASCII : string :=
  "trino: %s value for key '%s' contains spaces or is not printable ASCII".

Section MapHeader.

Variable QueryEscape : string -> string.

(** The loop of [decodeMapHeader] over the entries still to read. *)
Fixpoint decodeEntries (name input : string) (entries : list string) (result : list string)
  : outcome (list string) :=
  match entries with
  | [] => Ok result
  | entry :: entries' =>
      match SplitN2 entry mapKeySeparator with
      | [key; value] =>
          if Z.of_nat (String.length key) =? 0 then Err (Errorf fmtKeyEmpty [opString name])
          else if Z.of_nat (String.length value) =? 0 then Err (Errorf fmtValueEmpty [opString name])
          else if negb (isASCII key) then
            Err (Errorf fmtKeyNotASCII [opString name; opString key])
          else if negb (isASCII value) then
            Err (Errorf fmtValueNotASCII [opString name; opString key])
          else
            decodeEntries name input entries' (result ++ [key +:+ "=" +:+ QueryEscape value])
      | _ => Err (Errorf fmtMalformed [opString name; opString input])
      end
  end.

Definition decodeMapHeader (name input : string) : outcome (list string) :=
  decodeEntries name input (Split input mapEntrySeparator) [].

End MapHeader.

(** A key and a value that [decodeMapHeader] accepts, as [FormatDSN] would
    have to be given them: neither is empty, both are printable ASCII
    without spaces, the key holds no colon and neither holds a semicolon. *)
Definition acceptedEntry (kv : string * string) : bool :=
  negb (String.eqb (fst kv) "") && negb (String.eqb (snd kv) "")
  && isASCII (fst kv) && isASCII (snd kv)
  && negb (ContainsRune (fst kv) mapKeySeparator)
  && negb (ContainsRune (fst kv) mapEntrySeparator)
  && negb (ContainsRune (snd kv) mapEntrySeparator).

(** An entry as [FormatDSN] writes it, and as the header carries it. *)
Definition writtenEntry (kv : string * string) : string :=
  fst kv +:+ String mapKeySeparator (snd kv).

Definition sessionProperties : list (string * string) :=
  [("query_max_run_time", "1h"); ("join_distribution_type", "AUTO")].

(** The pipeline once the segment at offset 0 is admitted and in flight. *)
Definition oneInFlight : pipeline :=
  Eval vm_compute in
    match runPipeline sortByRowOffset 2 [enqueue (queued 0 spooledSegment 0); dispatch]
            startPipeline with
    | Some p => p
    | None => startPipeline
    end.

(** The rows sent on [spoolingRowsChannel] so far, and the rows of the
    batch the streamer has just sent and whose token it has not yet
    taken. *)
Definition rowsSent (p : pipeline) : Z := len (concat (spoolingRowsChannel p)).

Definition pendingRows (p : pipeline) : Z :=
  match phase p with
  | releasing segment => len (ds_queryData segment)
  | _ => 0
  end.

(** The first ten moves of the schedule above: the segments at the offsets
    1 and 0 were received in that order, the rows of the one at offset 0
    were sent, and the one at offset 1 is next. *)
Definition scheduleMidway : list move :=
  [enqueue (queued 0 spooledSegment 0); enqueue (queued 1 inlineSegment 1);
   enqueue (queued 2 spooledSegment 2);
   dispatch; dispatch; deliver 1; deliver 0;
   emit; release; dispatch].

Definition midway : pipeline :=
  Eval vm_compute in
    match runPipeline sortByRowOffset 2 scheduleMidway startPipeline with
    | Some p => p
    | None => startPipeline
    end.

(** ** Building requests: [Conn.newRequest] *)

(** [for k, v := range h { req.Header[k] = v }]: each key of [h] takes its
    values in the request, whatever it held there. *)
Definition assignAll (h req : Header) : Header :=
  map_fold (fun k v acc => <[k := v]> acc) req h.

Section NewRequest.

(** Outside the package: the credentials as [SetBasicAuth] encodes them,
    and [spnego.SetSPNEGOHeader] on the headers of the fresh request. *)
Variable basicAuth : string -> string -> string.
Variable SetSPNEGOHeader : Header -> outcome Header.

(** [Conn.newRequest], as the headers of the request it returns.
    [newRequestError] is the error of [http.NewRequestWithContext];
    [kerberosEnabled], [auth] (user name and password) and [httpHeaders]
    are the connection's fields. *)
Definition newRequest (newRequestError : option error) (kerberosEnabled : bool)
    (auth : option (string * string)) (httpHeaders hs : Header) : outcome Header :=
  match newRequestError with
  | Some err => Err (Errorf "trino: %w" [opError err])
  | None =>
      let* req :=
        if kerberosEnabled then
          match SetSPNEGOHeader ∅ with
          | Ok req => Ok req
          | Err err => Err (Errorf "error setting client SPNEGO header: %w" [opError err])
          | Panic m => Panic m
          end
        else Ok ∅ in
      let req := assignAll httpHeaders req in
      let req := assignAll hs req in
      match auth with
      | Some (username, pass) =>
          Ok (Header_Set req authorizationHeader ("Basic " +:+ basicAuth username pass))
      | None => Ok req
      end
  end.

End NewRequest.

Definition basicStub (username pass : string) : string := username +:+ ":" +:+ pass.
Definition spnegoStub (h : Header) : outcome Header :=
  Ok (Header_Set h authorizationHeader "Negotiate token").
Definition bearerHeaders : Header := Header_Add ∅ authorizationHeader "Bearer secret".

(** ** Reading rows: [driverRows.Next] and [next] *)

(** The fields of [driverRows] that [Next] and [next] read or write. *)
Record rowsCursor : Type := mkRowsCursor {
  cursorErr : option rowsError;
  rowindex : Z;
  data : list queryData;
  coltype : list typeConverter
}.

(** What a call returns as its [error], or the panic that ended it. *)
Inductive callResult : Type :=
| callNil
| callError (e : rowsError)
| callPanic (msg : string).

(** What the [select] in [Next] receives from [spoolingRowsChannel]: a
    batch of rows, or the news that the channel is closed. *)
Inductive rowsEvent : Type :=
| rowsReceived (batch : list queryData)
| rowsClosed.

Section ReadingRows.

Variable fmtV : jsonValue -> string.
Variable fmtT : jsonValue -> string.
Variable numberInt64 : string -> outcome Z.
Variable numberFloat64 : string -> outcome float.
Variable ParseFloat : string -> outcome float.
Variable DecodeString : string -> outcome (list byte).
Variable Time : Type.
Variable zeroTime : Time.
Variable Location : Type.
Variable Local : Location.
Variable LoadLocation : string -> outcome Location.
Variable timeParse : string -> string -> outcome Time.
Variable ParseInLocation : string -> string -> Location -> outcome Time.

(** The loop of [next] from column [i] on: [coltype], the row and [dest]
    are walked together, each from its index [i].  The loop ends at the end
    of [coltype] or of [dest]; reading the row past its end panics. *)
Fixpoint nextColumns (coltype : list typeConverter) (row : list jsonValue)
    (dest : list (convertedValue Time)) : list (convertedValue Time) * outcome unit :=
  match coltype, dest with
  | [], _ => (dest, Ok tt)
  | _ :: _, [] => ([], Ok tt)
  | c :: coltype', d :: dest' =>
      match row with
      | [] => (dest, Panic "index out of range")
      | v :: row' =>
          match ConvertValue fmtV fmtT numberInt64 numberFloat64 ParseFloat DecodeString
                  Time zeroTime Location Local LoadLocation timeParse ParseInLocation c v with
          | Ok vv =>
              let '(rest, out) := nextColumns coltype' row' dest' in (vv :: rest, out)
          | Err e => (dest, Err e)
          | Panic m => (dest, Panic m)
          end
      end
  end.

(** [driverRows.next].  With an empty [dest] the loop breaks before it
    reads [qr.data]. *)
Definition next (qr : rowsCursor) (dest : list (convertedValue Time))
  : rowsCursor * list (convertedValue Time) * callResult :=
  match coltype qr with
  | [] =>
      (mkRowsCursor (Some sqlErrNoRows) (rowindex qr) (data qr) (coltype qr), dest,
       callError sqlErrNoRows)
  | _ :: _ =>
      let advanced := mkRowsCursor (cursorErr qr) (rowindex qr + 1) (data qr) (coltype qr) in
      match dest with
      | [] => (advanced, dest, callNil)
      | _ :: _ =>
          if (rowindex qr <? 0) || (len (data qr) <=? rowindex qr) then
            (qr, dest, callPanic "index out of range")
          else
            match nth_error (data qr) (Z.to_nat (rowindex qr)) with
            | None => (qr, dest, callPanic "index out of range")
            | Some row =>
                match nextColumns (coltype qr) row dest with
                | (dest', Ok _) => (advanced, dest', callNil)
                | (dest', Err e) =>
                    (mkRowsCursor (Some (rowsFailed e)) (rowindex qr) (data qr) (coltype qr),
                     dest', callError (rowsFailed e))
                | (dest', Panic m) => (qr, dest', callPanic m)
                end
            end
      end
  end.

(** [driverRows.Next] under the spooling protocol, for a turn in which no
    error arrives on [st.errors]: [event] is what [spoolingRowsChannel]
    delivers if the call gets to its [select]. *)
Definition Next (event : rowsEvent) (qr : rowsCursor) (dest : list (convertedValue Time))
  : rowsCursor * list (convertedValue Time) * callResult :=
  match cursorErr qr with
  | Some err => (qr, dest, callError err)
  | None =>
      if len (data qr) <=? rowindex qr then
        match event with
        | rowsClosed =>
            (mkRowsCursor (Some ioEOF) (rowindex qr) [] (coltype qr), dest,
             callError ioEOF)
        | rowsReceived batch => next (mkRowsCursor None 0 batch (coltype qr)) dest
        end
      else next qr dest
  end.

End ReadingRows.

Definition bigintConverter : typeConverter :=
  mkTypeConverter "bigint" ["bigint"] tNullInt64 noInt64 noInt64 noInt64.

(** ** Downloading a segment: [SegmentFetcher.fetchSegment] *)

Definition fmtFetchFailed : string := "error fetching segment from uri '%s': %v".
Definition fmtBodyFailed : string := "error reading response body: %v".

(** A run of [fetchSegment]: what it returned ([None] while its round trip
    waits), the headers of the request it sent, if it got to send one, and
    whether it started the acknowledgement. *)
Record fetchRun : Type := mkFetchRun {
  fetchReturned : option (outcome (list byte));
  fetchRequest : option Header;
  acknowledged : bool
}.

Section FetchSegment.

Variable CanonicalMIMEHeaderKey : string -> string.
Variable fmtT : jsonValue -> string.

(** The loop over [sf.spooledMetadata.headers], in the order the map's
    [range] happens to visit them. *)
Fixpoint segmentHeaders (headers : jsonMap) (req : Header) : outcome Header :=
  match headers with
  | [] => Ok req
  | (k, v) :: rest =>
      match v with
      | JArray [] => segmentHeaders rest req
      | JArray [JString header] =>
          segmentHeaders rest (Header_Add req (CanonicalMIMEHeaderKey k) header)
      | JArray [other] =>
          Err (Errorf "unsupported header value type %T" [opString (fmtT other)])
      | JArray (_ :: _ :: _) => Err (Errorf "multiple values for header %s" [opString k])
      | _ => Err (Errorf "unsupported header type %T" [opString (fmtT v)])
      end
  end.

(** [fetchSegment].  [newRequestError] is the error of
    [http.NewRequestWithContext]; [results] is what the requests of the
    round trip meet. *)
Definition fetchSegment (newRequestError : option error) (spooled : spooledMetadata)
    (results : list fetchResult) : fetchRun :=
  match newRequestError with
  | Some err => mkFetchRun (Some (Err err)) None false
  | None =>
      match segmentHeaders (sm_headers spooled) ∅ with
      | Err err => mkFetchRun (Some (Err err)) None false
      | Panic m => mkFetchRun (Some (Panic m)) None false
      | Ok req =>
          match fetched (SegmentFetcher_roundTrip results) with
          | None => mkFetchRun None (Some req) false
          | Some (Panic m) => mkFetchRun (Some (Panic m)) (Some req) false
          | Some (Err err) =>
              mkFetchRun
                (Some (Err (Errorf fmtFetchFailed [opString (uri spooled); opError err])))
                (Some req) false
          | Some (Ok resp) =>
              match BodyReadError resp with
              | Some err =>
                  mkFetchRun (Some (Err (Errorf fmtBodyFailed [opError err]))) (Some req)
                    false
              | None =>
                  mkFetchRun (Some (Ok (list_byte_of_string (Body resp)))) (Some req) true
              end
          end
      end
  end.

End FetchSegment.

(** A header map whose values are all lists of at most one string. *)
Fixpoint plainHeaders (headers : jsonMap) : bool :=
  match headers with
  | [] => true
  | (_, JArray []) :: rest => plainHeaders rest
  | (_, JArray [JString _]) :: rest => plainHeaders rest
  | _ => false
  end.

Definition spooledExample : spooledMetadata :=
  mkSpooledMetadata "https://storage/segment/1" "https://storage/ack/1" "json+zstd"
    [("x-amz-server-side-encryption", JArray [JString "AES256"]); ("x-empty", JArray [])]
    (mkSegmentMetadata 0 1 3 0).

Definition isTimeZoneError (e : error) : bool :=
  match e with
  | Errorf format _ => String.eqb format fmtTimeZone
  | _ => false
  end.

(** A decoded segment without rows, as the decoding of an empty JSON array
    gives it. *)
Definition emptySegment (offset : Z) : decodedSegment := mkDecodedSegment offset [].

(* ===================================================================== *)
(** * Part II: properties *)
(* ===================================================================== *)

(** ** Server error mapping *)

(** C8.  [handleResponseError] maps an empty [errorName] to no error, the
    name [USER_CANCELLED] to the dedicated cancelled-query error, and any
    other name to a query-failed error that carries the HTTP status and the
    server's structured error unchanged (so its [errorType], [errorName] and
    [errorCode] are the server's). *)
Theorem handleResponseError_mapping (status : Z) (respErr : ErrTrino) :
  (ErrorName respErr = "" -> handleResponseError status respErr = None) /\
  (ErrorName respErr = "USER_CANCELLED" ->
     handleResponseError status respErr = Some ErrQueryCancelled) /\
  (ErrorName respErr <> "" -> ErrorName respErr <> "USER_CANCELLED" ->
     handleResponseError status respErr
       = Some (ErrQueryFailed status (ErrTrinoValue respErr))).
Proof.
  unfold handleResponseError. repeat split.
  - intros ->. reflexivity.
  - intros ->. reflexivity.
  - intros Hne Hnc.
    destruct (String.eqb_spec (ErrorName respErr) ""); [contradiction|].
    destruct (String.eqb_spec (ErrorName respErr) "USER_CANCELLED"); [contradiction|].
    reflexivity.
Qed.

Lemma handleResponseError_mapping_witness :
  handleResponseError 200 syntaxError
    = Some (ErrQueryFailed 200 (ErrTrinoValue syntaxError)).
Proof.
  apply (handleResponseError_mapping 200 syntaxError); discriminate.
Defined.

(** ** The converter factory *)

Lemma getNestedTypes_head :
  forall (signature : typeSignature) (types : list string),
    exists tail, getNestedTypes types signature = types ++ RawType signature :: tail.
Proof.
  fix IH 1.
  intros [rawType arguments] types. simpl.
  destruct arguments as [|[kind ts [fieldName nts] l] [|a1 rest]].
  - exists []. reflexivity.
  - destruct (String.eqb kind KIND_TYPE).
    + destruct (IH ts (types ++ [rawType])) as [tail ->].
      exists (RawType ts :: tail). rewrite <- app_assoc. reflexivity.
    + destruct (String.eqb kind KIND_NAMED_TYPE).
      * destruct (IH nts (types ++ [rawType])) as [tail ->].
        exists (RawType nts :: tail). rewrite <- app_assoc. reflexivity.
      * exists []. reflexivity.
  - exists []. reflexivity.
Qed.

Lemma parsedType_head (signature : typeSignature) :
  exists tail, getNestedTypes [] signature = RawType signature :: tail.
Proof. apply (getNestedTypes_head signature []). Qed.

Lemma oneOf_In (s : string) (cases : list string) :
  oneOf s cases = true <-> In s cases.
Proof.
  unfold oneOf. rewrite existsb_exists. split.
  - intros (x & Hx & Heq). apply String.eqb_eq in Heq. subst. exact Hx.
  - intros H. exists s. split; [exact H | apply String.eqb_refl].
Qed.

(** For the raw types with parameters, the scan type is found without
    error, whatever the arguments are. *)
Lemma getScanType_parameterised (raw : string) (tail : list string) :
  In raw (sizedRawTypes ++ ["decimal"] ++ precisionRawTypes) ->
  exists t, getScanType (raw :: tail) = Ok t.
Proof.
  intros H. simpl in H.
  repeat (destruct H as [<- | H]; [eexists; reflexivity|]).
  contradiction.
Qed.

Lemma longParameter_long (a : typeArgument) :
  Kind a = KIND_LONG -> longParameter a = Ok (newOptionalInt64 (long a)).
Proof. unfold longParameter. intros ->. reflexivity. Qed.

Lemma longParameter_other (a : typeArgument) :
  Kind a <> KIND_LONG -> longParameter a = Err ErrInvalidResponseType.
Proof.
  unfold longParameter. intros H.
  destruct (String.eqb_spec (Kind a) KIND_LONG); [contradiction | reflexivity].
Qed.

Ltac converter_setup typeName signature :=
  let tail := fresh "tail" in
  let Htail := fresh "Htail" in
  destruct (parsedType_head signature) as [tail Htail];
  unfold newTypeConverter; rewrite Htail;
  destruct signature as [raw args]; simpl RawType in *; simpl Arguments in *.

(** C9.  [newTypeConverter] takes the parameters from the leading
    arguments of the signature: for [char] and [varchar] the first argument
    becomes [size]; for [decimal] the first becomes [precision] and the
    second [scale]; for [time], [time with time zone], [timestamp] and
    [timestamp with time zone] the first becomes [precision].  Each such
    argument must be of kind [LONG]: when it is present with another kind
    the construction fails with [ErrInvalidResponseType]. *)
Theorem newTypeConverter_parameters (typeName : string) (signature : typeSignature) :
  (In (RawType signature) sizedRawTypes ->
   forall a0 rest, Arguments signature = a0 :: rest ->
     (Kind a0 = KIND_LONG ->
        exists c, newTypeConverter typeName signature = Ok c /\
          size c = newOptionalInt64 (long a0) /\
          precision c = noInt64 /\ scale c = noInt64) /\
     (Kind a0 <> KIND_LONG ->
        newTypeConverter typeName signature = Err ErrInvalidResponseType)) /\
  (RawType signature = "decimal" ->
   forall a0 rest, Arguments signature = a0 :: rest ->
     (Kind a0 <> KIND_LONG ->
        newTypeConverter typeName signature = Err ErrInvalidResponseType) /\
     (Kind a0 = KIND_LONG -> rest = [] ->
        exists c, newTypeConverter typeName signature = Ok c /\
          precision c = newOptionalInt64 (long a0) /\
          scale c = noInt64 /\ size c = noInt64) /\
     (forall a1 rest', Kind a0 = KIND_LONG -> rest = a1 :: rest' ->
        (Kind a1 = KIND_LONG ->
           exists c, newTypeConverter typeName signature = Ok c /\
             precision c = newOptionalInt64 (long a0) /\
             scale c = newOptionalInt64 (long a1) /\ size c = noInt64) /\
        (Kind a1 <> KIND_LONG ->
           newTypeConverter typeName signature = Err ErrInvalidResponseType))) /\
  (In (RawType signature) precisionRawTypes ->
   forall a0 rest, Arguments signature = a0 :: rest ->
     (Kind a0 = KIND_LONG ->
        exists c, newTypeConverter typeName signature = Ok c /\
          precision c = newOptionalInt64 (long a0) /\
          scale c = noInt64 /\ size c = noInt64) /\
     (Kind a0 <> KIND_LONG ->
        newTypeConverter typeName signature = Err ErrInvalidResponseType)).
Proof.
  split; [|split].
  - intros Hraw a0 rest Hargs. converter_setup typeName signature. subst args.
    assert (Hscan : exists t, getScanType (raw :: tail) = Ok t)
      by (apply getScanType_parameterised; apply in_or_app; left; exact Hraw).
    destruct Hscan as [t ->].
    apply oneOf_In in Hraw. unfold sizedRawTypes in Hraw.
    cbn [bindOutcome]. rewrite Hraw. split.
    + intros Hk. rewrite (longParameter_long a0 Hk). simpl. eauto.
    + intros Hk. rewrite (longParameter_other a0 Hk). reflexivity.
  - intros Hraw a0 rest Hargs. converter_setup typeName signature. subst args raw.
    simpl. split; [|split].
    + intros Hk. destruct rest; rewrite (longParameter_other a0 Hk); reflexivity.
    + intros Hk ->. rewrite (longParameter_long a0 Hk). simpl. eauto.
    + intros a1 rest' Hk ->. rewrite (longParameter_long a0 Hk). simpl. split.
      * intros Hk1. rewrite (longParameter_long a1 Hk1). simpl. eauto.
      * intros Hk1. rewrite (longParameter_other a1 Hk1). reflexivity.
  - intros Hraw a0 rest Hargs. converter_setup typeName signature. subst args.
    assert (Hscan : exists t, getScanType (raw :: tail) = Ok t)
      by (apply getScanType_parameterised; apply in_or_app; right;
          apply in_or_app; right; exact Hraw).
    destruct Hscan as [t ->].
    assert (Hnot1 : oneOf raw ["char"; "varchar"] = false)
      by (simpl in Hraw; repeat (destruct Hraw as [<- | Hraw]; [reflexivity|]); contradiction).
    assert (Hnot2 : oneOf raw ["decimal"] = false)
      by (simpl in Hraw; repeat (destruct Hraw as [<- | Hraw]; [reflexivity|]); contradiction).
    apply oneOf_In in Hraw. unfold precisionRawTypes in Hraw.
    cbn [bindOutcome]. rewrite Hnot1, Hnot2, Hraw. split.
    + intros Hk. rewrite (longParameter_long a0 Hk). simpl. eauto.
    + intros Hk. rewrite (longParameter_other a0 Hk). reflexivity.
Qed.

Lemma newTypeConverter_parameters_witness :
  (exists c, newTypeConverter "decimal(10,2)" decimal_10_2 = Ok c /\
     precision c = newOptionalInt64 10 /\
     scale c = newOptionalInt64 2 /\ size c = noInt64) /\
  newTypeConverter "varchar" varchar_of_type = Err ErrInvalidResponseType.
Proof.
  split.
  - destruct (newTypeConverter_parameters "decimal(10,2)" decimal_10_2) as (_ & H & _).
    destruct (H eq_refl _ _ eq_refl) as (_ & _ & H3).
    destruct (H3 _ _ eq_refl eq_refl) as [H4 _].
    exact (H4 eq_refl).
  - destruct (newTypeConverter_parameters "varchar" varchar_of_type) as (H & _).
    assert (Hin : In (RawType varchar_of_type) sizedRawTypes) by (simpl; auto).
    destruct (H Hin _ _ eq_refl) as [_ H2].
    apply H2. discriminate.
Defined.

(** ** The segment codec *)

Section CodecProperties.

Variable zstdReadAll : list byte -> zstdRun.
Variable lz4UncompressBlock : list byte -> Z -> outcome (list byte).
Variable jsonDecodeRows : list byte -> outcome (list queryData).

Let decompressBranch' := decompressBranch zstdReadAll lz4UncompressBlock.
Let decompressSegment' := decompressSegment zstdReadAll lz4UncompressBlock.
Let decodeSegment' := decodeSegment zstdReadAll lz4UncompressBlock jsonDecodeRows.

Lemma decompressSegment_identity data encoding metadata :
  uncompressedSize metadata = 0 ->
  decompressSegment' data encoding metadata = Ok data.
Proof.
  intros H. unfold decompressSegment', decompressSegment. rewrite H. reflexivity.
Qed.

Lemma decompressSegment_branch data encoding metadata :
  uncompressedSize metadata <> 0 ->
  decompressSegment' data encoding metadata =
    match decompressBranch' data encoding metadata with
    | Ok d =>
        if len d =? uncompressedSize metadata then Ok d
        else Err (Errorf fmtDecompressedSizeMismatch
                    [opInt (uncompressedSize metadata); opInt (len d)])
    | Err e => Err e
    | Panic m => Panic m
    end.
Proof.
  intros H. unfold decompressSegment', decompressSegment, decompressBranch'.
  destruct (Z.eqb_spec (uncompressedSize metadata) 0); [contradiction|].
  destruct (decompressBranch _ _ _ _ _) as [d| |]; simpl; try reflexivity.
  destruct (len d =? uncompressedSize metadata); reflexivity.
Qed.

(** The errors of the decompressing cases are never size mismatches. *)
Lemma decompressBranch_no_mismatch data encoding metadata e :
  decompressBranch' data encoding metadata = Err e -> isSizeMismatch e = false.
Proof.
  unfold decompressBranch', decompressBranch.
  destruct (String.eqb encoding "json+zstd").
  - destruct (zstdReadAll data); intros [= <-]; reflexivity.
  - destruct (String.eqb encoding "json+lz4").
    + destruct (uncompressedSize metadata <? 0); [discriminate|].
      destruct (lz4UncompressBlock data _); intros [= <-]; reflexivity.
    + intros [= <-]. reflexivity.
Qed.

(** C7.  [decodeSegment] returns the segment-size mismatch error whenever
    the raw length differs from [segmentSize], before any decompression
    (the libraries are not consulted); it returns the decompressed-size
    mismatch error whenever [uncompressedSize > 0] and the decompressed
    bytes have another length; and when the raw length matches and the
    decompressed length matches (or [uncompressedSize] is zero) no error
    it returns is a size mismatch. *)
Theorem decodeSegment_size_checks data encoding metadata :
  (len data <> segmentSize metadata ->
     decodeSegment' data encoding metadata
       = Err (Errorf fmtSegmentSizeMismatch
                [opInt (segmentSize metadata); opInt (len data)])) /\
  (len data = segmentSize metadata -> uncompressedSize metadata > 0 ->
     forall d, decompressBranch' data encoding metadata = Ok d ->
       len d <> uncompressedSize metadata ->
       decodeSegment' data encoding metadata
         = Err (Errorf fmtDecompressedSizeMismatch
                  [opInt (uncompressedSize metadata); opInt (len d)])) /\
  (len data = segmentSize metadata ->
     (uncompressedSize metadata = 0 \/
      exists d, decompressBranch' data encoding metadata = Ok d /\
                len d = uncompressedSize metadata) ->
     forall e, decodeSegment' data encoding metadata = Err e ->
       isSizeMismatch e = false).
Proof.
  unfold decodeSegment', decodeSegment.
  fold (decompressSegment' data encoding metadata).
  split; [|split].
  - intros Hne. destruct (Z.eqb_spec (len data) (segmentSize metadata)); [contradiction|].
    reflexivity.
  - intros Heq Hpos d Hd Hlen. rewrite Heq, Z.eqb_refl. cbn [negb].
    rewrite decompressSegment_branch by lia. rewrite Hd.
    destruct (Z.eqb_spec (len d) (uncompressedSize metadata)); [contradiction|].
    reflexivity.
  - intros Heq Hmatch e. rewrite Heq, Z.eqb_refl. cbn [negb].
    assert (Hok : exists d, decompressSegment' data encoding metadata = Ok d).
    { destruct Hmatch as [H0 | (d & Hd & Hlen)].
      - exists data. apply decompressSegment_identity. exact H0.
      - destruct (Z.eq_dec (uncompressedSize metadata) 0) as [H0|Hn].
        + exists data. apply decompressSegment_identity. exact H0.
        + exists d. rewrite decompressSegment_branch by exact Hn.
          rewrite Hd, Hlen, Z.eqb_refl. reflexivity. }
    destruct Hok as [d ->]. cbn [bindOutcome].
    destruct (rowsCount metadata <? 0); [discriminate|].
    destruct (jsonDecodeRows d); intros [= <-]. reflexivity.
Qed.

(** The unsupported-encoder error, and any use of a decompression library,
    need a non-zero [uncompressedSize]. *)
Lemma unsupported_encoder_needs_size data encoding metadata e :
  decompressSegment' data encoding metadata = Err e ->
  uncompressedSize metadata <> 0.
Proof.
  intros H H0. rewrite decompressSegment_identity in H by exact H0. discriminate.
Qed.

End CodecProperties.

Lemma decodeSegment_size_checks_witness :
  decodeSegment zstdStub lz4Stub jsonStub threeBytes "json" shortMetadata
    = Err (Errorf fmtSegmentSizeMismatch [opInt 2; opInt 3]) /\
  decodeSegment zstdStub lz4Stub jsonStub threeBytes "json+zstd" zstdMetadata
    = Err (Errorf fmtDecompressedSizeMismatch [opInt 7; opInt 6]) /\
  (forall e, decodeSegment zstdStub lz4Stub jsonStub threeBytes "json" plainMetadata = Err e ->
     isSizeMismatch e = false).
Proof.
  split; [|split].
  - apply (decodeSegment_size_checks zstdStub lz4Stub jsonStub threeBytes "json" shortMetadata).
    discriminate.
  - apply (decodeSegment_size_checks zstdStub lz4Stub jsonStub threeBytes "json+zstd"
             zstdMetadata) with (d := threeBytes ++ threeBytes);
      [reflexivity | reflexivity | reflexivity | discriminate].
  - apply (decodeSegment_size_checks zstdStub lz4Stub jsonStub threeBytes "json" plainMetadata);
      [reflexivity | left; reflexivity].
Defined.

(** C10, as the claim states its second half, fails: with
    [uncompressedSize = -1], which is not greater than zero, the switch on
    the encoding is reached and yields the unsupported-encoder error. *)
Lemma decompressSegment_negative_size_counterexample :
  decompressSegment zstdStub lz4Stub threeBytes "json" negativeSizeMetadata
    = Err (Errorf fmtUnsupportedEncoder [opString "json"]) /\
  (uncompressedSize negativeSizeMetadata <=? 0) = true.
Proof. split; reflexivity. Qed.

(** C10, amended.  With [uncompressedSize = 0], [decompressSegment] returns
    its input unchanged and no error, for every encoding and whatever the
    decompression libraries would do.  The switch on the encoding is reached
    exactly when [uncompressedSize] differs from zero: any error or panic
    needs a non-zero size, and with a non-zero size an encoding other than
    [json+zstd] and [json+lz4] yields the unsupported-encoder error. *)
Theorem decompressSegment_zero_size_identity
    (zstdReadAll : list byte -> zstdRun)
    (lz4UncompressBlock : list byte -> Z -> outcome (list byte))
    (data : list byte) (encoding : string) (metadata : segmentMetadata) :
  (uncompressedSize metadata = 0 ->
     decompressSegment zstdReadAll lz4UncompressBlock data encoding metadata = Ok data) /\
  (decompressSegment zstdReadAll lz4UncompressBlock data encoding metadata <> Ok data ->
     uncompressedSize metadata <> 0) /\
  (uncompressedSize metadata <> 0 ->
     encoding <> "json+zstd" -> encoding <> "json+lz4" ->
     decompressSegment zstdReadAll lz4UncompressBlock data encoding metadata
       = Err (Errorf fmtUnsupportedEncoder [opString encoding])).
Proof.
  split; [|split].
  - apply decompressSegment_identity.
  - intros Hne H0. apply Hne. apply decompressSegment_identity. exact H0.
  - intros Hsize Hz Hl. rewrite decompressSegment_branch by exact Hsize.
    unfold decompressBranch.
    destruct (String.eqb_spec encoding "json+zstd"); [contradiction|].
    destruct (String.eqb_spec encoding "json+lz4"); [contradiction|].
    reflexivity.
Qed.

Lemma decompressSegment_zero_size_identity_witness :
  decompressSegment zstdStub lz4Stub threeBytes "no such encoding" plainMetadata
    = Ok threeBytes /\
  decompressSegment zstdStub lz4Stub threeBytes "no such encoding" zstdMetadata
    = Err (Errorf fmtUnsupportedEncoder [opString "no such encoding"]).
Proof.
  split.
  - apply (decompressSegment_zero_size_identity zstdStub lz4Stub threeBytes
             "no such encoding" plainMetadata). reflexivity.
  - apply (decompressSegment_zero_size_identity zstdStub lz4Stub threeBytes
             "no such encoding" zstdMetadata); discriminate.
Defined.

(** ** HTTP headers and their ingestion *)

Lemma Header_Values_Add_eq (h : Header) (key v : string) :
  Header_Values (Header_Add h key v) key = Header_Values h key ++ [v].
Proof. unfold Header_Add, Header_Values at 1. rewrite lookup_insert_eq. reflexivity. Qed.

Lemma Header_Values_Add_ne (h : Header) (key key' v : string) :
  key <> key' -> Header_Values (Header_Add h key v) key' = Header_Values h key'.
Proof.
  intros H. unfold Header_Add, Header_Values at 1.
  rewrite lookup_insert_ne by exact H. reflexivity.
Qed.

Lemma Header_Values_Set_ne (h : Header) (key key' v : string) :
  key <> key' -> Header_Values (Header_Set h key v) key' = Header_Values h key'.
Proof.
  intros H. unfold Header_Set, Header_Values at 1.
  rewrite lookup_insert_ne by exact H. reflexivity.
Qed.

Lemma Header_Values_Del_eq (h : Header) (key : string) :
  Header_Values (Header_Del h key) key = [].
Proof. unfold Header_Del, Header_Values. rewrite lookup_delete_eq. reflexivity. Qed.

Lemma Header_Values_Del_ne (h : Header) (key key' : string) :
  key <> key' -> Header_Values (Header_Del h key) key' = Header_Values h key'.
Proof.
  intros H. unfold Header_Del, Header_Values at 1.
  rewrite lookup_delete_ne by exact H. reflexivity.
Qed.

(** The re-adding loop of [dropEntries], from any headers. *)
Lemma dropEntries_loop (header v : string) (values : list string) :
  forall h : Header,
    Header_Values
      (fold_left
         (fun h v2 => if negb (HasPrefix v2 (v +:+ "=")) then Header_Add h header v2 else h)
         values h) header
    = Header_Values h header
        ++ List.filter (fun v2 => negb (HasPrefix v2 (v +:+ "="))) values.
Proof.
  induction values as [|v2 values IH]; intros h; simpl.
  - rewrite app_nil_r. reflexivity.
  - rewrite IH. destruct (negb (HasPrefix v2 (v +:+ "="))).
    + rewrite Header_Values_Add_eq, <- app_assoc. reflexivity.
    + reflexivity.
Qed.

Lemma dropEntries_loop_ne (header key' v : string) (values : list string) :
  header <> key' ->
  forall h : Header,
    Header_Values
      (fold_left
         (fun h v2 => if negb (HasPrefix v2 (v +:+ "=")) then Header_Add h header v2 else h)
         values h) key'
    = Header_Values h key'.
Proof.
  intros Hne. induction values as [|v2 values IH]; intros h; simpl.
  - reflexivity.
  - rewrite IH. destruct (negb (HasPrefix v2 (v +:+ "="))).
    + apply Header_Values_Add_ne. exact Hne.
    + reflexivity.
Qed.

(** [dropEntries] keeps, in order, the values that do not start with [v=]. *)
Lemma dropEntries_Values (h : Header) (header v : string) :
  Header_Values (dropEntries h header v) header
  = List.filter (fun v2 => negb (HasPrefix v2 (v +:+ "="))) (Header_Values h header).
Proof.
  unfold dropEntries. rewrite dropEntries_loop, Header_Values_Del_eq. reflexivity.
Qed.

Lemma dropEntries_Values_ne (h : Header) (header key' v : string) :
  header <> key' ->
  Header_Values (dropEntries h header v) key' = Header_Values h key'.
Proof.
  intros Hne. unfold dropEntries.
  rewrite dropEntries_loop_ne by exact Hne. apply Header_Values_Del_ne. exact Hne.
Qed.

(** What taking in a 200 response does to the outbound [Session] header:
    the value of [Set-Session] is appended, then the entries that start
    with the value of [Clear-Session] and an equals sign are dropped. *)
Lemma roundTripStatusOK_Session (h : Header) (resp : Response) :
  Header_Values (fst (roundTripStatusOK h resp)) trinoSessionHeader
  = let set := Header_Get (respHeader resp) trinoSetSessionHeader in
    let clear := Header_Get (respHeader resp) trinoClearSessionHeader in
    let appended :=
      Header_Values h trinoSessionHeader ++ (if String.eqb set "" then [] else [set]) in
    if String.eqb clear "" then appended
    else List.filter (fun v2 => negb (HasPrefix v2 (clear +:+ "="))) appended.
Proof.
  unfold roundTripStatusOK. cbn zeta.
  set (h1 := fold_left _ responseToRequestHeaderMap h).
  assert (H1 : Header_Values h1 trinoSessionHeader = Header_Values h trinoSessionHeader).
  { subst h1. unfold responseToRequestHeaderMap. cbn [fold_left].
    destruct (negb (String.eqb (Header_Get (respHeader resp) trinoSetSchemaHeader) ""));
      destruct (negb (String.eqb (Header_Get (respHeader resp) trinoSetCatalogHeader) ""));
      repeat (rewrite Header_Values_Set_ne by discriminate); reflexivity. }
  clearbody h1.
  set (h2 := if negb (String.eqb (Header_Get (respHeader resp) trinoAddedPrepareHeader) "")
             then _ else h1).
  assert (H2 : Header_Values h2 trinoSessionHeader = Header_Values h trinoSessionHeader).
  { subst h2. destruct (negb _); [rewrite Header_Values_Add_ne by discriminate|]; exact H1. }
  clearbody h2.
  set (h3 := if negb (String.eqb (Header_Get (respHeader resp) trinoDeallocatedPrepareHeader) "")
             then _ else h2).
  assert (H3 : Header_Values h3 trinoSessionHeader = Header_Values h trinoSessionHeader).
  { subst h3. destruct (negb _); [rewrite dropEntries_Values_ne by discriminate|]; exact H2. }
  clearbody h3.
  set (h4 := if negb (String.eqb (Header_Get (respHeader resp) trinoSetSessionHeader) "")
             then _ else h3).
  assert (H4 : Header_Values h4 trinoSessionHeader
               = Header_Values h trinoSessionHeader
                   ++ (if String.eqb (Header_Get (respHeader resp) trinoSetSessionHeader) ""
                       then [] else [Header_Get (respHeader resp) trinoSetSessionHeader])).
  { subst h4.
    destruct (String.eqb (Header_Get (respHeader resp) trinoSetSessionHeader) "");
      cbn [negb].
    - rewrite app_nil_r. exact H3.
    - rewrite Header_Values_Add_eq, H3. reflexivity. }
  clearbody h4.
  set (h5 := if negb (String.eqb (Header_Get (respHeader resp) trinoClearSessionHeader) "")
             then _ else h4).
  assert (H5 : Header_Values h5 trinoSessionHeader
               = if String.eqb (Header_Get (respHeader resp) trinoClearSessionHeader) ""
                 then Header_Values h4 trinoSessionHeader
                 else List.filter
                        (fun v2 => negb (HasPrefix v2
                           (Header_Get (respHeader resp) trinoClearSessionHeader +:+ "=")))
                        (Header_Values h4 trinoSessionHeader)).
  { subst h5.
    destruct (String.eqb (Header_Get (respHeader resp) trinoClearSessionHeader) "");
      cbn [negb].
    - reflexivity.
    - apply dropEntries_Values. }
  clearbody h5.
  destruct (existsb _ unsupportedResponseHeaders); cbn [fst]; rewrite H5, H4; reflexivity.
Qed.

Lemma prefix_cons (a b : ascii) (s1 s2 : string) :
  String.prefix (String a s1) (String b s2)
  = if Ascii.eqb a b then String.prefix s1 s2 else false.
Proof.
  cbn [String.prefix].
  destruct (Ascii.ascii_dec a b) as [->|Hne].
  - rewrite Ascii.eqb_refl. reflexivity.
  - destruct (Ascii.eqb_spec a b); [contradiction | reflexivity].
Qed.

(** An entry starts with [k=] exactly when its key is [k], for a key that
    holds no equals sign. *)
Lemma HasPrefix_entryKey (k : string) :
  entryKey k = None ->
  forall entry, HasPrefix entry (k +:+ "=") = true <-> entryKey entry = Some k.
Proof.
  unfold HasPrefix. induction k as [|a k IH]; intros Hk entry.
  - change ("" +:+ "=") with "=". destruct entry as [|c rest].
    + split; discriminate.
    + rewrite prefix_cons. cbn [entryKey String.prefix].
      rewrite (Ascii.eqb_sym c). destruct (Ascii.eqb "=" c).
      * split; [reflexivity | intros _; destruct rest; reflexivity].
      * split; [discriminate|]. destruct (entryKey rest); discriminate.
  - cbn [entryKey] in Hk. destruct (Ascii.eqb_spec a "="%char) as [->|Ha]; [discriminate|].
    destruct (entryKey k) eqn:Ek; [discriminate|].
    change (String a k +:+ "=") with (String a (k +:+ "=")). destruct entry as [|c rest].
    + split; discriminate.
    + rewrite prefix_cons. cbn [entryKey].
      destruct (Ascii.eqb_spec a c) as [<-|Hne].
      * destruct (Ascii.eqb_spec a "="%char) as [->|_]; [contradiction|].
        rewrite (IH eq_refl rest). destruct (entryKey rest); cbn; split; congruence.
      * split; [discriminate|].
        destruct (Ascii.eqb_spec c "="%char) as [->|_]; [congruence|].
        destruct (entryKey rest); cbn; congruence.
Qed.

Lemma roundTrip_statusOK (h : Header) (resp : Response) (turns : list selectCase) :
  StatusCode resp = 200 ->
  roundTrip (timerFired (doResponse resp) :: turns) h
  = mkRoundTripRun (Some (snd (roundTripStatusOK h resp)))
      (fst (roundTripStatusOK h resp)) [].
Proof.
  intros H. unfold roundTrip. cbn [roundTripLoop]. rewrite H. cbn [Z.eqb Pos.eqb].
  destruct (roundTripStatusOK h resp). reflexivity.
Qed.

Lemma filter_ext_bool {A : Type} (f g : A -> bool) (l : list A) :
  (forall x, f x = g x) -> List.filter f l = List.filter g l.
Proof.
  intros H. induction l as [|x l IH]; simpl; [reflexivity|].
  rewrite H, IH. reflexivity.
Qed.

(** C4.  Taking in a 200 response that carries [Set-Session: k=v] (and no
    [Clear-Session]) appends [k=v] to the outbound [Session] header; taking
    in a later 200 response that carries [Clear-Session: k] (and no
    [Set-Session]) removes every [Session] entry whose key is [k] and keeps
    the entries with other keys as they were, in order; so after the pair no
    entry with key [k] remains. *)
Theorem session_set_then_clear (h : Header) (r1 r2 : Response) (k v : string) :
  k <> "" -> entryKey k = None ->
  StatusCode r1 = 200 -> StatusCode r2 = 200 ->
  Header_Get (respHeader r1) trinoSetSessionHeader = k +:+ "=" +:+ v ->
  Header_Get (respHeader r1) trinoClearSessionHeader = "" ->
  Header_Get (respHeader r2) trinoClearSessionHeader = k ->
  Header_Get (respHeader r2) trinoSetSessionHeader = "" ->
  let h1 := connHeaders (roundTrip [timerFired (doResponse r1)] h) in
  let h2 := connHeaders (roundTrip [timerFired (doResponse r2)] h1) in
  Header_Values h1 trinoSessionHeader
    = Header_Values h trinoSessionHeader ++ [k +:+ "=" +:+ v] /\
  Header_Values h2 trinoSessionHeader
    = List.filter (fun entry => negb (bool_decide (entryKey entry = Some k)))
        (Header_Values h1 trinoSessionHeader) /\
  Forall (fun entry => entryKey entry <> Some k) (Header_Values h2 trinoSessionHeader).
Proof.
  intros Hk Hkey S1 S2 Hset1 Hclear1 Hclear2 Hset2 h1 h2.
  assert (E1 : Header_Values h1 trinoSessionHeader
               = Header_Values h trinoSessionHeader ++ [k +:+ "=" +:+ v]).
  { subst h1. rewrite roundTrip_statusOK by exact S1. cbn [connHeaders].
    rewrite roundTripStatusOK_Session. cbn zeta. rewrite Hset1, Hclear1.
    cbn [String.eqb].
    destruct (String.eqb_spec (k +:+ "=" +:+ v) "") as [Habs|_]; [|reflexivity].
    destruct k; [contradiction | discriminate]. }
  assert (E2 : Header_Values h2 trinoSessionHeader
               = List.filter (fun entry => negb (bool_decide (entryKey entry = Some k)))
                   (Header_Values h1 trinoSessionHeader)).
  { subst h2. rewrite roundTrip_statusOK by exact S2. cbn [connHeaders].
    rewrite roundTripStatusOK_Session. cbn zeta. rewrite Hset2, Hclear2.
    cbn [String.eqb]. rewrite app_nil_r.
    destruct (String.eqb_spec k "") as [Habs|_]; [contradiction|].
    apply filter_ext_bool. intros entry. f_equal.
    destruct (HasPrefix entry (k +:+ "=")) eqn:Hp.
    - symmetry. apply bool_decide_eq_true. apply HasPrefix_entryKey; assumption.
    - symmetry. apply bool_decide_eq_false. intros Habs.
      apply (HasPrefix_entryKey k Hkey) in Habs. congruence. }
  split; [exact E1 | split; [exact E2|]].
  rewrite E2. apply List.Forall_forall. intros entry Hin.
  apply filter_In in Hin. destruct Hin as [_ Hin].
  apply negb_true_iff, bool_decide_eq_false in Hin. exact Hin.
Qed.

Lemma session_set_then_clear_witness :
  Header_Values
    (connHeaders
       (roundTrip [timerFired (doResponse clearSessionResponse)]
          (connHeaders (roundTrip [timerFired (doResponse setSessionResponse)] sessionHeaders))))
    trinoSessionHeader
  = List.filter (fun entry => negb (bool_decide (entryKey entry = Some "query_max_run_time")))
      (Header_Values
         (connHeaders (roundTrip [timerFired (doResponse setSessionResponse)] sessionHeaders))
         trinoSessionHeader).
Proof.
  apply (session_set_then_clear sessionHeaders setSessionResponse clearSessionResponse
           "query_max_run_time" "1h");
    first [discriminate | reflexivity | vm_compute; reflexivity].
Defined.

Example session_set_then_clear_run :
  Header_Values
    (connHeaders (roundTrip [timerFired (doResponse setSessionResponse)] sessionHeaders))
    trinoSessionHeader
  = ["join_distribution_type=AUTO"; "query_max_run_time=1h"] /\
  Header_Values
    (connHeaders
       (roundTrip [timerFired (doResponse clearSessionResponse)]
          (connHeaders (roundTrip [timerFired (doResponse setSessionResponse)] sessionHeaders))))
    trinoSessionHeader
  = ["join_distribution_type=AUTO"].
Proof. split; vm_compute; reflexivity. Qed.

Lemma lookup_Header_Add_ne (h : Header) (key key' v : string) :
  key <> key' -> Header_Add h key v !! key' = h !! key'.
Proof. intros H. unfold Header_Add. apply lookup_insert_ne. exact H. Qed.

Lemma lookup_Header_Set_ne (h : Header) (key key' v : string) :
  key <> key' -> Header_Set h key v !! key' = h !! key'.
Proof. intros H. unfold Header_Set. apply lookup_insert_ne. exact H. Qed.

Lemma lookup_dropEntries_ne (h : Header) (header key' v : string) :
  header <> key' -> dropEntries h header v !! key' = h !! key'.
Proof.
  intros Hne. unfold dropEntries.
  assert (Hloop : forall values (h0 : Header),
            fold_left
              (fun h v2 =>
                 if negb (HasPrefix v2 (v +:+ "=")) then Header_Add h header v2 else h)
              values h0 !! key' = h0 !! key').
  { induction values as [|v2 values IH]; intros h0; simpl; [reflexivity|].
    rewrite IH. destruct (negb _); [apply lookup_Header_Add_ne; exact Hne | reflexivity]. }
  rewrite Hloop. unfold Header_Del. apply lookup_delete_ne. exact Hne.
Qed.

(** Taking in a response leaves every other outbound header as it is. *)
Lemma roundTripStatusOK_frame (h : Header) (resp : Response) (key : string) :
  ~ In key ingestedHeaders ->
  fst (roundTripStatusOK h resp) !! key = h !! key.
Proof.
  intros Hkey. unfold ingestedHeaders in Hkey. simpl in Hkey.
  assert (H1 : trinoSchemaHeader <> key) by tauto.
  assert (H2 : trinoCatalogHeader <> key) by tauto.
  assert (H3 : preparedStatementHeader <> key) by tauto.
  assert (H4 : trinoSessionHeader <> key) by tauto.
  unfold roundTripStatusOK, responseToRequestHeaderMap. cbn zeta. cbn [fold_left].
  destruct (existsb _ unsupportedResponseHeaders); cbn [fst];
    repeat match goal with
           | |- context [if ?c then _ else _] => destruct c
           end;
    repeat first [ rewrite lookup_dropEntries_ne by assumption
                 | rewrite lookup_Header_Add_ne by assumption
                 | rewrite lookup_Header_Set_ne by assumption ];
    reflexivity.
Qed.

Lemma Header_Values_Set_eq (h : Header) (key v : string) :
  Header_Values (Header_Set h key v) key = [v].
Proof. unfold Header_Set, Header_Values. rewrite lookup_insert_eq. reflexivity. Qed.

(** What taking in a 200 response does to the outbound [Catalog] and
    [Schema] headers. *)
Lemma roundTripStatusOK_Catalog_Schema (h : Header) (resp : Response) :
  Header_Values (fst (roundTripStatusOK h resp)) trinoCatalogHeader
    = (let v := Header_Get (respHeader resp) trinoSetCatalogHeader in
       if String.eqb v "" then Header_Values h trinoCatalogHeader else [v]) /\
  Header_Values (fst (roundTripStatusOK h resp)) trinoSchemaHeader
    = (let v := Header_Get (respHeader resp) trinoSetSchemaHeader in
       if String.eqb v "" then Header_Values h trinoSchemaHeader else [v]).
Proof.
  unfold roundTripStatusOK, responseToRequestHeaderMap. cbn zeta. cbn [fold_left].
  split.
  - destruct (existsb _ unsupportedResponseHeaders); cbn [fst];
      repeat match goal with
             | |- context [if negb ?c then _ else _] => destruct c; cbn [negb]
             end;
      repeat first [ rewrite dropEntries_Values_ne by discriminate
                   | rewrite Header_Values_Add_ne by discriminate
                   | rewrite Header_Values_Set_eq
                   | rewrite Header_Values_Set_ne by discriminate ];
      reflexivity.
  - destruct (existsb _ unsupportedResponseHeaders); cbn [fst];
      repeat match goal with
             | |- context [if negb ?c then _ else _] => destruct c; cbn [negb]
             end;
      repeat first [ rewrite dropEntries_Values_ne by discriminate
                   | rewrite Header_Values_Add_ne by discriminate
                   | rewrite Header_Values_Set_eq
                   | rewrite Header_Values_Set_ne by discriminate ];
      reflexivity.
Qed.

(** What taking in a 200 response does to the outbound [Prepared-Statement]
    header: the value of [Added-Prepare] is appended, then the entries that
    start with the value of [Deallocated-Prepare] and an equals sign are
    dropped. *)
Lemma roundTripStatusOK_Prepared (h : Header) (resp : Response) :
  Header_Values (fst (roundTripStatusOK h resp)) preparedStatementHeader
  = let added := Header_Get (respHeader resp) trinoAddedPrepareHeader in
    let dealloc := Header_Get (respHeader resp) trinoDeallocatedPrepareHeader in
    let appended :=
      Header_Values h preparedStatementHeader ++ (if String.eqb added "" then [] else [added]) in
    if String.eqb dealloc "" then appended
    else List.filter (fun v2 => negb (HasPrefix v2 (dealloc +:+ "="))) appended.
Proof.
  unfold roundTripStatusOK, responseToRequestHeaderMap. cbn zeta. cbn [fold_left].
  destruct (existsb _ unsupportedResponseHeaders); cbn [fst];
    repeat match goal with
           | |- context [if negb (String.eqb ?c "") then _ else _] =>
               destruct (String.eqb c ""); cbn [negb]
           end;
    repeat first [ rewrite dropEntries_Values_ne by discriminate
                 | rewrite dropEntries_Values
                 | rewrite Header_Values_Add_ne by discriminate
                 | rewrite Header_Values_Add_eq
                 | rewrite Header_Values_Set_ne by discriminate
                 | rewrite app_nil_r ];
    reflexivity.
Qed.

(** ** The retrying round trip *)

Lemma retryDelay_succ (n : nat) : retryDelay (S n) = nextDelay (retryDelay n).
Proof. reflexivity. Qed.

Lemma delayAfter_succ (n : nat) :
  forall d, delayAfter d (S n) = nextDelay (delayAfter d n).
Proof.
  induction n as [|n IH]; intros d; [reflexivity|].
  change (delayAfter d (S (S n))) with (delayAfter (nextDelay d) (S n)).
  rewrite IH. reflexivity.
Qed.

Lemma retryDelay_delayAfter (n : nat) : retryDelay n = delayAfter initialDelay n.
Proof.
  induction n as [|n IH]; [reflexivity|].
  rewrite retryDelay_succ, delayAfter_succ, IH. reflexivity.
Qed.

Lemma delaysFrom_retryDelay (n : nat) :
  forall k, delaysFrom (retryDelay k) n = map retryDelay (seq k n).
Proof.
  induction n as [|n IH]; intros k; [reflexivity|].
  cbn [delaysFrom seq map]. rewrite <- retryDelay_succ, IH. reflexivity.
Qed.

Lemma nextDelay_cap : nextDelay (15 * Second) = 15 * Second.
Proof. vm_compute. reflexivity. Qed.

(** From the eleventh retry on the delay is the cap. *)
Lemma retryDelay_capped (n : nat) : retryDelay (11 + n) = 15 * Second.
Proof.
  induction n as [|n IH].
  - vm_compute. reflexivity.
  - replace (11 + S n)%nat with (S (11 + n)) by lia.
    rewrite retryDelay_succ, IH. apply nextDelay_cap.
Qed.

Lemma retryDelay_bounds (n : nat) :
  100 * Millisecond <= retryDelay n <= 15 * Second.
Proof.
  destruct (Nat.lt_ge_cases n 11) as [Hlt|Hge].
  - do 11 (destruct n as [|n]; [vm_compute; split; discriminate|]). lia.
  - replace n with (11 + (n - 11))%nat by lia. rewrite retryDelay_capped.
    vm_compute. split; discriminate.
Qed.

(** Below the cap each delay is the previous one times the golden ratio,
    with the fraction dropped. *)
Lemma retryDelay_growth (n : nat) :
  (n < 10)%nat ->
  1618033988 * retryDelay n < 1000000000 * (retryDelay (S n) + 1) /\
  1000000000 * retryDelay (S n) <= 1618033989 * retryDelay n.
Proof.
  intros H.
  do 10 (destruct n as [|n]; [vm_compute; split; [reflexivity | discriminate]|]). lia.
Qed.

Lemma retry_not_ok (status : Z) :
  In status retryStatuses -> (status =? 200) = false /\ isRetryStatus status = true.
Proof.
  unfold retryStatuses. simpl.
  intros [<-|[<-|[<-|[]]]]; split; reflexivity.
Qed.

(** The loop passes over any run of retried responses, resetting the timer
    once for each. *)
Lemma roundTripLoop_retries (rs : list Response) :
  forall (turns : list selectCase) (h : Header) (delay : Z) (resets : list Z),
    Forall (fun x => In (StatusCode x) retryStatuses) rs ->
    roundTripLoop (map (fun x => timerFired (doResponse x)) rs ++ turns) h delay resets
    = roundTripLoop turns h (delayAfter delay (length rs))
        (resets ++ delaysFrom delay (length rs)).
Proof.
  induction rs as [|x rs IH]; intros turns h delay resets Hrs.
  - cbn [map app length delayAfter delaysFrom]. rewrite app_nil_r. reflexivity.
  - inversion Hrs as [|? ? Hx Hrest]; subst.
    destruct (retry_not_ok _ Hx) as [Hno Hyes].
    cbn [map app roundTripLoop length delayAfter delaysFrom].
    rewrite Hno, Hyes, IH by exact Hrest.
    rewrite <- app_assoc. reflexivity.
Qed.

Lemma roundTripStatusOK_supported (h : Header) (resp : Response) :
  Forall (fun name => Header_Get (respHeader resp) name = "") unsupportedResponseHeaders ->
  snd (roundTripStatusOK h resp) = Ok resp.
Proof.
  intros H. unfold roundTripStatusOK. cbn zeta.
  match goal with |- snd (if ?c then _ else _) = _ => assert (Hc : c = false) end.
  { unfold unsupportedResponseHeaders in *.
    inversion H as [|? ? H1 H']; subst. inversion H' as [|? ? H2 _]; subst.
    cbn [existsb]. rewrite H1, H2. reflexivity. }
  rewrite Hc. reflexivity.
Qed.

Lemma roundTripStatusOK_unsupported (h : Header) (resp : Response) :
  Header_Get (respHeader resp) trinoSetPathHeader <> "" \/
  Header_Get (respHeader resp) trinoSetRoleHeader <> "" ->
  snd (roundTripStatusOK h resp) = Err ErrUnsupportedHeader.
Proof.
  intros H. unfold roundTripStatusOK. cbn zeta.
  match goal with |- snd (if ?c then _ else _) = _ => assert (Hc : c = true) end.
  { unfold unsupportedResponseHeaders. cbn [existsb].
    destruct (String.eqb_spec (Header_Get (respHeader resp) trinoSetPathHeader) "");
      destruct (String.eqb_spec (Header_Get (respHeader resp) trinoSetRoleHeader) "");
      cbn [negb orb]; try reflexivity.
    exfalso. destruct H as [H|H]; apply H; assumption. }
  rewrite Hc. reflexivity.
Qed.

(** C5, amended.  When the request meets any number of responses with
    status 502, 503 or 504 and then a 200 response, [roundTrip] ends in the
    200 case.  It returns that response when the response carries neither
    [Set-Path] nor [Set-Role], and the unsupported-header error when it
    carries one of them.  Either way the response's headers were taken in:
    [Set-Catalog] and [Set-Schema] replace the values of [Catalog] and
    [Schema]; the value of [Added-Prepare] is appended to
    [Prepared-Statement] and then the entries that start with the value of
    [Deallocated-Prepare] and an equals sign are dropped; the value of
    [Set-Session] is appended to [Session] and then the entries that start
    with the value of [Clear-Session] and an equals sign are dropped; no
    other outbound header changes.  The timer was reset once per retried
    response, with the delays [retryDelay 0], [retryDelay 1], ...: the first
    is 100 ms, each next one is the previous one times the golden ratio
    (fraction dropped) while that stays below the cap, the cap afterwards,
    and none exceeds 15 s.  The retries are not counted.  When, after the
    retried responses, the context is done at the [select], the call returns
    the context's error; when instead the request itself fails (as it does
    when the context is cancelled while the request is under way), the call
    returns the request's error wrapped in a query-failed error with no
    status.  In both cases the connection's headers are as they were. *)
Theorem roundTrip_retries_until_ok
    (h : Header) (rs : list Response) (r : Response) (turns : list selectCase) :
  Forall (fun x => In (StatusCode x) retryStatuses) rs ->
  StatusCode r = 200 ->
  let retries := map (fun x => timerFired (doResponse x)) rs in
  let run := roundTrip (retries ++ timerFired (doResponse r) :: turns) h in
  let got := Header_Get (respHeader r) in
  let appended (values : list string) (v : string) :=
    values ++ (if String.eqb v "" then [] else [v]) in
  let without (v : string) (values : list string) :=
    if String.eqb v "" then values
    else List.filter (fun v2 => negb (HasPrefix v2 (v +:+ "="))) values in
  (got trinoSetPathHeader = "" -> got trinoSetRoleHeader = "" ->
     returned run = Some (Ok r)) /\
  (got trinoSetPathHeader <> "" \/ got trinoSetRoleHeader <> "" ->
     returned run = Some (Err ErrUnsupportedHeader)) /\
  Header_Values (connHeaders run) trinoCatalogHeader
    = (if String.eqb (got trinoSetCatalogHeader) "" then Header_Values h trinoCatalogHeader
       else [got trinoSetCatalogHeader]) /\
  Header_Values (connHeaders run) trinoSchemaHeader
    = (if String.eqb (got trinoSetSchemaHeader) "" then Header_Values h trinoSchemaHeader
       else [got trinoSetSchemaHeader]) /\
  Header_Values (connHeaders run) preparedStatementHeader
    = without (got trinoDeallocatedPrepareHeader)
        (appended (Header_Values h preparedStatementHeader) (got trinoAddedPrepareHeader)) /\
  Header_Values (connHeaders run) trinoSessionHeader
    = without (got trinoClearSessionHeader)
        (appended (Header_Values h trinoSessionHeader) (got trinoSetSessionHeader)) /\
  (forall key, ~ In key ingestedHeaders -> connHeaders run !! key = h !! key) /\
  timerResets run = map retryDelay (seq 0 (length rs)) /\
  retryDelay 0 = 100 * Millisecond /\
  (forall n, (n < 10)%nat ->
     1618033988 * retryDelay n < 1000000000 * (retryDelay (S n) + 1) /\
     1000000000 * retryDelay (S n) <= 1618033989 * retryDelay n) /\
  (forall n, (10 <= n)%nat -> retryDelay (S n) = 15 * Second) /\
  (forall n, retryDelay n <= 15 * Second) /\
  (forall err,
     roundTrip (retries ++ ctxDone err :: turns) h
     = mkRoundTripRun (Some (Err err)) h (map retryDelay (seq 0 (length rs)))) /\
  (forall err,
     roundTrip (retries ++ timerFired (doError err) :: turns) h
     = mkRoundTripRun (Some (Err (ErrQueryFailed 0 err))) h
         (map retryDelay (seq 0 (length rs)))).
Proof.
  intros Hrs Hok retries run got appended without.
  assert (Hrun : run = mkRoundTripRun (Some (snd (roundTripStatusOK h r)))
                         (fst (roundTripStatusOK h r))
                         (map retryDelay (seq 0 (length rs)))).
  { subst run retries. unfold roundTrip.
    rewrite roundTripLoop_retries by exact Hrs.
    cbn [roundTripLoop app]. rewrite Hok. cbn [Z.eqb Pos.eqb].
    destruct (roundTripStatusOK h r) as [h' out]. cbn [fst snd].
    change initialDelay with (retryDelay 0). rewrite delaysFrom_retryDelay. reflexivity. }
  assert (Hstops : forall turn,
            roundTrip (retries ++ turn :: turns) h
            = roundTripLoop (turn :: turns) h (delayAfter initialDelay (length rs))
                (map retryDelay (seq 0 (length rs)))).
  { intros turn. subst retries. unfold roundTrip.
    rewrite roundTripLoop_retries by exact Hrs.
    change initialDelay with (retryDelay 0) at 2. rewrite delaysFrom_retryDelay.
    reflexivity. }
  rewrite Hrun. cbn [returned connHeaders timerResets].
  destruct (roundTripStatusOK_Catalog_Schema h r) as [Hcatalog Hschema].
  split.
  { intros Hpath Hrole. rewrite roundTripStatusOK_supported; [reflexivity|].
    unfold unsupportedResponseHeaders.
    apply List.Forall_cons; [exact Hpath|]. apply List.Forall_cons; [exact Hrole|].
    apply List.Forall_nil. }
  split; [intros Hunsupported; rewrite roundTripStatusOK_unsupported by exact Hunsupported;
          reflexivity|].
  split; [exact Hcatalog|]. split; [exact Hschema|].
  split; [rewrite roundTripStatusOK_Prepared; reflexivity|].
  split; [rewrite roundTripStatusOK_Session; reflexivity|].
  split; [intros key Hkey; apply roundTripStatusOK_frame; exact Hkey|].
  split; [reflexivity|]. split; [reflexivity|].
  split; [exact retryDelay_growth|].
  split.
  { intros n Hn. replace (S n) with (11 + (n - 10))%nat by lia. apply retryDelay_capped. }
  split; [intros n; apply retryDelay_bounds|].
  split; intros err; rewrite Hstops; reflexivity.
Qed.

Lemma roundTrip_retries_until_ok_witness :
  returned
    (roundTrip
       (map (fun x => timerFired (doResponse x)) [unavailable; badGateway; unavailable]
          ++ [timerFired (doResponse setSessionResponse)]) sessionHeaders)
  = Some (Ok setSessionResponse).
Proof.
  destruct (roundTrip_retries_until_ok sessionHeaders [unavailable; badGateway; unavailable]
              setSessionResponse []) as (H & _).
  - repeat (apply List.Forall_cons; [simpl; auto|]). apply List.Forall_nil.
  - reflexivity.
  - apply H; reflexivity.
Defined.

(** C5, as the claim states it, fails on a 200 response that carries
    [Set-Role]: after one retried response [roundTrip] returns the
    unsupported-header error, and no response. *)
Lemma roundTrip_set_role_counterexample :
  StatusCode unavailable = 503 /\
  StatusCode setRoleResponse = 200 /\
  returned
    (roundTrip [timerFired (doResponse unavailable); timerFired (doResponse setRoleResponse)]
       sessionHeaders)
  = Some (Err ErrUnsupportedHeader) /\
  returned
    (roundTrip [timerFired (doResponse unavailable); timerFired (doResponse setRoleResponse)]
       sessionHeaders)
  <> Some (Ok setRoleResponse).
Proof.
  split; [reflexivity|]. split; [reflexivity|].
  split; [vm_compute; reflexivity | vm_compute; discriminate].
Qed.

Example roundTrip_retries_run :
  timerResets
    (roundTrip
       (map (fun x => timerFired (doResponse x)) [unavailable; badGateway; unavailable]
          ++ [timerFired (doResponse setSessionResponse)]) sessionHeaders)
  = [100000000; 161803398; 261803397].
Proof. vm_compute. reflexivity. Qed.

(** ** The spooling configuration *)

(** The check in [exec] compares the two fields as the arguments left them,
    an unset one being zero. *)
Lemma exec_spooling_check_raw
    (Serial : driverValue -> outcome string)
    (QueryEscape CanonicalMIMEHeaderKey : string -> string)
    (conn : Conn) (st : driverStmt) :
  snd (exec Serial QueryEscape CanonicalMIMEHeaderKey conn st [])
  = if spoolingWorkerCount st >? spoolingMaxOutOfOrderSegments st then
      Err (Errorf fmtSpoolingWorkers
             [opInt (spoolingWorkerCount st); opInt (spoolingMaxOutOfOrderSegments st)])
    else
      Ok (mkStatementRequest (query st)
            (Header_Add (Header_Add ∅ "X-Trino-Client-Capabilities" "PARAMETRIC_DATETIME")
               trinoQueryDataEncodingHeader defaulttrinoEncoding)).
Proof.
  unfold exec. cbn [es_st es_hs].
  destruct (spoolingWorkerCount st >? spoolingMaxOutOfOrderSegments st); reflexivity.
Qed.

(** C6 (the code departs from it).  With only [spooling_worker_count = 3]
    given, the reorder bound is still zero when [exec] compares the two, so
    the statement fails with the configuration error although 3 workers fit
    the default bound of 10.  With only [max_out_of_order_segments = 2]
    given, the worker count is still zero at the comparison, so no error is
    returned, and [startSpoolingProtocolWorkers] then runs 5 workers against
    a bound of 2.  With both unset, or both given, the comparison is the one
    the claim states. *)
Theorem exec_spooling_check_before_defaults :
  snd (execWith workersOnly) = Err (Errorf fmtSpoolingWorkers [opInt 3; opInt 0]) /\
  (exists req, snd (execWith boundOnly) = Ok req) /\
  spoolingWorkerCount (startSpoolingProtocolWorkers (es_st (fst (execWith boundOnly)))) = 5 /\
  spoolingMaxOutOfOrderSegments
    (startSpoolingProtocolWorkers (es_st (fst (execWith boundOnly)))) = 2 /\
  (exists req, snd (execWith []) = Ok req) /\
  spoolingWorkerCount (startSpoolingProtocolWorkers (es_st (fst (execWith [])))) = 5 /\
  spoolingMaxOutOfOrderSegments
    (startSpoolingProtocolWorkers (es_st (fst (execWith [])))) = 10 /\
  (exists req, snd (execWith (workersAndBound "10" "10")) = Ok req) /\
  snd (execWith (workersAndBound "11" "10"))
    = Err (Errorf fmtSpoolingWorkers [opInt 11; opInt 10]).
Proof.
  repeat split; try (eexists; vm_compute; reflexivity); vm_compute; reflexivity.
Qed.

(** ** The ordered streamer *)

Lemma wrap64_in_range (z : Z) : in_int64 z -> wrap64 z = z.
Proof.
  unfold in_int64, int64_min, int64_max, wrap64. intros H.
  rewrite Z.mod_small by lia. lia.
Qed.

Lemma len_nonneg {A : Type} (l : list A) : 0 <= len l.
Proof. unfold len. lia. Qed.

Lemma totalRows_nonneg (l : list decodedSegment) : 0 <= totalRows l.
Proof.
  induction l as [|s l IH]; simpl; [lia|].
  pose proof (len_nonneg (ds_queryData s)). lia.
Qed.

Lemma totalRows_app (l1 l2 : list decodedSegment) :
  totalRows (l1 ++ l2) = totalRows l1 + totalRows l2.
Proof. induction l1 as [|s l1 IH]; simpl; lia. Qed.

Lemma totalRows_Permutation (l1 l2 : list decodedSegment) :
  Permutation l1 l2 -> totalRows l1 = totalRows l2.
Proof. induction 1; simpl; lia. Qed.

Lemma allRows_app (l1 l2 : list decodedSegment) :
  allRows (l1 ++ l2) = allRows l1 ++ allRows l2.
Proof. unfold allRows. rewrite map_app, concat_app. reflexivity. Qed.

Lemma tiled_app (l1 l2 : list decodedSegment) :
  forall n, tiled n (l1 ++ l2) <-> tiled n l1 /\ tiled (n + totalRows l1) l2.
Proof.
  induction l1 as [|s l1 IH]; intros n; simpl.
  - rewrite Z.add_0_r. tauto.
  - rewrite IH, Z.add_assoc. tauto.
Qed.

Lemma tiled_lower (l : list decodedSegment) :
  forall n, tiled n l -> Forall (fun s => n <= ds_rowOffset s) l.
Proof.
  induction l as [|s l IH]; intros n H; simpl in H; constructor.
  - lia.
  - destruct H as [_ H]. apply IH in H.
    eapply Forall_impl; [exact H|]. intros x Hx. simpl in Hx.
    pose proof (len_nonneg (ds_queryData s)). lia.
Qed.

Lemma hasRows_len (s : decodedSegment) : hasRows s = true -> 0 < len (ds_queryData s).
Proof.
  unfold hasRows, len. destruct (ds_queryData s); [discriminate|]. simpl. lia.
Qed.

Lemma hasRows_false (s : decodedSegment) : hasRows s = false -> ds_queryData s = [].
Proof. unfold hasRows. destruct (ds_queryData s); [reflexivity | discriminate]. Qed.

(** Tiled segments are sorted by offset, strictly so between segments that
    hold rows. *)
Lemma tiled_sorted (l : list decodedSegment) :
  forall n, tiled n l -> StronglySorted offsetLe l.
Proof.
  induction l as [|s l IH]; intros n H; constructor.
  - destruct H as [_ H]. eapply IH. exact H.
  - destruct H as [Hs H]. apply tiled_lower in H.
    eapply Forall_impl; [exact H|]. intros x Hx. unfold offsetLe. simpl in Hx.
    pose proof (len_nonneg (ds_queryData s)). lia.
Qed.

Lemma tiled_filter_sorted (l : list decodedSegment) :
  forall n, tiled n l -> StronglySorted offsetLt (List.filter hasRows l).
Proof.
  induction l as [|s l IH]; intros n H; simpl; [constructor|].
  destruct H as [Hs H].
  destruct (hasRows s) eqn:Hr.
  - constructor; [eapply IH; exact H|].
    apply tiled_lower in H. apply hasRows_len in Hr.
    apply List.Forall_forall. intros x Hx. apply filter_In in Hx. destruct Hx as [Hx _].
    rewrite List.Forall_forall in H. specialize (H x Hx). unfold offsetLt. simpl in H. lia.
  - apply hasRows_false in Hr. eapply IH. rewrite Hr in H. simpl in H.
    rewrite Z.add_0_r in H. exact H.
Qed.

Lemma allRows_filter (l : list decodedSegment) :
  allRows (List.filter hasRows l) = allRows l.
Proof.
  unfold allRows. induction l as [|s l IH]; simpl; [reflexivity|].
  destruct (hasRows s) eqn:Hr; simpl; rewrite IH; [reflexivity|].
  rewrite (hasRows_false s Hr). reflexivity.
Qed.

Lemma filter_Permutation {A : Type} (f : A -> bool) (l1 l2 : list A) :
  Permutation l1 l2 -> Permutation (List.filter f l1) (List.filter f l2).
Proof.
  induction 1; simpl.
  - constructor.
  - destruct (f x); [constructor|]; assumption.
  - destruct (f x), (f y); try constructor; try reflexivity.
  - etransitivity; eassumption.
Qed.

Lemma filter_StronglySorted {A : Type} (R : A -> A -> Prop) (f : A -> bool) (l : list A) :
  StronglySorted R l -> StronglySorted R (List.filter f l).
Proof.
  induction 1 as [|x l Hs IH Hall]; simpl; [constructor|].
  destruct (f x); [|exact IH].
  constructor; [exact IH|].
  apply List.Forall_forall. intros y Hy. apply filter_In in Hy.
  rewrite List.Forall_forall in Hall. apply Hall. tauto.
Qed.

(** A list sorted by offset that permutes a strictly sorted one is that
    list. *)
Lemma sorted_permutation_unique (strict : list decodedSegment) :
  forall sorted,
    StronglySorted offsetLt strict -> StronglySorted offsetLe sorted ->
    Permutation sorted strict -> sorted = strict.
Proof.
  induction strict as [|a strict IH]; intros sorted Hstrict Hsorted Hperm.
  - apply Permutation_nil. symmetry. exact Hperm.
  - destruct sorted as [|b sorted].
    + apply Permutation_nil_cons in Hperm. contradiction.
    + inversion Hstrict as [|? ? Hstrict' Ha]; subst.
      inversion Hsorted as [|? ? Hsorted' Hb]; subst.
      assert (Hba : b = a).
      { assert (Hin_b : In b (a :: strict))
          by (eapply Permutation_in; [exact Hperm | left; reflexivity]).
        assert (Hin_a : In a (b :: sorted))
          by (eapply Permutation_in; [symmetry; exact Hperm | left; reflexivity]).
        destruct Hin_b as [Heq|Hin_b]; [symmetry; exact Heq|].
        destruct Hin_a as [Heq|Hin_a]; [exact Heq|].
        rewrite List.Forall_forall in Ha, Hb.
        specialize (Ha b Hin_b). specialize (Hb a Hin_a).
        unfold offsetLt, offsetLe in *. lia. }
      subst b. f_equal. apply IH; try assumption.
      eapply Permutation_cons_inv. exact Hperm.
Qed.

(** The rows of tiled segments do not depend on how a sort orders segments
    of equal offset. *)
Lemma allRows_sorted_permutation (emitted sorted : list decodedSegment) (n : Z) :
  tiled n emitted -> StronglySorted offsetLe sorted -> Permutation sorted emitted ->
  allRows sorted = allRows emitted.
Proof.
  intros Ht Hs Hp.
  rewrite <- (allRows_filter sorted), <- (allRows_filter emitted). f_equal.
  apply sorted_permutation_unique.
  - eapply tiled_filter_sorted. exact Ht.
  - apply filter_StronglySorted. exact Hs.
  - apply filter_Permutation. exact Hp.
Qed.

(** The inner loop sends a prefix of the buffer: the segments it sends are
    tiled from the offset it starts at, it stops at the first segment whose
    offset is not the expected one, and the offset it ends at is the start
    plus the rows sent. *)
Lemma drain_prefix (buf : list decodedSegment) :
  forall next,
    0 <= next -> next + totalRows buf <= int64_max ->
    exists sent kept,
      drain next buf = (sent, next + totalRows sent, kept) /\
      buf = sent ++ kept /\ tiled next sent /\
      match kept with
      | [] => True
      | s :: _ => ds_rowOffset s <> next + totalRows sent
      end.
Proof.
  induction buf as [|s buf IH]; intros next Hnext Hfit.
  - exists [], []. simpl. rewrite Z.add_0_r. auto.
  - cbn [drain]. cbn [totalRows] in Hfit.
    pose proof (len_nonneg (ds_queryData s)) as Hlen.
    pose proof (totalRows_nonneg buf) as Htot.
    destruct (Z.eqb_spec (ds_rowOffset s) next) as [Heq|Hne].
    + rewrite wrap64_in_range
        by (unfold in_int64, int64_min, int64_max in *; lia).
      destruct (IH (next + len (ds_queryData s))) as (sent & kept & Hd & Hb & Ht & Hk);
        [lia | lia |].
      rewrite Hd. exists (s :: sent), kept. cbn [totalRows tiled app].
      rewrite Z.add_assoc.
      split; [reflexivity|]. split; [rewrite Hb; reflexivity|].
      split; [split; [exact Heq | exact Ht]|]. exact Hk.
    + exists [], (s :: buf). simpl. rewrite Z.add_0_r. auto.
Qed.

Section StreamerProperties.

Variable SortFunc : list decodedSegment -> list decodedSegment.
Hypothesis SortFunc_sorts : sortsByRowOffset SortFunc.
Variable maxOutOfOrder : Z.

Let receive' := receive SortFunc maxOutOfOrder.
Let run := startOrderedSegmentStreamer SortFunc maxOutOfOrder.

Lemma receive_invariant (r : streamerRun) (arrived : list decodedSegment)
    (segment : decodedSegment) :
  streamerInvariant r arrived ->
  totalRows (arrived ++ [segment]) <= int64_max ->
  streamerInvariant (receive' r segment) (arrived ++ [segment]).
Proof.
  intros (Hperm & Htiled & Hnext) Hfit.
  unfold receive', receive.
  destruct (Z.eqb_spec (nextExpectedOffset (locals r)) (ds_rowOffset segment)) as [Heq|Hne];
    cbn [negb].
  - destruct (SortFunc_sorts (buffer (locals r) ++ [segment])) as [Hsp _].
    assert (Hall : Permutation (sent r ++ SortFunc (buffer (locals r) ++ [segment]))
                     (arrived ++ [segment])).
    { rewrite Hsp, app_assoc. apply Permutation_app_tail. exact Hperm. }
    destruct (drain_prefix (SortFunc (buffer (locals r) ++ [segment]))
                (nextExpectedOffset (locals r)))
      as (emitted & kept & Hd & Hb & Ht & _).
    + rewrite Hnext. apply totalRows_nonneg.
    + rewrite Hnext, <- totalRows_app, (totalRows_Permutation _ _ Hall). exact Hfit.
    + rewrite Hd. unfold streamerInvariant. cbn [sent locals buffer nextExpectedOffset].
      split; [|split].
      * rewrite <- app_assoc, <- Hb. exact Hall.
      * apply tiled_app. split; [exact Htiled|]. simpl. rewrite <- Hnext. exact Ht.
      * rewrite totalRows_app, Hnext. reflexivity.
  - unfold streamerInvariant. cbn [sent locals buffer nextExpectedOffset].
    split; [|split]; try assumption.
    rewrite app_assoc. apply Permutation_app_tail. exact Hperm.
Qed.

Lemma run_invariant (arrivals : list decodedSegment) :
  forall r arrived,
    streamerInvariant r arrived ->
    totalRows (arrived ++ arrivals) <= int64_max ->
    streamerInvariant (fold_left receive' arrivals r) (arrived ++ arrivals).
Proof.
  induction arrivals as [|segment arrivals IH]; intros r arrived Hinv Hfit.
  - rewrite app_nil_r. exact Hinv.
  - cbn [fold_left].
    replace (arrived ++ segment :: arrivals) with ((arrived ++ [segment]) ++ arrivals)
      by (rewrite <- app_assoc; reflexivity).
    apply IH.
    + apply receive_invariant; [exact Hinv|].
      replace (arrived ++ segment :: arrivals) with ((arrived ++ [segment]) ++ arrivals)
        in Hfit by (rewrite <- app_assoc; reflexivity).
      rewrite totalRows_app in Hfit. pose proof (totalRows_nonneg arrivals). lia.
    + rewrite <- app_assoc. exact Hfit.
Qed.

(** Whatever arrives, nothing is lost or made up, the segments sent are
    tiled from zero and the expected offset counts the rows sent. *)
Lemma run_streamerInvariant (arrivals : list decodedSegment) :
  totalRows arrivals <= int64_max ->
  streamerInvariant (run arrivals) arrivals.
Proof.
  intros Hfit. unfold run, startOrderedSegmentStreamer.
  apply (run_invariant arrivals _ []); [|exact Hfit].
  unfold streamerInvariant. simpl. auto.
Qed.

End StreamerProperties.

(** On the segments still owed of a well-formed result set, the inner loop
    sends exactly the next ones that are buffered, and leaves no segment
    that starts at the offset it ends at. *)
Lemma drain_tiled (buf : list decodedSegment) :
  forall (todo coming : list decodedSegment) (next : Z),
    StronglySorted offsetLe buf ->
    tiled next todo -> Forall (fun s => hasRows s = true) todo ->
    Permutation (buf ++ coming) todo ->
    0 <= next -> next + totalRows todo <= int64_max ->
    exists emitted kept todo',
      drain next buf = (emitted, next + totalRows emitted, kept) /\
      todo = emitted ++ todo' /\
      Permutation (kept ++ coming) todo' /\
      Forall (fun x => ds_rowOffset x <> next + totalRows emitted) kept.
Proof.
  induction buf as [|b buf IH]; intros todo coming next Hsorted Htiled Hrows Hperm Hnext Hfit.
  - exists [], [], todo. simpl. rewrite Z.add_0_r. auto.
  - assert (Hin : In b todo)
      by (eapply Permutation_in; [exact Hperm | left; reflexivity]).
    pose proof (tiled_lower _ _ Htiled) as Hlow.
    apply StronglySorted_inv in Hsorted. destruct Hsorted as [Hsorted' Hb].
    cbn [drain].
    destruct (Z.eqb_spec (ds_rowOffset b) next) as [Heq|Hne].
    + destruct todo as [|t todo]; [contradiction|].
      destruct Htiled as [Ht Htiled].
      pose proof (List.Forall_inv Hrows) as Hrt.
      pose proof (List.Forall_inv_tail Hrows) as Hrows'.
      pose proof (hasRows_len _ Hrt) as Hlen.
      assert (Hbt : b = t).
      { destruct Hin as [Hin|Hin]; [symmetry; exact Hin|].
        pose proof (tiled_lower _ _ Htiled) as Hlow'.
        rewrite List.Forall_forall in Hlow'. specialize (Hlow' b Hin). simpl in Hlow'. lia. }
      subst t. cbn [totalRows] in Hfit. pose proof (totalRows_nonneg todo) as Htot.
      rewrite wrap64_in_range
        by (unfold in_int64, int64_min, int64_max in *; lia).
      destruct (IH todo coming (next + len (ds_queryData b)))
        as (emitted & kept & todo' & Hd & Htodo & Hk & Hne');
        [exact Hsorted' | exact Htiled | exact Hrows'
        | eapply Permutation_cons_inv; exact Hperm | lia | lia |].
      rewrite Hd. exists (b :: emitted), kept, todo'. cbn [totalRows app].
      rewrite Z.add_assoc.
      split; [reflexivity|]. split; [rewrite Htodo; reflexivity|].
      split; [exact Hk | exact Hne'].
    + exists [], (b :: buf), todo. simpl. rewrite Z.add_0_r.
      split; [reflexivity|]. split; [reflexivity|]. split; [exact Hperm|].
      rewrite List.Forall_forall in Hlow. specialize (Hlow b Hin). simpl in Hlow.
      constructor; [lia|].
      eapply Forall_impl; [exact Hb|]. intros x Hx. unfold offsetLe in Hx. simpl. lia.
Qed.

Section StreamerCompletion.

Variable SortFunc : list decodedSegment -> list decodedSegment.
Hypothesis SortFunc_sorts : sortsByRowOffset SortFunc.
Variable maxOutOfOrder : Z.
Variable segments : list decodedSegment.
Hypothesis segments_wellFormed : wellFormedSegments segments.

Let receive' := receive SortFunc maxOutOfOrder.
Let run := startOrderedSegmentStreamer SortFunc maxOutOfOrder.

Lemma owed_segments (done todo : list decodedSegment) :
  segments = done ++ todo ->
  tiled (totalRows done) todo /\ Forall (fun s => hasRows s = true) todo /\
  0 <= totalRows done /\ totalRows done + totalRows todo <= int64_max.
Proof.
  intros Heq. destruct segments_wellFormed as (Ht & Hr & Hfit). rewrite Heq in *.
  apply tiled_app in Ht. destruct Ht as [_ Ht]. simpl in Ht.
  rewrite totalRows_app in Hfit.
  split; [exact Ht|]. split.
  - rewrite List.Forall_forall in *. intros x Hx. apply Hr. apply in_or_app. right. exact Hx.
  - split; [apply totalRows_nonneg | exact Hfit].
Qed.

Lemma receive_completion (r : streamerRun) (segment : decodedSegment)
    (coming : list decodedSegment) :
  completionInvariant segments r (segment :: coming) ->
  completionInvariant segments (receive' r segment) coming.
Proof.
  intros (todo & Hsegs & Hnext & Hperm & Hbuf).
  destruct (owed_segments _ _ Hsegs) as (Htiled & Hrows & Hpos & Hfit).
  unfold receive', receive.
  destruct (Z.eqb_spec (nextExpectedOffset (locals r)) (ds_rowOffset segment)) as [Heq|Hne];
    cbn [negb].
  - destruct (SortFunc_sorts (buffer (locals r) ++ [segment])) as [Hsp Hss].
    destruct (drain_tiled (SortFunc (buffer (locals r) ++ [segment])) todo coming
                (nextExpectedOffset (locals r)))
      as (emitted & kept & todo' & Hd & Htodo & Hk & Hne');
      [exact Hss | rewrite Hnext; exact Htiled | exact Hrows
      | rewrite Hsp, <- app_assoc; exact Hperm | lia | lia |].
    rewrite Hd. exists todo'. cbn [sent locals buffer nextExpectedOffset].
    split; [rewrite <- app_assoc, <- Htodo; exact Hsegs|].
    split; [rewrite totalRows_app, Hnext; reflexivity|].
    split; [exact Hk | exact Hne'].
  - exists todo. cbn [sent locals buffer nextExpectedOffset].
    split; [exact Hsegs|]. split; [exact Hnext|].
    split; [rewrite <- app_assoc; exact Hperm|].
    apply Forall_app. split; [exact Hbuf|]. constructor; [congruence | constructor].
Qed.

Lemma run_completion (arrivals : list decodedSegment) :
  forall r,
    completionInvariant segments r arrivals ->
    completionInvariant segments (fold_left receive' arrivals r) [].
Proof.
  induction arrivals as [|segment arrivals IH]; intros r Hinv; [exact Hinv|].
  cbn [fold_left]. apply IH. apply receive_completion. exact Hinv.
Qed.

(** The segments of a well-formed result set are all sent, in their
    order, whatever order they arrive in. *)
Lemma run_completes (arrivals : list decodedSegment) :
  Permutation arrivals segments ->
  sent (run arrivals) = segments /\ buffer (locals (run arrivals)) = [].
Proof.
  intros Hperm.
  assert (Hinv : completionInvariant segments (run arrivals) []).
  { unfold run, startOrderedSegmentStreamer. apply run_completion.
    exists segments. simpl.
    split; [reflexivity|]. split; [reflexivity|]. split; [exact Hperm | constructor]. }
  destruct Hinv as (todo & Hsegs & Hnext & Hbuf & Hne).
  rewrite app_nil_r in Hbuf.
  destruct (owed_segments _ _ Hsegs) as (Htiled & _).
  destruct todo as [|t todo].
  - rewrite app_nil_r in Hsegs. split; [symmetry; exact Hsegs|].
    apply Permutation_nil. symmetry. exact Hbuf.
  - exfalso. destruct Htiled as [Ht _].
    assert (Hin : In t (buffer (locals (run arrivals))))
      by (eapply Permutation_in; [symmetry; exact Hbuf | left; reflexivity]).
    rewrite List.Forall_forall in Hne. apply (Hne t Hin). rewrite Hnext. exact Ht.
Qed.

(** X1.  Whatever order the segments of a well-formed result set are
    decoded in, the streamer sends all of them, in [rowOffset] order, and
    its buffer is empty when [decodedSegments] is closed. *)
Theorem streamer_completes_on_tiled_segments (arrivals : list decodedSegment) :
  Permutation arrivals segments ->
  sent (run arrivals) = segments /\
  buffer (locals (run arrivals)) = [] /\
  rowBatches (run arrivals) = map ds_queryData segments.
Proof.
  intros Hperm.
  assert (Hinv : completionInvariant segments (run arrivals) []).
  { unfold run, startOrderedSegmentStreamer. apply run_completion.
    exists segments. simpl.
    split; [reflexivity|]. split; [reflexivity|]. split; [exact Hperm | constructor]. }
  destruct Hinv as (todo & Hsegs & Hnext & Hbuf & Hne).
  rewrite app_nil_r in Hbuf.
  destruct (owed_segments _ _ Hsegs) as (Htiled & _).
  assert (Htodo : todo = []).
  { destruct todo as [|t todo]; [reflexivity|]. exfalso.
    destruct Htiled as [Ht _].
    assert (Hin : In t (buffer (locals (run arrivals))))
      by (eapply Permutation_in; [symmetry; exact Hbuf | left; reflexivity]).
    rewrite List.Forall_forall in Hne. apply (Hne t Hin). rewrite Hnext. exact Ht. }
  subst todo. rewrite app_nil_r in Hsegs.
  assert (Hsent : sent (run arrivals) = segments) by (symmetry; exact Hsegs).
  split; [exact Hsent|]. split.
  - apply Permutation_nil. symmetry. exact Hbuf.
  - unfold rowBatches. rewrite Hsent. reflexivity.
Qed.

End StreamerCompletion.

(** *** The merge sort is one such sort; on distinct offsets all agree *)

Lemma offsetLe_transitive : Transitive offsetLe.
Proof. intros a b c. unfold offsetLe. lia. Qed.

Lemma offsetLe_total : Total offsetLe.
Proof. intros a b. unfold offsetLe. lia. Qed.

Lemma offsetLt_transitive : Transitive offsetLt.
Proof. intros a b c. unfold offsetLt. lia. Qed.

Lemma sortByRowOffset_sorts : sortsByRowOffset sortByRowOffset.
Proof.
  intros l. unfold sortByRowOffset. split.
  - apply merge_sort_Permutation.
  - apply (@StronglySorted_merge_sort _ offsetLe _ offsetLe_transitive offsetLe_total).
Qed.

Lemma strictlyIncreasing_sorted (l : list decodedSegment) :
  strictlyIncreasing l = true -> StronglySorted offsetLt l.
Proof.
  intros H. apply (@Sorted_StronglySorted _ offsetLt offsetLt_transitive).
  induction l as [|a l IH]; [constructor|].
  destruct l as [|b l]; [repeat constructor|].
  cbn [strictlyIncreasing] in H. apply andb_true_iff in H. destruct H as [Hab H].
  constructor; [apply IH; exact H|].
  constructor. unfold offsetLt. lia.
Qed.

Lemma sorts_agree (SortFunc : list decodedSegment -> list decodedSegment)
    (l : list decodedSegment) :
  sortsByRowOffset SortFunc ->
  strictlyIncreasing (sortByRowOffset l) = true ->
  SortFunc l = sortByRowOffset l.
Proof.
  intros Hs Hstrict. destruct (Hs l) as [Hp Hsorted].
  apply sorted_permutation_unique.
  - apply strictlyIncreasing_sorted. exact Hstrict.
  - exact Hsorted.
  - rewrite Hp. symmetry. apply sortByRowOffset_sorts.
Qed.

Lemma receive_agrees (SortFunc : list decodedSegment -> list decodedSegment)
    (maxOutOfOrder : Z) (r : streamerRun) (segment : decodedSegment) :
  sortsByRowOffset SortFunc ->
  strictlyIncreasing (sortByRowOffset (buffer (locals r) ++ [segment])) = true ->
  receive SortFunc maxOutOfOrder r segment = receive sortByRowOffset maxOutOfOrder r segment.
Proof.
  intros Hs Hstrict. unfold receive. rewrite (sorts_agree SortFunc _ Hs Hstrict). reflexivity.
Qed.

Lemma run_agrees (SortFunc : list decodedSegment -> list decodedSegment)
    (maxOutOfOrder : Z) (arrivals : list decodedSegment) :
  sortsByRowOffset SortFunc ->
  forall r,
    sortsAreForced maxOutOfOrder arrivals r = true ->
    fold_left (receive SortFunc maxOutOfOrder) arrivals r
    = fold_left (receive sortByRowOffset maxOutOfOrder) arrivals r.
Proof.
  intros Hs. induction arrivals as [|segment arrivals IH]; intros r H; [reflexivity|].
  cbn [sortsAreForced] in H. apply andb_true_iff in H. destruct H as [H1 H2].
  cbn [fold_left]. rewrite (receive_agrees SortFunc maxOutOfOrder r segment Hs H1).
  apply IH. exact H2.
Qed.

Lemma inOrder_wellFormed : wellFormedSegments inOrder_01234.
Proof.
  unfold wellFormedSegments. split; [|split].
  - simpl. repeat split.
  - repeat (apply List.Forall_cons; [reflexivity|]). apply List.Forall_nil.
  - vm_compute. discriminate.
Qed.

Lemma arrival_permutes_inOrder : Permutation arrival_20143 inOrder_01234.
Proof.
  replace inOrder_01234 with (sortByRowOffset arrival_20143) by (vm_compute; reflexivity).
  symmetry. apply sortByRowOffset_sorts.
Qed.

(** Tiled segments that all hold rows have strictly increasing offsets. *)
Lemma tiled_strictlyIncreasing (l : list decodedSegment) :
  forall n, tiled n l -> Forall (fun s => hasRows s = true) l -> strictlyIncreasing l = true.
Proof.
  induction l as [|a l IH]; intros n Ht Hr; [reflexivity|].
  destruct l as [|b l]; [reflexivity|].
  destruct Ht as [Ha Ht]. pose proof Ht as [Hb _].
  pose proof (hasRows_len _ (List.Forall_inv Hr)) as Hlen.
  cbn [strictlyIncreasing]. apply andb_true_iff. split.
  - apply Z.ltb_lt. lia.
  - eapply IH; [exact Ht | exact (List.Forall_inv_tail Hr)].
Qed.

Lemma len_allRows (l : list decodedSegment) : len (allRows l) = totalRows l.
Proof.
  unfold allRows, len. induction l as [|s l IH]; [reflexivity|].
  cbn [map concat totalRows]. rewrite length_app, Nat2Z.inj_add, IH. reflexivity.
Qed.

Lemma allRows_nil_filter (l : list decodedSegment) :
  allRows l = [] -> List.filter hasRows l = [].
Proof.
  unfold allRows. induction l as [|s l IH]; [reflexivity|].
  cbn [map concat]. intros H. apply app_eq_nil in H. destruct H as [Hs Hl].
  cbn [List.filter]. unfold hasRows at 1. rewrite Hs. apply IH. exact Hl.
Qed.

Lemma filter_app_list {A : Type} (f : A -> bool) (l1 l2 : list A) :
  List.filter f (l1 ++ l2) = List.filter f l1 ++ List.filter f l2.
Proof.
  induction l1 as [|x l1 IH]; [reflexivity|].
  cbn [app List.filter]. destruct (f x); [cbn [app]; rewrite IH|]; auto.
Qed.

Section StreamerOrder.

Variable SortFunc : list decodedSegment -> list decodedSegment.
Hypothesis SortFunc_sorts : sortsByRowOffset SortFunc.
Variable maxOutOfOrder : Z.

Let run := startOrderedSegmentStreamer SortFunc maxOutOfOrder.

(** C1, amended.  Take any arrival order of decoded segments (with fewer
    rows in all than an [int64] counts), and the streamer's run until
    [decodedSegments] is closed.  Every segment sent was sent at the offset
    expected when it was sent, which starts at zero and advances by the rows
    sent: the segments sent are tiled from zero.  Their offsets never
    decrease; they increase strictly between segments that hold rows, and
    between all segments sent when no decoded segment is empty.  The
    segments sent and the segments still buffered are the segments received.
    The rows sent, batch after batch, are the rows of the received segments
    sorted by [rowOffset] exactly when no rows are left in the buffer.  When
    the decoded segments are those of a well-formed result set (non-empty
    segments that tile the rows from offset zero), in whatever order they
    arrive, every one of them is sent, the buffer ends empty, the offsets
    increase strictly, and the rows sent are the rows of the sorted
    segments. *)
Theorem streamer_emits_in_rowOffset_order (arrivals : list decodedSegment) :
  totalRows arrivals <= int64_max ->
  let r := run arrivals in
  tiled 0 (sent r) /\
  nextExpectedOffset (locals r) = totalRows (sent r) /\
  StronglySorted offsetLe (sent r) /\
  StronglySorted offsetLt (List.filter hasRows (sent r)) /\
  (Forall (fun s => hasRows s = true) arrivals -> strictlyIncreasing (sent r) = true) /\
  Permutation (sent r ++ buffer (locals r)) arrivals /\
  (concat (rowBatches r) = allRows (SortFunc arrivals) <-> allRows (buffer (locals r)) = []) /\
  (forall segments,
     wellFormedSegments segments -> Permutation arrivals segments ->
     sent r = segments /\
     buffer (locals r) = [] /\
     strictlyIncreasing (sent r) = true /\
     concat (rowBatches r) = allRows (SortFunc arrivals)).
Proof.
  intros Hfit r.
  destruct (run_streamerInvariant SortFunc SortFunc_sorts maxOutOfOrder arrivals Hfit)
    as (Hperm & Htiled & Hnext).
  fold run in Hperm, Htiled, Hnext. fold r in Hperm, Htiled, Hnext.
  destruct (SortFunc_sorts arrivals) as [Hsp Hss].
  assert (Hrows : concat (rowBatches r) = allRows (sent r)) by reflexivity.
  assert (Hempty : allRows (buffer (locals r)) = [] ->
                   allRows (sent r) = allRows (SortFunc arrivals)).
  { intros Hbuf.
    rewrite <- (allRows_filter (sent r)), <- (allRows_filter (SortFunc arrivals)).
    f_equal. symmetry. apply sorted_permutation_unique.
    - eapply tiled_filter_sorted. exact Htiled.
    - apply filter_StronglySorted. exact Hss.
    - rewrite (filter_Permutation hasRows _ _ Hsp).
      rewrite <- (filter_Permutation hasRows _ _ Hperm).
      rewrite filter_app_list, (allRows_nil_filter _ Hbuf), app_nil_r. reflexivity. }
  split; [exact Htiled|].
  split; [exact Hnext|].
  split; [eapply tiled_sorted; exact Htiled|].
  split; [eapply tiled_filter_sorted; exact Htiled|].
  split.
  { intros Hall. eapply tiled_strictlyIncreasing; [exact Htiled|].
    rewrite List.Forall_forall in *. intros x Hx. apply Hall.
    eapply Permutation_in; [exact Hperm|]. apply in_or_app. left. exact Hx. }
  split; [exact Hperm|].
  split.
  { rewrite Hrows. split; [|exact Hempty].
    intros Heq.
    assert (Hlen : totalRows (buffer (locals r)) = 0).
    { pose proof (totalRows_Permutation _ _ Hperm) as H1.
      pose proof (totalRows_Permutation _ _ Hsp) as H2.
      rewrite totalRows_app in H1.
      rewrite <- (len_allRows (sent r)), Heq, len_allRows in H1. lia. }
    rewrite <- len_allRows in Hlen. unfold len in Hlen.
    destruct (allRows (buffer (locals r))); [reflexivity | simpl in Hlen; lia]. }
  intros segments Hwf Hsegs.
  destruct (run_completes SortFunc SortFunc_sorts maxOutOfOrder segments Hwf arrivals Hsegs)
    as [Hsent Hbuf].
  fold run in Hsent, Hbuf. fold r in Hsent, Hbuf.
  split; [exact Hsent|]. split; [exact Hbuf|].
  split.
  { rewrite Hsent. destruct Hwf as (Ht & Hr & _).
    eapply tiled_strictlyIncreasing; [exact Ht | exact Hr]. }
  rewrite Hrows. apply Hempty. rewrite Hbuf. reflexivity.
Qed.

End StreamerOrder.

Lemma streamer_emits_in_rowOffset_order_witness :
  sent (startOrderedSegmentStreamer sortByRowOffset 10 arrival_20143) = inOrder_01234 /\
  buffer (locals (startOrderedSegmentStreamer sortByRowOffset 10 arrival_20143)) = [] /\
  strictlyIncreasing (sent (startOrderedSegmentStreamer sortByRowOffset 10 arrival_20143))
    = true /\
  concat (rowBatches (startOrderedSegmentStreamer sortByRowOffset 10 arrival_20143))
    = allRows (sortByRowOffset arrival_20143).
Proof.
  assert (Hfit : totalRows arrival_20143 <= int64_max) by (vm_compute; discriminate).
  destruct (streamer_emits_in_rowOffset_order sortByRowOffset sortByRowOffset_sorts 10
              arrival_20143 Hfit) as (_ & _ & _ & _ & _ & _ & _ & H).
  exact (H inOrder_01234 inOrder_wellFormed arrival_permutes_inOrder).
Defined.

(** C1, as the claim states it, fails in two ways.  Segments at the
    offsets 0, 2 and 3 (a gap at offset 1), with a bound of 10: the streamer
    sends the first, keeps the other two buffered, publishes no error, and
    ends when [decodedSegments] is closed, so the rows sent are not the rows
    of all the decoded segments.  An empty segment at offset 0 followed by a
    segment at offset 0: both are sent, at the same offset, so the offsets
    of the batches do not increase strictly. *)
Lemma streamer_drops_buffered_rows_counterexample :
  (let r := startOrderedSegmentStreamer sortByRowOffset 10 [oneRow 0; oneRow 2; oneRow 3] in
   published r = [] /\
   sent r = [oneRow 0] /\
   buffer (locals r) = [oneRow 2; oneRow 3] /\
   concat (rowBatches r) <> allRows (sortByRowOffset [oneRow 0; oneRow 2; oneRow 3])) /\
  (let r := startOrderedSegmentStreamer sortByRowOffset 10 [emptySegment 0; oneRow 0] in
   published r = [] /\
   sent r = [emptySegment 0; oneRow 0] /\
   buffer (locals r) = [] /\
   map ds_rowOffset (sent r) = [0; 0] /\
   strictlyIncreasing (sent r) = false).
Proof.
  split; cbn zeta.
  - split; [vm_compute; reflexivity|]. split; [vm_compute; reflexivity|].
    split; [vm_compute; reflexivity|]. vm_compute. discriminate.
  - repeat split; vm_compute; reflexivity.
Qed.

Example streamer_run_20143 :
  rowBatches (startOrderedSegmentStreamer sortByRowOffset 10 arrival_20143)
  = map ds_queryData inOrder_01234.
Proof. vm_compute. reflexivity. Qed.

(** *** The out-of-order error *)

(** C2, as the claim states its example, fails: with a bound of 2 the
    arrival order 2, 0, 1, 4, 3 publishes no error (no more than one segment
    is ever buffered out of order) and all five segments are sent in
    order. *)
Lemma streamer_bound_2_counterexample :
  published (startOrderedSegmentStreamer sortByRowOffset 2 arrival_20143) = [] /\
  sent (startOrderedSegmentStreamer sortByRowOffset 2 arrival_20143) = inOrder_01234.
Proof. split; vm_compute; reflexivity. Qed.

(** C2, amended.  On receiving a segment whose [rowOffset] differs from
    the expected offset, the streamer appends it and, when the buffer then
    holds at least [max_out_of_order_segments] segments (in particular
    exactly that many), publishes the all-N-out-of-order error; it publishes
    nothing when the offset is the expected one or the buffer stays below
    the bound.  For five one-row segments decoded in the order 2, 0, 1, 4, 3
    a bound of 10 and a bound of 2 both send the five segments in order
    without the error; a bound of 1 publishes it (at the arrivals of 2 and
    of 4). *)
Theorem streamer_out_of_order_error
    (SortFunc : list decodedSegment -> list decodedSegment)
    (maxOutOfOrder : Z) (r : streamerRun) (segment : decodedSegment) :
  sortsByRowOffset SortFunc ->
  (ds_rowOffset segment <> nextExpectedOffset (locals r) ->
   len (buffer (locals r) ++ [segment]) >= maxOutOfOrder ->
   published (receive SortFunc maxOutOfOrder r segment)
     = published r ++ [outOfOrderError (len (buffer (locals r) ++ [segment])) maxOutOfOrder] /\
   buffer (locals (receive SortFunc maxOutOfOrder r segment))
     = buffer (locals r) ++ [segment] /\
   sent (receive SortFunc maxOutOfOrder r segment) = sent r) /\
  (ds_rowOffset segment = nextExpectedOffset (locals r) \/
   len (buffer (locals r) ++ [segment]) < maxOutOfOrder ->
   published (receive SortFunc maxOutOfOrder r segment) = published r) /\
  (published (startOrderedSegmentStreamer SortFunc 10 arrival_20143) = [] /\
   sent (startOrderedSegmentStreamer SortFunc 10 arrival_20143) = inOrder_01234) /\
  (published (startOrderedSegmentStreamer SortFunc 2 arrival_20143) = [] /\
   sent (startOrderedSegmentStreamer SortFunc 2 arrival_20143) = inOrder_01234) /\
  (published (startOrderedSegmentStreamer SortFunc 1 arrival_20143)
     = [outOfOrderError 1 1; outOfOrderError 1 1]).
Proof.
  intros Hs. split; [|split].
  - intros Hne Hfull. unfold receive.
    destruct (Z.eqb_spec (nextExpectedOffset (locals r)) (ds_rowOffset segment)) as [Heq|_];
      [congruence|]. cbn [negb published locals buffer sent].
    destruct (Z.geb_spec (len (buffer (locals r) ++ [segment])) maxOutOfOrder); [|lia].
    auto.
  - intros Hcase. unfold receive.
    destruct (Z.eqb_spec (nextExpectedOffset (locals r)) (ds_rowOffset segment)) as [Heq|Hne];
      cbn [negb].
    + destruct (drain _ _) as [[emitted next'] kept]. reflexivity.
    + destruct Hcase as [Heq|Hlt]; [congruence|]. cbn [published].
      destruct (Z.geb_spec (len (buffer (locals r) ++ [segment])) maxOutOfOrder); [lia|].
      apply app_nil_r.
  - unfold startOrderedSegmentStreamer.
    fold startOfRun.
    rewrite !(run_agrees SortFunc _ arrival_20143 Hs startOfRun)
      by (vm_compute; reflexivity).
    repeat split; vm_compute; reflexivity.
Qed.

Lemma streamer_out_of_order_error_witness :
  published (receive sortByRowOffset 1 startOfRun (oneRow 2))
  = published startOfRun ++ [outOfOrderError (len (buffer (locals startOfRun) ++ [oneRow 2])) 1].
Proof.
  apply (streamer_out_of_order_error sortByRowOffset 1 startOfRun (oneRow 2)
           sortByRowOffset_sorts).
  - discriminate.
  - vm_compute. discriminate.
Defined.

(** ** The throttle *)

Section PipelineProperties.

Variable SortFunc : list decodedSegment -> list decodedSegment.
Hypothesis SortFunc_sorts : sortsByRowOffset SortFunc.
Variable maxOutOfOrder : nat.

Let step' := step SortFunc maxOutOfOrder.
Let runPipeline' := runPipeline SortFunc maxOutOfOrder.







End PipelineProperties.



Example schedule_run :
  option_map (fun p => (spoolingRowsChannel p, segmentThrottleCh p, tokensTaken p, resident p))
    (runPipeline sortByRowOffset 2 schedule startPipeline)
  = Some (map ds_queryData [oneRow 0; oneRow 1; oneRow 2], 0%nat, 3%nat, 0%nat) /\
  runPipeline sortByRowOffset 2
    [enqueue (queued 0 spooledSegment 0); enqueue (queued 1 inlineSegment 1);
     enqueue (queued 2 spooledSegment 2); dispatch; dispatch; dispatch] startPipeline
  = None.
Proof. split; vm_compute; reflexivity. Qed.

(** ** The streamer inside the pipeline is the streamer run alone *)

Section PipelineStreamer.

Variable SortFunc : list decodedSegment -> list decodedSegment.
Variable maxOutOfOrder : nat.

(** From the head of the inner loop, with enough tokens in the channel, the
    pipeline's moves [emit], [release], ..., [settle] do what [drain]
    computes. *)
Lemma runPipeline_drain (buf : list decodedSegment) :
  forall queue tokens flying next rows errs adm pushed taken emitted next' kept,
    drain next buf = (emitted, next', kept) ->
    (length emitted <= tokens)%nat ->
    runPipeline SortFunc maxOutOfOrder (drainMoves (length emitted))
      (mkPipeline queue tokens flying draining (mkStreamer buf next) rows errs
         adm pushed taken)
    = Some (mkPipeline queue (tokens - length emitted) flying waiting
              (mkStreamer kept next') (rows ++ map ds_queryData emitted) errs
              adm pushed (taken + length emitted)).
Proof.
  induction buf as [|s buf IH];
    intros queue tokens flying next rows errs adm pushed taken emitted next' kept Hd Hlen.
  - cbn [drain] in Hd. injection Hd as <- <- <-. simpl.
    rewrite Nat.sub_0_r, Nat.add_0_r, app_nil_r. reflexivity.
  - cbn [drain] in Hd.
    destruct (ds_rowOffset s =? next) eqn:Hs.
    + destruct (drain (wrap64 (next + len (ds_queryData s))) buf) as [[e n] k] eqn:Hrest.
      injection Hd as <- <- <-.
      cbn [length] in *. destruct tokens as [|tokens]; [lia|].
      cbn [drainMoves runPipeline step phase strm buffer nextExpectedOffset
           segmentThrottleCh segmentsToProccess inFlight spoolingRowsChannel errorsCh
           admitted tokensPushed tokensTaken].
      rewrite Hs.
      cbn [runPipeline step phase strm buffer nextExpectedOffset
           segmentThrottleCh segmentsToProccess inFlight spoolingRowsChannel errorsCh
           admitted tokensPushed tokensTaken].
      rewrite (IH _ _ _ _ _ _ _ _ _ _ _ _ Hrest) by lia.
      cbn [map]. rewrite <- app_assoc. cbn [app].
      replace (S taken + length e)%nat with (taken + S (length e))%nat by lia.
      reflexivity.
    + injection Hd as <- <- <-. simpl. rewrite Hs.
      rewrite Nat.sub_0_r, Nat.add_0_r, app_nil_r. reflexivity.
Qed.

(** Receiving an in-flight segment moves the pipeline's streamer as
    [receive] moves the streamer run alone: same buffer and expected offset
    afterwards, the same rows sent, the same errors published, and one token
    taken per segment sent. *)
Lemma pipeline_receive (p : pipeline) (i : nat) (segment : decodedSegment)
    (r : streamerRun) :
  phase p = waiting -> inFlight p !! i = Some segment -> locals r = strm p ->
  let r' := receive SortFunc (Z.of_nat maxOutOfOrder) r segment in
  let n := (length (sent r') - length (sent r))%nat in
  (n <= segmentThrottleCh p)%nat ->
  exists p',
    runPipeline SortFunc maxOutOfOrder
      (receiveMoves i (nextExpectedOffset (strm p) =? ds_rowOffset segment) n) p
    = Some p' /\
    phase p' = waiting /\
    strm p' = locals r' /\
    map ds_queryData (sent r) ++ drop (length (spoolingRowsChannel p)) (spoolingRowsChannel p')
      = rowBatches r' /\
    published r ++ drop (length (errorsCh p)) (errorsCh p') = published r' /\
    (segmentThrottleCh p' + n = segmentThrottleCh p)%nat /\
    inFlight p' = delete i (inFlight p).
Proof.
  intros Hph Hi Hloc r' n Htokens. subst r' n.
  destruct p as [queue tokens flying ph st rows errs adm pushed taken].
  cbn [phase inFlight strm segmentThrottleCh spoolingRowsChannel errorsCh] in *.
  subst ph. unfold receive in *. rewrite Hloc in *. unfold receiveMoves, rowBatches.
  destruct (nextExpectedOffset st =? ds_rowOffset segment) eqn:Hexp; cbn [negb] in *.
  - destruct (drain (nextExpectedOffset st) (SortFunc (buffer st ++ [segment])))
      as [[emitted next'] kept] eqn:Hd.
    cbn [sent locals published] in *.
    rewrite length_app in Htokens.
    replace (length (sent r) + length emitted - length (sent r))%nat
      with (length emitted) in Htokens by lia.
    rewrite length_app.
    replace (length (sent r) + length emitted - length (sent r))%nat
      with (length emitted) by lia.
    cbn [runPipeline step phase inFlight strm buffer nextExpectedOffset
         segmentThrottleCh segmentsToProccess spoolingRowsChannel errorsCh
         admitted tokensPushed tokensTaken].
    rewrite Hi, Hexp. cbn [negb].
    rewrite (runPipeline_drain _ _ _ _ _ _ _ _ _ _ _ _ _ Hd Htokens).
    eexists. split; [reflexivity|].
    cbn [phase strm spoolingRowsChannel errorsCh segmentThrottleCh inFlight].
    rewrite drop_app_length, drop_all, app_nil_r, map_app.
    repeat split; try reflexivity. lia.
  - cbn [sent locals published] in *.
    cbn [runPipeline step phase inFlight strm buffer nextExpectedOffset
         segmentThrottleCh segmentsToProccess spoolingRowsChannel errorsCh
         admitted tokensPushed tokensTaken].
    rewrite Hi, Hexp. cbn [negb].
    eexists. split; [reflexivity|].
    cbn [phase strm spoolingRowsChannel errorsCh segmentThrottleCh inFlight].
    rewrite drop_all, app_nil_r, drop_app_length, Nat.sub_diag.
    repeat split; try reflexivity. lia.
Qed.

End PipelineStreamer.

(* ===================================================================== *)
(** * Part III: further properties of the code *)
(* ===================================================================== *)

(** ** The ordered streamer, continued *)

Lemma streamer_completes_on_tiled_segments_witness :
  sent (startOrderedSegmentStreamer sortByRowOffset 10 arrival_20143) = inOrder_01234 /\
  buffer (locals (startOrderedSegmentStreamer sortByRowOffset 10 arrival_20143)) = [] /\
  rowBatches (startOrderedSegmentStreamer sortByRowOffset 10 arrival_20143)
    = map ds_queryData inOrder_01234.
Proof.
  exact (streamer_completes_on_tiled_segments sortByRowOffset sortByRowOffset_sorts 10
           inOrder_01234 inOrder_wellFormed arrival_20143 arrival_permutes_inOrder).
Defined.

(** With a stale segment in a sorted buffer the inner loop sends nothing. *)
Lemma drain_blocked (buf : list decodedSegment) (next : Z) :
  StronglySorted offsetLe buf ->
  (exists s, In s buf /\ ds_rowOffset s < next) ->
  drain next buf = ([], next, buf).
Proof.
  intros Hsorted (s & Hin & Hlt).
  destruct buf as [|b buf]; [contradiction|].
  apply StronglySorted_inv in Hsorted. destruct Hsorted as [_ Hb].
  assert (Hbs : ds_rowOffset b <= ds_rowOffset s).
  { destruct Hin as [<-|Hin]; [lia|].
    rewrite List.Forall_forall in Hb. apply (Hb s Hin). }
  cbn [drain]. destruct (Z.eqb_spec (ds_rowOffset b) next); [lia | reflexivity].
Qed.

Section StaleSegments.

Variable SortFunc : list decodedSegment -> list decodedSegment.
Hypothesis SortFunc_sorts : sortsByRowOffset SortFunc.
Variable maxOutOfOrder : Z.

Let receive' := receive SortFunc maxOutOfOrder.

Lemma receive_stalled (r : streamerRun) (segment : decodedSegment) :
  staleBuffered r ->
  staleBuffered (receive' r segment) /\
  sent (receive' r segment) = sent r /\
  nextExpectedOffset (locals (receive' r segment)) = nextExpectedOffset (locals r) /\
  Permutation (buffer (locals (receive' r segment))) (buffer (locals r) ++ [segment]).
Proof.
  intros (s & Hin & Hlt). unfold receive', receive.
  destruct (negb (nextExpectedOffset (locals r) =? ds_rowOffset segment)).
  - cbn [sent locals buffer nextExpectedOffset]. split; [|auto].
    exists s. cbn [locals buffer nextExpectedOffset]. split; [|exact Hlt].
    apply in_or_app. left. exact Hin.
  - destruct (SortFunc_sorts (buffer (locals r) ++ [segment])) as [Hperm Hsorted].
    assert (Hs : In s (SortFunc (buffer (locals r) ++ [segment]))).
    { eapply Permutation_in; [symmetry; exact Hperm|]. apply in_or_app. left. exact Hin. }
    rewrite (drain_blocked _ _ Hsorted) by (exists s; split; assumption).
    cbn [sent locals buffer nextExpectedOffset]. rewrite app_nil_r.
    split; [|auto]. exists s. cbn [locals buffer nextExpectedOffset]. split; assumption.
Qed.

(** X2.  Once a segment that starts below the expected offset is received
    (a duplicate of a segment already sent, say) the stream is stalled for
    good: whatever arrives afterwards, no further rows are sent, the
    expected offset stays where it is, and every arrival stays buffered. *)
Theorem streamer_stalls_on_stale_segment
    (r : streamerRun) (segment : decodedSegment) (arrivals : list decodedSegment) :
  ds_rowOffset segment < nextExpectedOffset (locals r) ->
  sent (fold_left receive' (segment :: arrivals) r) = sent r /\
  nextExpectedOffset (locals (fold_left receive' (segment :: arrivals) r))
    = nextExpectedOffset (locals r) /\
  Permutation (buffer (locals (fold_left receive' (segment :: arrivals) r)))
    (buffer (locals r) ++ segment :: arrivals).
Proof.
  intros Hlt. cbn [fold_left].
  assert (Hfirst : staleBuffered (receive' r segment) /\
                   sent (receive' r segment) = sent r /\
                   nextExpectedOffset (locals (receive' r segment))
                     = nextExpectedOffset (locals r) /\
                   buffer (locals (receive' r segment)) = buffer (locals r) ++ [segment]).
  { unfold receive', receive.
    destruct (Z.eqb_spec (nextExpectedOffset (locals r)) (ds_rowOffset segment)); [lia|].
    cbn [negb sent locals buffer nextExpectedOffset]. split; [|auto].
    exists segment. cbn [locals buffer nextExpectedOffset]. split; [|exact Hlt].
    apply in_or_app. right. left. reflexivity. }
  destruct Hfirst as (Hstale & Hsent & Hnext & Hbuf).
  rewrite <- Hsent, <- Hnext.
  replace (buffer (locals r) ++ segment :: arrivals)
    with (buffer (locals (receive' r segment)) ++ arrivals)
    by (rewrite Hbuf, <- app_assoc; reflexivity).
  set (r1 := receive' r segment) in *. clearbody r1. clear Hsent Hnext Hbuf Hlt r.
  revert r1 Hstale.
  induction arrivals as [|a arrivals IH]; intros r0 Hstale.
  - cbn [fold_left]. rewrite app_nil_r. auto.
  - cbn [fold_left].
    destruct (receive_stalled r0 a Hstale) as (Hstale' & Hsent' & Hnext' & Hbuf').
    destruct (IH _ Hstale') as (H1 & H2 & H3).
    split; [congruence|]. split; [congruence|].
    rewrite H3, Hbuf', <- app_assoc. reflexivity.
Qed.

End StaleSegments.

Lemma streamer_stalls_on_stale_segment_witness :
  sent (fold_left (receive sortByRowOffset 10) (oneRow 0 :: [oneRow 1; oneRow 2])
          afterFirstSegment)
  = sent afterFirstSegment.
Proof.
  apply (streamer_stalls_on_stale_segment sortByRowOffset sortByRowOffset_sorts 10
           afterFirstSegment (oneRow 0) [oneRow 1; oneRow 2]).
  vm_compute. reflexivity.
Defined.

(** ** The throttle, continued *)

Section LeakedTokens.

Variable SortFunc : list decodedSegment -> list decodedSegment.
Variable maxOutOfOrder : nat.

Lemma step_leaked (m : move) (p p' : pipeline) :
  allTokensLeaked maxOutOfOrder p -> step SortFunc maxOutOfOrder m p = Some p' ->
  allTokensLeaked maxOutOfOrder p' /\
  spoolingRowsChannel p' = spoolingRowsChannel p /\
  admitted p' = admitted p.
Proof.
  unfold allTokensLeaked. intros (Hfull & Hfly & Hbuf & Hph) Hstep.
  destruct m as [segment| |i err|i| | |]; cbn [step] in Hstep.
  - injection Hstep as <-. simpl. auto.
  - destruct (segmentsToProccess p); [discriminate|].
    rewrite Hfull, Nat.ltb_irrefl in Hstep. discriminate.
  - rewrite Hfly in Hstep. destruct i; discriminate.
  - rewrite Hph, Hfly in Hstep. destruct i; discriminate.
  - rewrite Hph in Hstep. discriminate.
  - rewrite Hph in Hstep. discriminate.
  - rewrite Hph in Hstep. discriminate.
Qed.

(** X3.  The throttle does not get back the token of a segment that is
    dropped on the way (one whose type is neither inline nor spooled, or
    one a worker failed on).  When the channel is full of such tokens, with
    no segment resident, the pipeline is stuck for good: whatever the
    goroutines try, no further segment is admitted and no rows are sent. *)
Theorem leaked_tokens_block_the_pipeline (moves : list move) :
  forall p p',
    allTokensLeaked maxOutOfOrder p ->
    runPipeline SortFunc maxOutOfOrder moves p = Some p' ->
    admitted p' = admitted p /\
    spoolingRowsChannel p' = spoolingRowsChannel p /\
    segmentThrottleCh p' = maxOutOfOrder /\
    step SortFunc maxOutOfOrder dispatch p' = None.
Proof.
  induction moves as [|m moves IH]; intros p p' Hleak Hrun; cbn [runPipeline] in Hrun.
  - injection Hrun as <-. destruct Hleak as (Hfull & _).
    split; [reflexivity|]. split; [reflexivity|]. split; [exact Hfull|].
    cbn [step]. destruct (segmentsToProccess p); [reflexivity|].
    rewrite Hfull, Nat.ltb_irrefl. reflexivity.
  - destruct (step SortFunc maxOutOfOrder m p) as [p1|] eqn:Hstep; [|discriminate].
    destruct (step_leaked m p p1 Hleak Hstep) as (Hleak1 & Hrows & Hadm).
    destruct (IH p1 p' Hleak1 Hrun) as (H1 & H2 & H3 & H4).
    split; [congruence|]. split; [congruence|]. split; assumption.
Qed.

End LeakedTokens.

Lemma leakingSchedule_runs :
  runPipeline sortByRowOffset 2 leakingSchedule startPipeline = Some leakedEnd.
Proof. vm_compute. reflexivity. Qed.

Lemma leakedEnd_leaked : allTokensLeaked 2 leakedEnd.
Proof. unfold allTokensLeaked. repeat split. Qed.

Lemma leaked_tokens_block_the_pipeline_witness :
  admitted leakedLater = admitted leakedEnd /\
  spoolingRowsChannel leakedLater = spoolingRowsChannel leakedEnd /\
  segmentThrottleCh leakedLater = 2%nat /\
  step sortByRowOffset 2 dispatch leakedLater = None.
Proof.
  exact (leaked_tokens_block_the_pipeline sortByRowOffset 2
           [enqueue (queued 3 inlineSegment 3)] leakedEnd leakedLater
           leakedEnd_leaked eq_refl).
Defined.

(** ** Header ingestion, continued *)

(** X4.  Taking in a 200 response changes no outbound header besides
    [Catalog], [Schema], [Session] and [Prepared-Statement] (so [User],
    [Authorization], [Source] and [Extra-Credential] stay as they are);
    [Set-Catalog] and [Set-Schema], when present, replace all values of
    their outbound header by the one value, and leave it alone when
    absent. *)
Theorem ingestion_replaces_catalog_and_schema
    (h : Header) (resp : Response) (turns : list selectCase) :
  StatusCode resp = 200 ->
  let h' := connHeaders (roundTrip (timerFired (doResponse resp) :: turns) h) in
  (forall key, ~ In key ingestedHeaders -> h' !! key = h !! key) /\
  (forall catalog, catalog <> "" ->
     Header_Get (respHeader resp) trinoSetCatalogHeader = catalog ->
     Header_Values h' trinoCatalogHeader = [catalog]) /\
  (Header_Get (respHeader resp) trinoSetCatalogHeader = "" ->
     Header_Values h' trinoCatalogHeader = Header_Values h trinoCatalogHeader) /\
  (forall schema, schema <> "" ->
     Header_Get (respHeader resp) trinoSetSchemaHeader = schema ->
     Header_Values h' trinoSchemaHeader = [schema]) /\
  (Header_Get (respHeader resp) trinoSetSchemaHeader = "" ->
     Header_Values h' trinoSchemaHeader = Header_Values h trinoSchemaHeader).
Proof.
  intros Hok h'. subst h'. rewrite roundTrip_statusOK by exact Hok. cbn [connHeaders].
  destruct (roundTripStatusOK_Catalog_Schema h resp) as [Hc Hs]. cbn zeta in Hc, Hs.
  split; [intros key Hkey; apply roundTripStatusOK_frame; exact Hkey|].
  split.
  { intros catalog Hne Hget. rewrite Hc, Hget.
    destruct (String.eqb_spec catalog ""); [contradiction | reflexivity]. }
  split; [intros Hget; rewrite Hc, Hget; reflexivity|].
  split.
  { intros schema Hne Hget. rewrite Hs, Hget.
    destruct (String.eqb_spec schema ""); [contradiction | reflexivity]. }
  intros Hget. rewrite Hs, Hget. reflexivity.
Qed.

Lemma ingestion_replaces_catalog_and_schema_witness :
  Header_Values
    (connHeaders (roundTrip [timerFired (doResponse useResponse)] sessionHeaders))
    trinoCatalogHeader = ["tpch"].
Proof.
  destruct (ingestion_replaces_catalog_and_schema sessionHeaders useResponse [] eq_refl)
    as (_ & H & _).
  apply H.
  - discriminate.
  - vm_compute. reflexivity.
Defined.

(** X5.  A 200 response that carries [Deallocated-Prepare: name] leaves no
    [Prepared-Statement] entry whose key is [name], not even the one the
    same response adds with [Added-Prepare], which is taken in first; the
    entries with other keys stay, in order. *)
Theorem deallocated_prepare_drops_statement
    (h : Header) (resp : Response) (name : string) (turns : list selectCase) :
  StatusCode resp = 200 ->
  name <> "" -> entryKey name = None ->
  Header_Get (respHeader resp) trinoDeallocatedPrepareHeader = name ->
  let h' := connHeaders (roundTrip (timerFired (doResponse resp) :: turns) h) in
  let added := Header_Get (respHeader resp) trinoAddedPrepareHeader in
  Header_Values h' preparedStatementHeader
    = List.filter (fun entry => negb (bool_decide (entryKey entry = Some name)))
        (Header_Values h preparedStatementHeader
           ++ (if String.eqb added "" then [] else [added])) /\
  Forall (fun entry => entryKey entry <> Some name)
    (Header_Values h' preparedStatementHeader).
Proof.
  intros Hok Hname Hkey Hdealloc h' added.
  assert (E : Header_Values h' preparedStatementHeader
              = List.filter (fun entry => negb (bool_decide (entryKey entry = Some name)))
                  (Header_Values h preparedStatementHeader
                     ++ (if String.eqb added "" then [] else [added]))).
  { subst h' added. rewrite roundTrip_statusOK by exact Hok. cbn [connHeaders].
    rewrite roundTripStatusOK_Prepared. cbn zeta. rewrite Hdealloc.
    destruct (String.eqb_spec name "") as [Habs|_]; [contradiction|].
    apply filter_ext_bool. intros entry. f_equal.
    destruct (HasPrefix entry (name +:+ "=")) eqn:Hp.
    - symmetry. apply bool_decide_eq_true. apply HasPrefix_entryKey; assumption.
    - symmetry. apply bool_decide_eq_false. intros Habs.
      apply (HasPrefix_entryKey name Hkey) in Habs. congruence. }
  split; [exact E|].
  rewrite E. apply List.Forall_forall. intros entry Hin.
  apply filter_In in Hin. destruct Hin as [_ Hin].
  apply negb_true_iff, bool_decide_eq_false in Hin. exact Hin.
Qed.

Lemma deallocated_prepare_drops_statement_witness :
  Header_Values
    (connHeaders
       (roundTrip [timerFired (doResponse addedAndDeallocatedResponse)] sessionHeaders))
    preparedStatementHeader
  = List.filter (fun entry => negb (bool_decide (entryKey entry = Some "_trino_go")))
      (Header_Values sessionHeaders preparedStatementHeader ++ ["_trino_go=SELECT+1"]).
Proof.
  apply (deallocated_prepare_drops_statement sessionHeaders addedAndDeallocatedResponse
           "_trino_go" []);
    first [discriminate | reflexivity | vm_compute; reflexivity].
Defined.

(** ** The round trip's failures *)

Lemma substring_0_length (n : nat) (s : string) :
  (String.length (String.substring 0 n s) <= n)%nat.
Proof.
  revert s. induction n as [|n IH]; intros [|c s]; cbn [String.substring String.length];
    try lia.
  specialize (IH s). lia.
Qed.

Lemma substring_0_all (n : nat) (s : string) :
  (String.length s <= n)%nat -> String.substring 0 n s = s.
Proof.
  revert s. induction n as [|n IH]; intros [|c s] H; cbn [String.substring String.length] in *;
    try reflexivity; try lia.
  f_equal. apply IH. lia.
Qed.

Lemma length_append (s1 s2 : string) :
  String.length (s1 +:+ s2) = (String.length s1 + String.length s2)%nat.
Proof.
  induction s1 as [|c s1 IH]; [reflexivity|].
  change (String c s1 +:+ s2) with (String c (s1 +:+ s2)).
  cbn [String.length]. rewrite IH. reflexivity.
Qed.

(** The error made from a response carries the response's status, and for
    a body that was read a text of at most 8 KiB and three dots. *)
Lemma newErrQueryFailedFromResponse_reason (resp : Response) :
  failedStatus (newErrQueryFailedFromResponse resp) = Some (StatusCode resp) /\
  (BodyReadError resp = None ->
   exists text,
     reasonText (newErrQueryFailedFromResponse resp) = Some text /\
     (String.length text <= 8 * 1024 + 3)%nat /\
     (ContentLength resp <= 8 * 1024 -> (String.length (Body resp) <= 8 * 1024)%nat ->
      text = Body resp) /\
     (8 * 1024 < ContentLength resp ->
      text = String.substring 0 (8 * 1024) (Body resp) +:+ "...")).
Proof.
  unfold newErrQueryFailedFromResponse. cbn zeta.
  change (Z.to_nat (8 * 1024)) with (8 * 1024)%nat.
  split; [destruct (BodyReadError resp); reflexivity|].
  intros ->. destruct (Z.gtb_spec (ContentLength resp) (8 * 1024)) as [Hgt|Hle].
  - eexists. split; [reflexivity|]. split.
    + rewrite length_append.
      pose proof (substring_0_length (8 * 1024) (Body resp)) as Hlen.
      change (String.length "...") with 3%nat. lia.
    + split; [lia | reflexivity].
  - eexists. split; [reflexivity|]. split.
    + pose proof (substring_0_length (8 * 1024) (Body resp)) as Hlen. lia.
    + split; [intros _ Hlen; apply substring_0_all; exact Hlen | lia].
Qed.

(** X6.  After any number of retried responses, a response whose status is
    neither 200 nor one of 502, 503 and 504 ends [roundTrip] with a
    query-failed error that carries that status; the reason is the body,
    cut at 8 KiB, with three dots appended when the declared content length
    exceeds 8 KiB.  A transport error ends it with a query-failed error of
    status zero that wraps the transport's error.  Neither touches the
    connection's headers. *)
Theorem roundTrip_fails_on_other_status
    (h : Header) (rs : list Response) (r : Response) (turns : list selectCase) :
  Forall (fun x => In (StatusCode x) retryStatuses) rs ->
  StatusCode r <> 200 -> ~ In (StatusCode r) retryStatuses ->
  let retries := map (fun x => timerFired (doResponse x)) rs in
  let run := roundTrip (retries ++ timerFired (doResponse r) :: turns) h in
  (exists e,
     returned run = Some (Err e) /\
     failedStatus e = Some (StatusCode r) /\
     (BodyReadError r = None ->
      exists text,
        reasonText e = Some text /\
        (String.length text <= 8 * 1024 + 3)%nat /\
        (ContentLength r <= 8 * 1024 -> (String.length (Body r) <= 8 * 1024)%nat ->
         text = Body r) /\
        (8 * 1024 < ContentLength r ->
         text = String.substring 0 (8 * 1024) (Body r) +:+ "..."))) /\
  connHeaders run = h /\
  timerResets run = map retryDelay (seq 0 (length rs)) /\
  (forall err,
     roundTrip (retries ++ timerFired (doError err) :: turns) h
     = mkRoundTripRun (Some (Err (ErrQueryFailed 0 err))) h
         (map retryDelay (seq 0 (length rs)))).
Proof.
  intros Hrs Hnot200 Hnotretry retries run.
  assert (H200 : (StatusCode r =? 200) = false) by (apply Z.eqb_neq; exact Hnot200).
  assert (Hretry : isRetryStatus (StatusCode r) = false).
  { unfold isRetryStatus. unfold retryStatuses in Hnotretry. simpl in Hnotretry.
    destruct (Z.eqb_spec (StatusCode r) 502) as [E|_]; [exfalso; apply Hnotretry; rewrite E; auto|].
    destruct (Z.eqb_spec (StatusCode r) 503) as [E|_]; [exfalso; apply Hnotretry; rewrite E; auto|].
    destruct (Z.eqb_spec (StatusCode r) 504) as [E|_]; [exfalso; apply Hnotretry; rewrite E; auto|]. reflexivity. }
  assert (Hrun : run = mkRoundTripRun (Some (Err (newErrQueryFailedFromResponse r))) h
                         (map retryDelay (seq 0 (length rs)))).
  { subst run retries. unfold roundTrip.
    rewrite roundTripLoop_retries by exact Hrs.
    cbn [roundTripLoop app]. rewrite H200, Hretry.
    change initialDelay with (retryDelay 0). rewrite delaysFrom_retryDelay. reflexivity. }
  rewrite Hrun. cbn [returned connHeaders timerResets].
  split.
  { exists (newErrQueryFailedFromResponse r). split; [reflexivity|].
    apply newErrQueryFailedFromResponse_reason. }
  split; [reflexivity|]. split; [reflexivity|].
  intros err. subst retries. unfold roundTrip.
  rewrite roundTripLoop_retries by exact Hrs. cbn [roundTripLoop app].
  change initialDelay with (retryDelay 0). rewrite delaysFrom_retryDelay. reflexivity.
Qed.

Lemma roundTrip_fails_on_other_status_witness :
  connHeaders
    (roundTrip
       (map (fun x => timerFired (doResponse x)) [unavailable; badGateway]
          ++ [timerFired (doResponse notFound)]) sessionHeaders)
  = sessionHeaders /\
  timerResets
    (roundTrip
       (map (fun x => timerFired (doResponse x)) [unavailable; badGateway]
          ++ [timerFired (doResponse notFound)]) sessionHeaders)
  = map retryDelay (seq 0 2).
Proof.
  destruct (roundTrip_fails_on_other_status sessionHeaders [unavailable; badGateway]
              notFound []) as (_ & Hh & Hresets & _).
  - repeat (apply List.Forall_cons; [simpl; auto|]). apply List.Forall_nil.
  - discriminate.
  - simpl. intros [H|[H|[H|[]]]]; discriminate.
  - split; [exact Hh | exact Hresets].
Defined.

Example roundTrip_not_found_run :
  returned (roundTrip [timerFired (doResponse notFound)] sessionHeaders)
  = Some (Err (ErrQueryFailed 404 (errorsNew "no such query"))).
Proof. vm_compute. reflexivity. Qed.

Lemma Header_Get_Del_ne (h : Header) (key key' : string) :
  key <> key' -> Header_Get (Header_Del h key) key' = Header_Get h key'.
Proof.
  intros Hne. unfold Header_Get. rewrite Header_Values_Del_ne by exact Hne. reflexivity.
Qed.

(** The headers after ingestion do not depend on [Set-Path] or [Set-Role]. *)
Lemma roundTripStatusOK_withoutUnsupported (h : Header) (resp : Response) :
  fst (roundTripStatusOK h (withoutUnsupported resp)) = fst (roundTripStatusOK h resp).
Proof.
  unfold roundTripStatusOK, responseToRequestHeaderMap, withoutUnsupported.
  cbn zeta. cbn [fold_left respHeader].
  repeat rewrite (Header_Get_Del_ne _ trinoSetRoleHeader) by discriminate.
  repeat rewrite (Header_Get_Del_ne _ trinoSetPathHeader) by discriminate.
  destruct (existsb _ unsupportedResponseHeaders);
    destruct (existsb _ unsupportedResponseHeaders); reflexivity.
Qed.

(** X7.  A 200 response that carries [Set-Path] or [Set-Role] makes
    [roundTrip] return the unsupported-header error, but only after the
    response's other headers were taken in: the connection is left with the
    very headers it would have had, had the response come without the
    unsupported ones.  So a [Set-Session] value sent along is in force for
    the requests that follow, although the call failed. *)
Theorem unsupported_header_fails_after_ingestion
    (h : Header) (resp : Response) (turns : list selectCase) :
  StatusCode resp = 200 ->
  Header_Get (respHeader resp) trinoSetPathHeader <> "" \/
  Header_Get (respHeader resp) trinoSetRoleHeader <> "" ->
  let run := roundTrip (timerFired (doResponse resp) :: turns) h in
  returned run = Some (Err ErrUnsupportedHeader) /\
  connHeaders run
    = connHeaders (roundTrip (timerFired (doResponse (withoutUnsupported resp)) :: turns) h) /\
  (forall v, v <> "" ->
     Header_Get (respHeader resp) trinoSetSessionHeader = v ->
     Header_Get (respHeader resp) trinoClearSessionHeader = "" ->
     Header_Values (connHeaders run) trinoSessionHeader
       = Header_Values h trinoSessionHeader ++ [v]).
Proof.
  intros Hok Hunsupported run. subst run.
  rewrite roundTrip_statusOK by exact Hok.
  rewrite (roundTrip_statusOK h (withoutUnsupported resp)) by exact Hok.
  cbn [returned connHeaders].
  split.
  { f_equal. unfold roundTripStatusOK. cbn zeta.
    match goal with |- snd (if ?c then _ else _) = _ => assert (Hc : c = true) end.
    { unfold unsupportedResponseHeaders. cbn [existsb].
      destruct (String.eqb_spec (Header_Get (respHeader resp) trinoSetPathHeader) "");
        destruct (String.eqb_spec (Header_Get (respHeader resp) trinoSetRoleHeader) "");
        cbn [negb orb]; try reflexivity.
      exfalso. destruct Hunsupported as [H|H]; apply H; assumption. }
    rewrite Hc. reflexivity. }
  split; [symmetry; apply roundTripStatusOK_withoutUnsupported|].
  intros v Hv Hset Hclear. rewrite roundTripStatusOK_Session. cbn zeta.
  rewrite Hset, Hclear. cbn [String.eqb].
  destruct (String.eqb_spec v ""); [contradiction | reflexivity].
Qed.

Lemma unsupported_header_fails_after_ingestion_witness :
  returned (roundTrip [timerFired (doResponse setSessionAndRoleResponse)] sessionHeaders)
  = Some (Err ErrUnsupportedHeader) /\
  Header_Values
    (connHeaders (roundTrip [timerFired (doResponse setSessionAndRoleResponse)] sessionHeaders))
    trinoSessionHeader
  = Header_Values sessionHeaders trinoSessionHeader ++ ["query_max_run_time=1h"].
Proof.
  destruct (unsupported_header_fails_after_ingestion sessionHeaders
              setSessionAndRoleResponse [] eq_refl) as (Hret & _ & Hsession).
  - right. vm_compute. discriminate.
  - split; [exact Hret|]. apply Hsession.
    + discriminate.
    + vm_compute. reflexivity.
    + vm_compute. reflexivity.
Defined.

(** ** The segment fetcher's round trip *)

Lemma isRetryStatus_not_ok (status : Z) :
  isRetryStatus status = true -> (status =? 200) = false.
Proof.
  unfold isRetryStatus. intros H.
  destruct (Z.eqb_spec status 200) as [->|]; [discriminate H | reflexivity].
Qed.

Lemma fetcherLoop_resets (results : list fetchResult) :
  forall (delay retries : Z) (resets : list Z),
    0 <= retries <= 5 ->
    exists k, (k <= Z.to_nat (5 - retries))%nat /\
      fetcherResets (fetcherLoop results delay retries resets)
      = resets ++ grownDelays delay k.
Proof.
  assert (Hstop : forall resets : list Z,
            exists k, (k <= 0)%nat /\ resets = resets ++ grownDelays 0 k).
  { intros resets. exists 0%nat. split; [lia | rewrite app_nil_r; reflexivity]. }
  assert (Hend : forall (resets : list Z) (delay : Z) (n : nat),
            exists k, (k <= n)%nat /\ resets = resets ++ grownDelays delay k).
  { intros resets delay n. exists 0%nat. split; [lia | rewrite app_nil_r; reflexivity]. }
  induction results as [|result results IH]; intros delay retries resets Hretries.
  - cbn [fetcherLoop fetcherResets]. apply Hend.
  - assert (Hnext : (retries + 1 >? maxRetries) = false ->
              exists k, (k <= Z.to_nat (5 - retries))%nat /\
                fetcherResets
                  (fetcherLoop results (grownDelay delay) (retries + 1)
                     (resets ++ [grownDelay delay]))
                = resets ++ grownDelays delay k).
    { intros Hle. unfold maxRetries in Hle. rewrite Z.gtb_ltb in Hle. apply Z.ltb_ge in Hle.
      destruct (IH (grownDelay delay) (retries + 1) (resets ++ [grownDelay delay]))
        as (k & Hk & Heq); [lia|].
      exists (S k). split; [lia|]. rewrite Heq, <- app_assoc. reflexivity. }
    destruct result as [err|err|resp]; cbn [fetcherLoop]; cbn zeta.
    + destruct (retries + 1 >? maxRetries) eqn:Hgt; [apply Hend | apply Hnext; reflexivity].
    + apply Hend.
    + destruct (StatusCode resp =? 200); [apply Hend|].
      destruct (isRetryStatus (StatusCode resp)); [|apply Hend].
      destruct (retries + 1 >? maxRetries) eqn:Hgt; [apply Hend | apply Hnext; reflexivity].
Qed.

Lemma grownDelays_firstn (n : nat) :
  forall (k : nat) (delay : Z),
    (k <= n)%nat -> grownDelays delay k = firstn k (grownDelays delay n).
Proof.
  induction n as [|n IH]; intros [|k] delay Hk; try reflexivity; [lia|].
  cbn [grownDelays firstn]. f_equal. apply IH. lia.
Qed.

(** X8.  The waits between the attempts to download a segment: there are
    at most five, each the previous delay times the golden ratio (fraction
    dropped) with no cap, and since the delay of 200 ms is multiplied
    before its first use the first wait is about 324 ms. *)
Theorem fetcher_waits_grow_uncapped (results : list fetchResult) :
  exists k, (k <= 5)%nat /\
    fetcherResets (SegmentFetcher_roundTrip results)
    = firstn k [323606797; 523606796; 847213592; 1370820387; 2218033978].
Proof.
  unfold SegmentFetcher_roundTrip.
  destruct (fetcherLoop_resets results fetcherInitialDelay 0 []) as (k & Hk & Heq); [lia|].
  exists k. split; [exact Hk|].
  rewrite Heq. cbn [app]. rewrite (grownDelays_firstn 5 k) by exact Hk.
  f_equal.
Qed.

Lemma fetcherLoop_returns (results : list fetchResult) :
  forall (delay retries : Z) (resets : list Z),
    0 <= retries <= 5 ->
    (Z.to_nat (5 - retries) < length results)%nat ->
    fetched (fetcherLoop results delay retries resets) <> None.
Proof.
  induction results as [|result results IH]; intros delay retries resets Hretries Hlen;
    cbn [length] in Hlen; [lia|].
  assert (Hnext : (retries + 1 >? maxRetries) = false ->
            fetched (fetcherLoop results (grownDelay delay) (retries + 1)
                       (resets ++ [grownDelay delay])) <> None).
  { intros Hle. unfold maxRetries in Hle. rewrite Z.gtb_ltb in Hle. apply Z.ltb_ge in Hle.
    apply IH; lia. }
  destruct result as [err|err|resp]; cbn [fetcherLoop]; cbn zeta.
  - destruct (retries + 1 >? maxRetries) eqn:Hgt; [discriminate | apply Hnext; reflexivity].
  - discriminate.
  - destruct (StatusCode resp =? 200); [discriminate|].
    destruct (isRetryStatus (StatusCode resp)); [|discriminate].
    destruct (retries + 1 >? maxRetries) eqn:Hgt; [discriminate | apply Hnext; reflexivity].
Qed.

(** Once the loop has returned, the results that would follow are not
    looked at. *)
Lemma fetcherLoop_app (results more : list fetchResult) :
  forall (delay retries : Z) (resets : list Z),
    fetched (fetcherLoop results delay retries resets) <> None ->
    fetcherLoop (results ++ more) delay retries resets
    = fetcherLoop results delay retries resets.
Proof.
  induction results as [|result results IH]; intros delay retries resets Hret.
  - cbn [fetcherLoop fetched] in Hret. contradiction.
  - cbn [app]. destruct result as [err|err|resp]; cbn [fetcherLoop] in *; cbn zeta in *.
    + destruct (retries + 1 >? maxRetries); [reflexivity | apply IH; exact Hret].
    + reflexivity.
    + destruct (StatusCode resp =? 200); [reflexivity|].
      destruct (isRetryStatus (StatusCode resp)); [|reflexivity].
      destruct (retries + 1 >? maxRetries); [reflexivity | apply IH; exact Hret].
Qed.

Lemma fetcherLoop_gives_up (results : list fetchResult) :
  forall (delay retries : Z) (resets : list Z),
    0 <= retries <= 5 ->
    length results = Z.to_nat (6 - retries) ->
    Forall (fun result => retried result = true) results ->
    exists e,
      fetched (fetcherLoop results delay retries resets) = Some (Err e) /\
      isMaxRetriesError e = true.
Proof.
  induction results as [|result results IH]; intros delay retries resets Hretries Hlen Hall;
    cbn [length] in Hlen; [lia|].
  inversion Hall as [|? ? Hresult Hrest]; subst.
  assert (Hnext : (retries + 1 >? maxRetries) = false ->
            exists e,
              fetched (fetcherLoop results (grownDelay delay) (retries + 1)
                         (resets ++ [grownDelay delay])) = Some (Err e) /\
              isMaxRetriesError e = true).
  { intros Hle. unfold maxRetries in Hle. rewrite Z.gtb_ltb in Hle. apply Z.ltb_ge in Hle.
    apply IH; [lia | lia | exact Hrest]. }
  destruct result as [err|err|resp]; cbn [fetcherLoop retried] in *; cbn zeta.
  - destruct (retries + 1 >? maxRetries) eqn:Hgt; [|apply Hnext; reflexivity].
    eexists. split; reflexivity.
  - discriminate.
  - rewrite (isRetryStatus_not_ok _ Hresult), Hresult.
    destruct (retries + 1 >? maxRetries) eqn:Hgt; [|apply Hnext; reflexivity].
    eexists. split; reflexivity.
Qed.

(** X9.  Downloading a segment ends within six requests: whatever the
    server and the network do, [SegmentFetcher.roundTrip] has returned once
    six results are in, and looks at no further one.  When all six are
    time-outs or statuses 502, 503, 504 it gives up with a query-failed
    error of status zero, also when the last failure was an HTTP status. *)
Theorem fetcher_returns_within_six_requests (results more : list fetchResult) :
  length results = 6%nat ->
  (exists o, fetched (SegmentFetcher_roundTrip results) = Some o) /\
  SegmentFetcher_roundTrip (results ++ more) = SegmentFetcher_roundTrip results /\
  (Forall (fun result => retried result = true) results ->
   exists e,
     fetched (SegmentFetcher_roundTrip results) = Some (Err e) /\
     isMaxRetriesError e = true).
Proof.
  intros Hlen. unfold SegmentFetcher_roundTrip.
  assert (Hret : fetched (fetcherLoop results fetcherInitialDelay 0 []) <> None).
  { apply fetcherLoop_returns; [lia|]. rewrite Hlen. simpl. lia. }
  split.
  { destruct (fetched (fetcherLoop results fetcherInitialDelay 0 [])) as [o|];
      [exists o; reflexivity | contradiction]. }
  split; [apply fetcherLoop_app; exact Hret|].
  intros Hall. apply fetcherLoop_gives_up; [lia | rewrite Hlen; reflexivity | exact Hall].
Qed.

Lemma fetcher_returns_within_six_requests_witness :
  exists e,
    fetched (SegmentFetcher_roundTrip sixFailures) = Some (Err e) /\
    isMaxRetriesError e = true.
Proof.
  destruct (fetcher_returns_within_six_requests sixFailures [] eq_refl) as (_ & _ & H).
  apply H. repeat (apply List.Forall_cons; [reflexivity|]). apply List.Forall_nil.
Defined.

Example fetcher_six_failures_run :
  SegmentFetcher_roundTrip sixFailures
  = mkFetcherRun
      (Some (Err (ErrQueryFailed 0 (Errorf fmtMaxRetriesStatus [opInt 503]))))
      [323606797; 523606796; 847213592; 1370820387; 2218033978].
Proof. vm_compute. reflexivity. Qed.

(** ** Closing the rows *)

(** [roundTrip] returns a response or an error; it does not panic. *)
Lemma roundTripLoop_no_panic (turns : list selectCase) :
  forall (h : Header) (delay : Z) (resets : list Z) (msg : string),
    returned (roundTripLoop turns h delay resets) <> Some (Panic msg).
Proof.
  induction turns as [|turn turns IH]; intros h delay resets msg; cbn [roundTripLoop].
  - discriminate.
  - destruct turn as [err|[err|resp]]; try discriminate.
    destruct (StatusCode resp =? 200).
    + unfold roundTripStatusOK. cbn zeta.
      destruct (existsb _ unsupportedResponseHeaders); discriminate.
    + destruct (isRetryStatus (StatusCode resp)); [apply IH | discriminate].
Qed.

(** X10.  What [Close] returns on rows that are still open, once the DELETE
    request is built.  After any number of retried answers: an answer of
    status 204 makes it return nil and forget the next URI; an answer of
    status 200 (without [Set-Path] or [Set-Role]) makes it return [io.EOF],
    the value it had just stored in [qr.err]; any other status makes it return the query-failed error of
    that status.  In each case the rows are left at [io.EOF]. *)
Theorem rows_close_outcomes
    (qr : driverRows) (h : Header) (rs : list Response) (r : Response)
    (turns : list selectCase) :
  rows_err qr <> Some sqlErrNoRows -> rows_err qr <> Some ioEOF ->
  Forall (fun x => In (StatusCode x) retryStatuses) rs ->
  let answers := map (fun x => timerFired (doResponse x)) rs ++ timerFired (doResponse r) :: turns in
  let run := driverRows_Close None answers qr h in
  rows_err (closedRows run) = Some ioEOF /\
  (StatusCode r = 204 ->
     closeReturned run = Some None /\ nextURI (closedRows run) = "" /\ closedHeaders run = h) /\
  (StatusCode r = 200 ->
   Forall (fun name => Header_Get (respHeader r) name = "") unsupportedResponseHeaders ->
     closeReturned run = Some (Some ioEOF) /\ nextURI (closedRows run) = nextURI qr) /\
  (StatusCode r <> 200 -> StatusCode r <> 204 -> ~ In (StatusCode r) retryStatuses ->
     closeReturned run = Some (Some (rowsFailed (newErrQueryFailedFromResponse r))) /\
     nextURI (closedRows run) = nextURI qr /\ closedHeaders run = h).
Proof.
  intros Hno Heof Hrs answers run.
  assert (Hopen : run = let qr' := mkDriverRows (Some ioEOF) (nextURI qr) (queryID qr) in
                        let rt := roundTrip answers h in
                        match returned rt with
                        | None => mkCloseRun None qr' (connHeaders rt)
                        | Some (Ok _) => mkCloseRun (Some (rows_err qr')) qr' (connHeaders rt)
                        | Some (Err (ErrQueryFailed status reason)) =>
                            if status =? 204 then
                              mkCloseRun (Some None)
                                (mkDriverRows (rows_err qr') "" (queryID qr')) (connHeaders rt)
                            else
                              mkCloseRun
                                (Some (Some (rowsFailed (ErrQueryFailed status reason)))) qr'
                                (connHeaders rt)
                        | Some (Err err) =>
                            mkCloseRun (Some (Some (rowsFailed err))) qr' (connHeaders rt)
                        | Some (Panic _) => mkCloseRun None qr' (connHeaders rt)
                        end).
  { subst run. unfold driverRows_Close.
    destruct (rows_err qr) as [[| |e]|]; try reflexivity; contradiction. }
  clearbody run. subst run. cbn zeta.
  assert (Hother : StatusCode r <> 200 -> ~ In (StatusCode r) retryStatuses ->
            roundTrip answers h
            = mkRoundTripRun (Some (Err (newErrQueryFailedFromResponse r))) h
                (map retryDelay (seq 0 (length rs)))).
  { intros H200 Hretry. subst answers. unfold roundTrip.
    rewrite roundTripLoop_retries by exact Hrs. cbn [roundTripLoop app].
    assert (E200 : (StatusCode r =? 200) = false) by (apply Z.eqb_neq; exact H200).
    assert (Eretry : isRetryStatus (StatusCode r) = false).
    { unfold isRetryStatus. unfold retryStatuses in Hretry. simpl in Hretry.
      destruct (Z.eqb_spec (StatusCode r) 502) as [E|_];
        [exfalso; apply Hretry; rewrite E; auto|].
      destruct (Z.eqb_spec (StatusCode r) 503) as [E|_];
        [exfalso; apply Hretry; rewrite E; auto|].
      destruct (Z.eqb_spec (StatusCode r) 504) as [E|_];
        [exfalso; apply Hretry; rewrite E; auto|]. reflexivity. }
    rewrite E200, Eretry. change initialDelay with (retryDelay 0).
    rewrite delaysFrom_retryDelay. reflexivity. }
  assert (Hfailed : forall resp,
            newErrQueryFailedFromResponse resp
            = ErrQueryFailed (StatusCode resp)
                (match BodyReadError resp with
                 | Some err => err
                 | None =>
                     errorsNew
                       (if ContentLength resp >? 8 * 1024
                        then String.substring 0 (Z.to_nat (8 * 1024)) (Body resp) +:+ "..."
                        else String.substring 0 (Z.to_nat (8 * 1024)) (Body resp))
                 end)).
  { intros resp. unfold newErrQueryFailedFromResponse. cbn zeta.
    destruct (BodyReadError resp); reflexivity. }
  split.
  { destruct (returned (roundTrip answers h)) as [[resp|err|msg]|]; try reflexivity.
    destruct err; try reflexivity. destruct (StatusCode0 =? 204); reflexivity. }
  split.
  { intros H204. rewrite Hother.
    - cbn [returned connHeaders]. rewrite Hfailed, H204. cbn [Z.eqb Pos.eqb].
      split; [reflexivity|]. split; reflexivity.
    - rewrite H204. discriminate.
    - rewrite H204. simpl. intros [H|[H|[H|[]]]]; discriminate. }
  split.
  { intros H200 Hsupported.
    assert (Hrt : returned (roundTrip answers h) = Some (snd (roundTripStatusOK h r))).
    { subst answers. unfold roundTrip. rewrite roundTripLoop_retries by exact Hrs.
      cbn [roundTripLoop app]. rewrite H200. cbn [Z.eqb Pos.eqb].
      destruct (roundTripStatusOK h r). reflexivity. }
    rewrite Hrt, roundTripStatusOK_supported by exact Hsupported.
    split; reflexivity. }
  intros H200 H204 Hretry. rewrite (Hother H200 Hretry).
  cbn [returned connHeaders]. rewrite Hfailed.
  destruct (Z.eqb_spec (StatusCode r) 204) as [E|_]; [contradiction|].
  split; [reflexivity|]. split; reflexivity.
Qed.

Lemma rows_close_outcomes_witness :
  closeReturned (driverRows_Close None [timerFired (doResponse noContent)] openRows sessionHeaders)
  = Some None /\
  nextURI
    (closedRows
       (driverRows_Close None [timerFired (doResponse noContent)] openRows sessionHeaders))
  = "" /\
  closedHeaders
    (driverRows_Close None [timerFired (doResponse noContent)] openRows sessionHeaders)
  = sessionHeaders.
Proof.
  destruct (rows_close_outcomes openRows sessionHeaders [] noContent []) as (_ & H & _).
  - discriminate.
  - discriminate.
  - apply List.Forall_nil.
  - apply H. reflexivity.
Defined.

(** X11.  A first [Close] on rows that ended with [sql.ErrNoRows] or
    [io.EOF] returns nil at its guard and changes nothing, so those rows keep
    the error they had ([sql.ErrNoRows] stays [sql.ErrNoRows]); on any other
    rows it leaves [qr.err] at [io.EOF], however it ends.  Either way a
    second [Close] returns nil at once: it builds no request, meets no
    answer, and changes neither the rows nor the connection's headers. *)
Theorem rows_close_twice
    (newRequestError newRequestError' : option error) (turns turns' : list selectCase)
    (qr : driverRows) (h h' : Header) :
  let first := driverRows_Close newRequestError turns qr h in
  let second := driverRows_Close newRequestError' turns' (closedRows first) h' in
  rows_err (closedRows first)
    = match rows_err qr with
      | Some sqlErrNoRows => Some sqlErrNoRows
      | _ => Some ioEOF
      end /\
  match rows_err qr with
  | Some sqlErrNoRows | Some ioEOF => first = mkCloseRun (Some None) qr h
  | _ => True
  end /\
  second = mkCloseRun (Some None) (closedRows first) h'.
Proof.
  cbn zeta.
  assert (Hfirst : rows_err (closedRows (driverRows_Close newRequestError turns qr h))
                   = match rows_err qr with
                     | Some sqlErrNoRows => Some sqlErrNoRows
                     | _ => Some ioEOF
                     end).
  { unfold driverRows_Close.
    destruct (rows_err qr) as [[| |e]|] eqn:Herr; cbn [closedRows]; auto;
      destruct newRequestError; cbn [closedRows rows_err]; auto;
      destruct (returned (roundTrip turns h)) as [[resp|err|msg]|];
      cbn [closedRows rows_err]; auto;
      destruct err; cbn [closedRows rows_err]; auto;
      destruct (StatusCode0 =? 204); cbn [closedRows rows_err]; auto. }
  split; [exact Hfirst|].
  split.
  { unfold driverRows_Close. destruct (rows_err qr) as [[| |e]|]; auto. }
  unfold driverRows_Close at 1. rewrite Hfirst.
  destruct (rows_err qr) as [[| |e]|]; reflexivity.
Qed.

Example rows_close_twice_run :
  rows_err
    (closedRows
       (driverRows_Close None [timerFired (doResponse noContent)]
          (mkDriverRows (Some sqlErrNoRows) "" "q1") sessionHeaders))
  = Some sqlErrNoRows /\
  rows_err
    (closedRows
       (driverRows_Close None [timerFired (doResponse noContent)] openRows sessionHeaders))
  = Some ioEOF.
Proof. split; vm_compute; reflexivity. Qed.

(** ** The statement driver *)

Lemma readQuoted_ReplaceAllQuote (s : string) :
  readQuoted (ReplaceAllQuote s +:+ "'") = Some s.
Proof.
  induction s as [|c s IH].
  - reflexivity.
  - cbn [ReplaceAllQuote]. destruct (Ascii.eqb_spec c "'"%char) as [->|Hc].
    + change (String "'" (String "'" (ReplaceAllQuote s)) +:+ "'")
        with (String "'" (String "'" (ReplaceAllQuote s +:+ "'"))).
      cbn [readQuoted Ascii.eqb Bool.eqb]. rewrite IH. reflexivity.
    + change (String c (ReplaceAllQuote s) +:+ "'")
        with (String c (ReplaceAllQuote s +:+ "'")).
      cbn [readQuoted]. destruct (Ascii.eqb_spec c "'"%char); [contradiction|].
      rewrite IH. reflexivity.
Qed.

(** X12.  [formatStringLiteral] yields one well-formed SQL string literal
    whatever the query holds: read back by SQL's rule (enclosing quotes
    taken off, each doubled quote standing for one) it gives the query
    again, so two queries never share a literal. *)
Theorem formatStringLiteral_reads_back :
  (forall query, readStringLiteral (formatStringLiteral query) = Some query) /\
  (forall q1 q2, formatStringLiteral q1 = formatStringLiteral q2 -> q1 = q2).
Proof.
  assert (H : forall query, readStringLiteral (formatStringLiteral query) = Some query).
  { intros query. unfold formatStringLiteral.
    change ("'" +:+ ReplaceAllQuote query +:+ "'")
      with (String "'" (ReplaceAllQuote query +:+ "'")).
    cbn [readStringLiteral Ascii.eqb Bool.eqb]. apply readQuoted_ReplaceAllQuote. }
  split; [exact H|].
  intros q1 q2 Heq. pose proof (H q1) as H1. rewrite Heq, H in H1. congruence.
Qed.

Lemma Header_Values_Add_all (key : string) (values : list string) :
  forall h : Header,
    Header_Values (fold_left (fun h v => Header_Add h key v) values h) key
    = Header_Values h key ++ values.
Proof.
  induction values as [|v values IH]; intros h; cbn [fold_left].
  - rewrite app_nil_r. reflexivity.
  - rewrite IH, Header_Values_Add_eq, <- app_assoc. reflexivity.
Qed.

Lemma Header_Values_Add_all_ne (key key' : string) (values : list string) :
  key <> key' ->
  forall h : Header,
    Header_Values (fold_left (fun h v => Header_Add h key v) values h) key'
    = Header_Values h key'.
Proof.
  intros Hne. induction values as [|v values IH]; intros h; cbn [fold_left].
  - reflexivity.
  - rewrite IH. apply Header_Values_Add_ne. exact Hne.
Qed.

Section ExecProperties.

Variable Serial : driverValue -> outcome string.
Variable QueryEscape : string -> string.
Variable CanonicalMIMEHeaderKey : string -> string.

Let execArg' := execArg Serial QueryEscape CanonicalMIMEHeaderKey.
Let execArgs' := execArgs Serial QueryEscape CanonicalMIMEHeaderKey.
Let exec' := exec Serial QueryEscape CanonicalMIMEHeaderKey.

(** The headers [exec] builds once the first parameter is bound, with
    explicit prepare. *)
Let prepared (conn : Conn) (st : driverStmt) (hs : Header) : Header :=
  Header_Add
    (fold_left (fun h v => Header_Add h preparedStatementHeader v)
       (Header_Values (httpHeaders conn) preparedStatementHeader) hs)
    preparedStatementHeader (preparedStatementName +:+ "=" +:+ QueryEscape (query st)).

Lemma execArg_positional (arg : NamedValue) (s : execState) (serialized : string) :
  positional (es_conn s) arg = true ->
  Serial (Value arg) = Ok serialized ->
  execArg' arg s
  = (mkExecState (es_conn s) (es_st s)
       (if useExplicitPrepare (es_conn s)
           && String.eqb (Header_Get (es_hs s) preparedStatementHeader) ""
        then prepared (es_conn s) (es_st s) (es_hs s) else es_hs s)
       (es_ss s ++ [serialized]), Ok tt).
Proof.
  intros Hpos Hserial. unfold positional in Hpos.
  repeat (apply andb_prop in Hpos; destruct Hpos as [Hpos ?]).
  repeat match goal with H : negb _ = true |- _ => apply negb_true_iff in H end.
  unfold execArg', execArg. cbn zeta.
  repeat match goal with H : _ = false |- _ => rewrite H; clear H end.
  rewrite Hserial. reflexivity.
Qed.

Lemma Header_Get_prepared (conn : Conn) (st : driverStmt) (hs : Header) :
  Header_Values hs preparedStatementHeader = [] ->
  (Header_Values (httpHeaders conn) preparedStatementHeader = [] \/
   Header_Get (httpHeaders conn) preparedStatementHeader <> "") ->
  Header_Values (prepared conn st hs) preparedStatementHeader
  = Header_Values (httpHeaders conn) preparedStatementHeader
      ++ [preparedStatementName +:+ "=" +:+ QueryEscape (query st)] /\
  Header_Get (prepared conn st hs) preparedStatementHeader <> "".
Proof.
  intros Hhs Hconn.
  assert (E : Header_Values (prepared conn st hs) preparedStatementHeader
              = Header_Values (httpHeaders conn) preparedStatementHeader
                  ++ [preparedStatementName +:+ "=" +:+ QueryEscape (query st)]).
  { unfold prepared. rewrite Header_Values_Add_eq, Header_Values_Add_all, Hhs. reflexivity. }
  split; [exact E|].
  unfold Header_Get at 1. rewrite E.
  destruct Hconn as [-> | Hget].
  - cbn [app]. discriminate.
  - unfold Header_Get in Hget.
    destruct (Header_Values (httpHeaders conn) preparedStatementHeader); [contradiction|].
    exact Hget.
Qed.

(** Binding further parameters once the prepared statement is in [hs]. *)
Lemma execArgs_positional_next (args : list NamedValue) :
  forall (serials : list string) (s : execState),
    Forall (fun arg => positional (es_conn s) arg = true) args ->
    Forall2 (fun arg serialized => Serial (Value arg) = Ok serialized) args serials ->
    (useExplicitPrepare (es_conn s) = true ->
     Header_Get (es_hs s) preparedStatementHeader <> "") ->
    execArgs' args s
    = (mkExecState (es_conn s) (es_st s) (es_hs s) (es_ss s ++ serials), Ok tt).
Proof.
  induction args as [|arg args IH]; intros serials s Hpos Hserial Hget.
  - inversion Hserial; subst. rewrite app_nil_r. destruct s; reflexivity.
  - inversion Hserial as [|? serialized ? serials' Hs Hrest]; subst.
    inversion Hpos as [|? ? Harg Hargs]; subst.
    unfold execArgs'. cbn [execArgs]. fold execArgs'.
    change (execArg Serial QueryEscape CanonicalMIMEHeaderKey arg s) with (execArg' arg s).
    rewrite (execArg_positional arg s serialized Harg Hs).
    assert (Hsame : (useExplicitPrepare (es_conn s)
                     && String.eqb (Header_Get (es_hs s) preparedStatementHeader) "")
                    = false).
    { destruct (useExplicitPrepare (es_conn s)); [|reflexivity].
      cbn [andb]. apply String.eqb_neq. apply Hget. reflexivity. }
    rewrite Hsame.
    rewrite (IH serials'); cbn [es_conn es_st es_hs es_ss];
      [rewrite <- app_assoc; reflexivity | exact Hargs | exact Hrest | exact Hget].
Qed.

(** X13.  [exec] with parameters only, on a statement whose options pass
    its checks.  The query becomes [EXECUTE _trino_go USING] followed by
    the serialized parameters when the connection prepares explicitly, and
    [EXECUTE IMMEDIATE] with the query as a string literal otherwise.  With
    explicit prepare the request's [Prepared-Statement] header holds the
    connection's entries followed by the statement's own entry, added once
    however many parameters there are; otherwise it holds none.  The
    encoding header defaults to [json]. *)
Theorem exec_binds_parameters
    (conn : Conn) (st : driverStmt) (args : list NamedValue) (serials : list string) :
  args <> [] ->
  Forall (fun arg => positional conn arg = true) args ->
  Forall2 (fun arg serialized => Serial (Value arg) = Ok serialized) args serials ->
  progressOptionsAccepted conn ->
  spoolingWorkerCount st <= spoolingMaxOutOfOrderSegments st ->
  (Header_Values (httpHeaders conn) preparedStatementHeader = [] \/
   Header_Get (httpHeaders conn) preparedStatementHeader <> "") ->
  exists req,
    snd (exec' conn st args) = Ok req /\
    req_query req
    = (if useExplicitPrepare conn
       then "EXECUTE " +:+ preparedStatementName +:+ " USING " +:+ Join serials ", "
       else "EXECUTE IMMEDIATE " +:+ formatStringLiteral (query st)
              +:+ " USING " +:+ Join serials ", ") /\
    Header_Values (req_hs req) preparedStatementHeader
    = (if useExplicitPrepare conn
       then Header_Values (httpHeaders conn) preparedStatementHeader
              ++ [preparedStatementName +:+ "=" +:+ QueryEscape (query st)]
       else []) /\
    Header_Values (req_hs req) trinoQueryDataEncodingHeader = [defaulttrinoEncoding] /\
    Header_Values (req_hs req) clientCapabilitiesHeader = ["PARAMETRIC_DATETIME"].
Proof.
  intros Hargs Hpos Hserial (Hupd & Hnone) Hworkers Hconn.
  destruct args as [|arg args]; [contradiction|].
  inversion Hserial as [|? serialized ? serials' Hs Hrest]; subst.
  inversion Hpos as [|? ? Harg Hothers]; subst.
  set (hs0 := Header_Add ∅ clientCapabilitiesHeader "PARAMETRIC_DATETIME").
  set (s0 := mkExecState conn st hs0 []).
  set (hs1 := if useExplicitPrepare conn then prepared conn st hs0 else hs0).
  assert (Hhs0 : Header_Values hs0 preparedStatementHeader = []).
  { subst hs0. rewrite Header_Values_Add_ne by discriminate. reflexivity. }
  assert (Hloop : execArgs' (arg :: args) s0
                  = (mkExecState conn st hs1 (serialized :: serials'), Ok tt)).
  { unfold execArgs'. cbn [execArgs]. fold execArgs'.
    change (execArg Serial QueryEscape CanonicalMIMEHeaderKey arg s0) with (execArg' arg s0).
    rewrite (execArg_positional arg s0 serialized Harg Hs).
    cbn [es_conn es_st es_hs es_ss s0].
    assert (Hget0 : String.eqb (Header_Get hs0 preparedStatementHeader) "" = true).
    { unfold Header_Get. rewrite Hhs0. reflexivity. }
    rewrite Hget0, andb_true_r. fold hs1.
    rewrite (execArgs_positional_next args serials'); cbn [es_conn es_st es_hs es_ss];
      [reflexivity | exact Hothers | exact Hrest |].
    intros Hexplicit. subst hs1. rewrite Hexplicit.
    apply Header_Get_prepared; assumption. }
  assert (Hprogress :
            ((bool_decide (progressUpdater conn <> None) && (progressUpdaterPeriod conn =? 0))
             || (bool_decide (progressUpdater conn = None) && (progressUpdaterPeriod conn >? 0)))
            = false).
  { apply orb_false_iff. split; apply andb_false_iff.
    - destruct (progressUpdater conn) as [u|] eqn:Hu.
      + right. apply Z.eqb_neq. apply Hupd. discriminate.
      + left. apply bool_decide_eq_false. intros Habs. apply Habs. reflexivity.
    - destruct (progressUpdater conn) as [u|] eqn:Hu.
      + left. apply bool_decide_eq_false. discriminate.
      + right. rewrite Z.gtb_ltb. apply Z.ltb_ge. apply Hnone. reflexivity. }
  assert (Hcheck : (spoolingWorkerCount st >? spoolingMaxOutOfOrderSegments st) = false).
  { rewrite Z.gtb_ltb. apply Z.ltb_ge. exact Hworkers. }
  assert (Hencoding : Header_Values hs1 trinoQueryDataEncodingHeader = []).
  { subst hs1. destruct (useExplicitPrepare conn).
    - unfold prepared. rewrite Header_Values_Add_ne by discriminate.
      rewrite Header_Values_Add_all_ne by discriminate.
      subst hs0. rewrite Header_Values_Add_ne by discriminate. reflexivity.
    - subst hs0. rewrite Header_Values_Add_ne by discriminate. reflexivity. }
  assert (Hrun : snd (exec' conn st (arg :: args))
                 = Ok (mkStatementRequest
                         (if useExplicitPrepare conn
                          then "EXECUTE " +:+ preparedStatementName +:+ " USING "
                                 +:+ Join (serialized :: serials') ", "
                          else "EXECUTE IMMEDIATE " +:+ formatStringLiteral (query st)
                                 +:+ " USING " +:+ Join (serialized :: serials') ", ")
                         (Header_Add hs1 trinoQueryDataEncodingHeader defaulttrinoEncoding))).
  { unfold exec', exec. cbn zeta. fold clientCapabilitiesHeader. fold hs0. fold s0.
    change (execArgs Serial QueryEscape CanonicalMIMEHeaderKey (arg :: args) s0)
      with (execArgs' (arg :: args) s0).
    rewrite Hloop. cbn [es_conn es_st es_hs es_ss]. rewrite Hprogress.
    destruct (useExplicitPrepare conn); cbn [es_st es_hs snd]; rewrite Hcheck;
      unfold Header_Get; rewrite Hencoding; reflexivity. }
  eexists. split; [exact Hrun|]. cbn [req_query req_hs].
  split; [reflexivity|].
  split.
  { rewrite Header_Values_Add_ne by discriminate. subst hs1.
    destruct (useExplicitPrepare conn); [|exact Hhs0].
    apply Header_Get_prepared; assumption. }
  split.
  { rewrite Header_Values_Add_eq, Hencoding. reflexivity. }
  rewrite Header_Values_Add_ne by discriminate. subst hs1.
  destruct (useExplicitPrepare conn).
  - unfold prepared. rewrite Header_Values_Add_ne by discriminate.
    rewrite Header_Values_Add_all_ne by discriminate.
    subst hs0. rewrite Header_Values_Add_eq. reflexivity.
  - subst hs0. rewrite Header_Values_Add_eq. reflexivity.
Qed.

End ExecProperties.

Lemma exec_binds_parameters_witness :
  exists req,
    snd (execWith twoParameters) = Ok req /\
    req_query req = "EXECUTE _trino_go USING 'a', NULL" /\
    Header_Values (req_hs req) preparedStatementHeader = ["_trino_go=SELECT 1"] /\
    Header_Values (req_hs req) trinoQueryDataEncodingHeader = ["json"] /\
    Header_Values (req_hs req) clientCapabilitiesHeader = ["PARAMETRIC_DATETIME"].
Proof.
  apply (exec_binds_parameters serialStub sameString sameString freshConn freshStmt
           twoParameters ["'a'"; "NULL"]).
  - discriminate.
  - repeat (apply List.Forall_cons; [reflexivity|]). apply List.Forall_nil.
  - repeat (apply List.Forall2_cons; [reflexivity|]). apply List.Forall2_nil.
  - split; [intros H; exfalso; apply H; reflexivity | intros _; simpl; lia].
  - simpl. lia.
  - left. reflexivity.
Defined.

Example exec_immediate_run :
  option_map req_query
    (match snd (exec serialStub sameString sameString implicitConn
                  (mkDriverStmt "SELECT 'x', ?" "" false 0 0) twoParameters) with
     | Ok req => Some req
     | _ => None
     end)
  = Some "EXECUTE IMMEDIATE 'SELECT ''x'', ?' USING 'a', NULL".
Proof. vm_compute. reflexivity. Qed.

Lemma extendsHeader_refl (h : Header) : extendsHeader h h.
Proof. intros key. exists []. rewrite app_nil_r. reflexivity. Qed.

Lemma extendsHeader_trans (h1 h2 h3 : Header) :
  extendsHeader h1 h2 -> extendsHeader h2 h3 -> extendsHeader h1 h3.
Proof.
  intros H12 H23 key. destruct (H12 key) as [m1 E1]. destruct (H23 key) as [m2 E2].
  exists (m1 ++ m2). rewrite E2, E1, <- app_assoc. reflexivity.
Qed.

Lemma extendsHeader_Add (h : Header) (key v : string) : extendsHeader h (Header_Add h key v).
Proof.
  intros key'. destruct (decide (key = key')) as [<-|Hne].
  - exists [v]. apply Header_Values_Add_eq.
  - exists []. rewrite app_nil_r. apply Header_Values_Add_ne. exact Hne.
Qed.

Lemma extendsHeader_Add_all (key : string) (values : list string) :
  forall h : Header, extendsHeader h (fold_left (fun h v => Header_Add h key v) values h).
Proof.
  induction values as [|v values IH]; intros h; cbn [fold_left].
  - apply extendsHeader_refl.
  - eapply extendsHeader_trans; [apply extendsHeader_Add | apply IH].
Qed.

Section ExecInvariants.

Variable Serial : driverValue -> outcome string.
Variable QueryEscape : string -> string.
Variable CanonicalMIMEHeaderKey : string -> string.

Let execArg' := execArg Serial QueryEscape CanonicalMIMEHeaderKey.
Let execArgs' := execArgs Serial QueryEscape CanonicalMIMEHeaderKey.
Let exec' := exec Serial QueryEscape CanonicalMIMEHeaderKey.

(** Across one argument the headers being built only grow, and the
    connection's own headers stay. *)
Lemma execArg_extends (arg : NamedValue) (s : execState) :
  extendsHeader (es_hs s) (es_hs (fst (execArg' arg s))) /\
  httpHeaders (es_conn (fst (execArg' arg s))) = httpHeaders (es_conn s).
Proof.
  unfold execArg', execArg, assertString. cbn zeta.
  destruct (Value arg); cbn [bindOutcome];
    repeat match goal with
           | |- context [if ?c then _ else _] => destruct c
           | |- context [match Serial ?v with _ => _ end] => destruct (Serial v)
           | |- context [match Atoi ?v with _ => _ end] => destruct (Atoi v)
           end;
    cbn [fst es_hs es_conn httpHeaders setProgressUpdater setProgressPeriod];
    (split; [|reflexivity]);
    first [ apply extendsHeader_refl
          | apply extendsHeader_Add
          | eapply extendsHeader_trans;
              [apply extendsHeader_Add_all | apply extendsHeader_Add] ].
Qed.

Lemma execArgs_extends (args : list NamedValue) :
  forall s : execState,
    extendsHeader (es_hs s) (es_hs (fst (execArgs' args s))) /\
    httpHeaders (es_conn (fst (execArgs' args s))) = httpHeaders (es_conn s).
Proof.
  induction args as [|arg args IH]; intros s.
  - split; [apply extendsHeader_refl | reflexivity].
  - unfold execArgs'. cbn [execArgs]. fold execArgs'.
    change (execArg Serial QueryEscape CanonicalMIMEHeaderKey arg s) with (execArg' arg s).
    destruct (execArg_extends arg s) as [Hhs Hconn].
    destruct (execArg' arg s) as [s' [[]|e|m]]; cbn [fst] in *.
    + destruct (IH s') as [Hhs' Hconn'].
      split; [eapply extendsHeader_trans; eassumption | congruence].
    + split; assumption.
    + split; assumption.
Qed.

(** X14.  Whatever the arguments, a request that [exec] gets to build keeps
    [PARAMETRIC_DATETIME] as the first value of its client-capabilities
    header and names at least one encoding; [exec] only ever adds header
    values, it never drops or replaces one, and it leaves the connection's
    own headers alone.  At that point the worker count as the arguments
    left it does not exceed the reorder bound as they left it, and when
    arguments were given the progress options are consistent. *)
Theorem exec_request_invariants
    (conn : Conn) (st : driverStmt) (args : list NamedValue) (req : statementRequest) :
  snd (exec' conn st args) = Ok req ->
  let s := fst (exec' conn st args) in
  (exists rest,
     Header_Values (req_hs req) clientCapabilitiesHeader = "PARAMETRIC_DATETIME" :: rest) /\
  Header_Values (req_hs req) trinoQueryDataEncodingHeader <> [] /\
  extendsHeader (es_hs s) (req_hs req) /\
  httpHeaders (es_conn s) = httpHeaders conn /\
  spoolingWorkerCount (es_st s) <= spoolingMaxOutOfOrderSegments (es_st s) /\
  (args <> [] -> progressOptionsAccepted (es_conn s)).
Proof.
  unfold exec', exec. cbn zeta. fold clientCapabilitiesHeader.
  set (hs0 := Header_Add ∅ clientCapabilitiesHeader "PARAMETRIC_DATETIME").
  set (s0 := mkExecState conn st hs0 []).
  assert (Hfinish : forall (s : execState) (text : string),
            extendsHeader hs0 (es_hs s) ->
            httpHeaders (es_conn s) = httpHeaders conn ->
            (args <> [] -> progressOptionsAccepted (es_conn s)) ->
            snd (if spoolingWorkerCount (es_st s) >? spoolingMaxOutOfOrderSegments (es_st s)
                 then (s, Err (Errorf fmtSpoolingWorkers
                                 [opInt (spoolingWorkerCount (es_st s));
                                  opInt (spoolingMaxOutOfOrderSegments (es_st s))]))
                 else (s, Ok (mkStatementRequest text
                                (if String.eqb
                                      (Header_Get (es_hs s) trinoQueryDataEncodingHeader) ""
                                 then Header_Add (es_hs s) trinoQueryDataEncodingHeader
                                        defaulttrinoEncoding
                                 else es_hs s)))) = Ok req ->
            let s' := fst (if spoolingWorkerCount (es_st s)
                                >? spoolingMaxOutOfOrderSegments (es_st s)
                           then (s, Err (Errorf fmtSpoolingWorkers
                                           [opInt (spoolingWorkerCount (es_st s));
                                            opInt (spoolingMaxOutOfOrderSegments (es_st s))]))
                           else (s, Ok (mkStatementRequest text
                                          (if String.eqb
                                                (Header_Get (es_hs s)
                                                   trinoQueryDataEncodingHeader) ""
                                           then Header_Add (es_hs s)
                                                  trinoQueryDataEncodingHeader
                                                  defaulttrinoEncoding
                                           else es_hs s)))) in
            (exists rest,
               Header_Values (req_hs req) clientCapabilitiesHeader
               = "PARAMETRIC_DATETIME" :: rest) /\
            Header_Values (req_hs req) trinoQueryDataEncodingHeader <> [] /\
            extendsHeader (es_hs s') (req_hs req) /\
            httpHeaders (es_conn s') = httpHeaders conn /\
            spoolingWorkerCount (es_st s') <= spoolingMaxOutOfOrderSegments (es_st s') /\
            (args <> [] -> progressOptionsAccepted (es_conn s'))).
  { intros s text Hext Hconn Hprog.
    destruct (Z.gtb_spec (spoolingWorkerCount (es_st s))
                (spoolingMaxOutOfOrderSegments (es_st s))) as [Hgt|Hle];
      cbn [snd fst]; [discriminate|].
    intros Hreq. injection Hreq as <-. cbn [req_hs].
    assert (Hext' : extendsHeader (es_hs s)
                      (if String.eqb (Header_Get (es_hs s) trinoQueryDataEncodingHeader) ""
                       then Header_Add (es_hs s) trinoQueryDataEncodingHeader
                              defaulttrinoEncoding
                       else es_hs s)).
    { destruct (String.eqb _ ""); [apply extendsHeader_Add | apply extendsHeader_refl]. }
    split.
    { destruct (extendsHeader_trans _ _ _ Hext Hext' clientCapabilitiesHeader)
        as [more Hmore].
      exists more. rewrite Hmore. subst hs0. rewrite Header_Values_Add_eq. reflexivity. }
    split.
    { destruct (String.eqb_spec (Header_Get (es_hs s) trinoQueryDataEncodingHeader) "")
        as [Hget|Hget].
      - rewrite Header_Values_Add_eq. intros Habs. apply app_eq_nil in Habs.
        destruct Habs as [_ Habs]. discriminate.
      - intros Habs. apply Hget. unfold Header_Get. rewrite Habs. reflexivity. }
    split; [exact Hext'|]. split; [exact Hconn|]. split; [exact Hle | exact Hprog]. }
  destruct args as [|arg args].
  - apply Hfinish; [apply extendsHeader_refl | reflexivity | intros H; contradiction].
  - change (execArgs Serial QueryEscape CanonicalMIMEHeaderKey (arg :: args) s0)
      with (execArgs' (arg :: args) s0).
    destruct (execArgs_extends (arg :: args) s0) as [Hext Hconn].
    destruct (execArgs' (arg :: args) s0) as [s [[]|e|m]]; cbn [fst] in Hext, Hconn;
      [|cbn [snd]; discriminate|cbn [snd]; discriminate].
    set (accepted := ((bool_decide (progressUpdater (es_conn s) <> None)
                       && (progressUpdaterPeriod (es_conn s) =? 0))
                      || (bool_decide (progressUpdater (es_conn s) = None)
                          && (progressUpdaterPeriod (es_conn s) >? 0)))).
    destruct accepted eqn:Haccepted; [cbn [snd]; discriminate|].
    assert (Hprog : progressOptionsAccepted (es_conn s)).
    { subst accepted. apply orb_false_iff in Haccepted. destruct Haccepted as [H1 H2].
      apply andb_false_iff in H1. apply andb_false_iff in H2. split.
      - intros Hupd. destruct H1 as [H1|H1].
        + apply bool_decide_eq_false in H1. contradiction.
        + apply Z.eqb_neq. exact H1.
      - intros Hnone. destruct H2 as [H2|H2].
        + apply bool_decide_eq_false in H2. contradiction.
        + rewrite Z.gtb_ltb in H2. apply Z.ltb_ge. exact H2. }
    destruct (es_ss s) as [|serialized ss]; [|destruct (useExplicitPrepare (es_conn s))];
      apply Hfinish; try exact Hext; try exact Hconn; intros _; exact Hprog.
Qed.

End ExecInvariants.

Lemma exec_request_invariants_witness :
  exists req,
    snd (execWith mixedArguments) = Ok req /\
    (exists rest,
       Header_Values (req_hs req) clientCapabilitiesHeader = "PARAMETRIC_DATETIME" :: rest) /\
    Header_Values (req_hs req) trinoQueryDataEncodingHeader <> [] /\
    extendsHeader (es_hs (fst (execWith mixedArguments))) (req_hs req) /\
    httpHeaders (es_conn (fst (execWith mixedArguments))) = httpHeaders freshConn /\
    spoolingWorkerCount (es_st (fst (execWith mixedArguments)))
      <= spoolingMaxOutOfOrderSegments (es_st (fst (execWith mixedArguments))) /\
    progressOptionsAccepted (es_conn (fst (execWith mixedArguments))).
Proof.
  destruct (snd (execWith mixedArguments)) as [req|e|m] eqn:Hreq;
    [|vm_compute in Hreq; discriminate..].
  exists req. split; [reflexivity|].
  destruct (exec_request_invariants serialStub sameString sameString freshConn freshStmt
              mixedArguments req Hreq) as (H1 & H2 & H3 & H4 & H5 & H6).
  split; [exact H1|]. split; [exact H2|]. split; [exact H3|]. split; [exact H4|].
  split; [exact H5|]. apply H6. discriminate.
Defined.

Example exec_mixed_arguments_run :
  option_map
    (fun req =>
       (req_query req,
        Header_Values (req_hs req) clientCapabilitiesHeader,
        Header_Values (req_hs req) trinoQueryDataEncodingHeader,
        Header_Values (req_hs req) "X-Trino-Source"))
    (match snd (execWith mixedArguments) with
     | Ok req => Some req
     | _ => None
     end)
  = Some ("EXECUTE _trino_go USING 'a', NULL",
          ["PARAMETRIC_DATETIME"], ["json+zstd"], ["cli"]) /\
  spoolingWorkerCount (es_st (fst (execWith mixedArguments))) = 3 /\
  spoolingMaxOutOfOrderSegments (es_st (fst (execWith mixedArguments))) = 4 /\
  progressUpdater (es_conn (fst (execWith mixedArguments))) = Some 1%nat /\
  progressUpdaterPeriod (es_conn (fst (execWith mixedArguments))) = Second.
Proof. repeat split; vm_compute; reflexivity. Qed.

Lemma Atoi_error (text : string) (e : error) :
  Atoi text = Err e -> isSpoolingConfigError e = false.
Proof.
  unfold Atoi.
  destruct (match text with
            | String "+"%char rest => (false, rest)
            | String "-"%char rest => (true, rest)
            | _ => (false, text)
            end) as [negative digits].
  destruct digits as [|c digits]; [intros H; injection H as <-; reflexivity|].
  destruct (parseDigits (String c digits) 0) as [n|];
    [|intros H; injection H as <-; reflexivity].
  destruct ((int64_min <=? (if negative then - n else n))
            && ((if negative then - n else n) <=? int64_max));
    [discriminate | intros H; injection H as <-; reflexivity].
Qed.

Section ExecFailures.

Variable Serial : driverValue -> outcome string.
Variable QueryEscape : string -> string.
Variable CanonicalMIMEHeaderKey : string -> string.

(** [Serial] has errors of its own; it does not make the error of the
    spooling check. *)
Hypothesis Serial_errors :
  forall v e, Serial v = Err e -> isSpoolingConfigError e = false.

Let execArg' := execArg Serial QueryEscape CanonicalMIMEHeaderKey.
Let execArgs' := execArgs Serial QueryEscape CanonicalMIMEHeaderKey.
Let exec' := exec Serial QueryEscape CanonicalMIMEHeaderKey.

Lemma execArg_error (arg : NamedValue) (s : execState) (e : error) :
  snd (execArg' arg s) = Err e -> isSpoolingConfigError e = false.
Proof.
  unfold execArg', execArg, assertString. cbn zeta.
  destruct (Value arg) eqn:Hvalue; cbn [bindOutcome];
    repeat match goal with
           | |- context [if ?c then _ else _] => destruct c
           | |- context [match Serial ?v with _ => _ end] =>
               let H := fresh "Hserial" in destruct (Serial v) eqn:H
           | |- context [match Atoi ?v with _ => _ end] =>
               let H := fresh "Hatoi" in destruct (Atoi v) eqn:H
           end;
    cbn [snd]; try discriminate;
    intros Herr; injection Herr as <-;
    first [ eapply Serial_errors; eassumption | eapply Atoi_error; eassumption ].
Qed.

Lemma execArgs_error (args : list NamedValue) :
  forall (s : execState) (e : error),
    snd (execArgs' args s) = Err e -> isSpoolingConfigError e = false.
Proof.
  induction args as [|arg args IH]; intros s e.
  - cbn. discriminate.
  - unfold execArgs'. cbn [execArgs]. fold execArgs'.
    change (execArg Serial QueryEscape CanonicalMIMEHeaderKey arg s) with (execArg' arg s).
    pose proof (execArg_error arg s) as Harg.
    destruct (execArg' arg s) as [s' [[]|e'|m]]; cbn [snd] in *.
    + apply IH.
    + intros H. injection H as <-. apply Harg. reflexivity.
    + discriminate.
Qed.

(** X15.  The spooling options that [exec] rejects stay on the statement:
    the arguments are stored in [st] before the check, so when [exec]
    returns the spooling configuration error, a later [exec] of the same
    statement without arguments fails with the very same error. *)
Theorem exec_rejected_spooling_options_persist
    (conn : Conn) (st : driverStmt) (args : list NamedValue) (e : error) :
  snd (exec' conn st args) = Err e ->
  isSpoolingConfigError e = true ->
  let s := fst (exec' conn st args) in
  spoolingWorkerCount (es_st s) > spoolingMaxOutOfOrderSegments (es_st s) /\
  e = Errorf fmtSpoolingWorkers
        [opInt (spoolingWorkerCount (es_st s));
         opInt (spoolingMaxOutOfOrderSegments (es_st s))] /\
  snd (exec' (es_conn s) (es_st s) []) = Err e.
Proof.
  intros Herr Hkind s.
  assert (Hcheck : spoolingWorkerCount (es_st s) > spoolingMaxOutOfOrderSegments (es_st s) /\
                   e = Errorf fmtSpoolingWorkers
                         [opInt (spoolingWorkerCount (es_st s));
                          opInt (spoolingMaxOutOfOrderSegments (es_st s))]).
  { subst s. revert Herr. unfold exec', exec. cbn zeta.
    set (s0 := mkExecState conn st _ []).
    assert (Hfinish : forall (s : execState) (text : string),
              snd (if spoolingWorkerCount (es_st s) >? spoolingMaxOutOfOrderSegments (es_st s)
                   then (s, Err (Errorf fmtSpoolingWorkers
                                   [opInt (spoolingWorkerCount (es_st s));
                                    opInt (spoolingMaxOutOfOrderSegments (es_st s))]))
                   else (s, Ok (mkStatementRequest text
                                  (if String.eqb
                                        (Header_Get (es_hs s) trinoQueryDataEncodingHeader) ""
                                   then Header_Add (es_hs s) trinoQueryDataEncodingHeader
                                          defaulttrinoEncoding
                                   else es_hs s)))) = Err e ->
              let s' := fst (if spoolingWorkerCount (es_st s)
                                  >? spoolingMaxOutOfOrderSegments (es_st s)
                             then (s, Err (Errorf fmtSpoolingWorkers
                                             [opInt (spoolingWorkerCount (es_st s));
                                              opInt (spoolingMaxOutOfOrderSegments (es_st s))]))
                             else (s, Ok (mkStatementRequest text
                                            (if String.eqb
                                                  (Header_Get (es_hs s)
                                                     trinoQueryDataEncodingHeader) ""
                                             then Header_Add (es_hs s)
                                                    trinoQueryDataEncodingHeader
                                                    defaulttrinoEncoding
                                             else es_hs s)))) in
              spoolingWorkerCount (es_st s') > spoolingMaxOutOfOrderSegments (es_st s') /\
              e = Errorf fmtSpoolingWorkers
                    [opInt (spoolingWorkerCount (es_st s'));
                     opInt (spoolingMaxOutOfOrderSegments (es_st s'))]).
    { intros s text.
      destruct (Z.gtb_spec (spoolingWorkerCount (es_st s))
                  (spoolingMaxOutOfOrderSegments (es_st s))) as [Hgt|Hle];
        cbn [snd fst]; [|discriminate].
      intros H. injection H as <-. split; [lia | reflexivity]. }
    destruct args as [|arg args]; [apply Hfinish|].
    change (execArgs Serial QueryEscape CanonicalMIMEHeaderKey (arg :: args) s0)
      with (execArgs' (arg :: args) s0).
    pose proof (execArgs_error (arg :: args) s0) as Hloop.
    destruct (execArgs' (arg :: args) s0) as [s [[]|e'|m]]; cbn [snd] in Hloop.
    - destruct ((bool_decide (progressUpdater (es_conn s) <> None)
                 && (progressUpdaterPeriod (es_conn s) =? 0))
                || (bool_decide (progressUpdater (es_conn s) = None)
                    && (progressUpdaterPeriod (es_conn s) >? 0))).
      + cbn [snd]. intros H. injection H as <-. discriminate Hkind.
      + destruct (es_ss s) as [|serialized ss]; [|destruct (useExplicitPrepare (es_conn s))];
          apply Hfinish.
    - cbn [snd]. intros H. injection H as <-.
      rewrite (Hloop e' eq_refl) in Hkind. discriminate.
    - cbn [snd]. discriminate. }
  destruct Hcheck as [Hgt ->]. split; [exact Hgt|]. split; [reflexivity|].
  unfold exec', exec. cbn [es_st es_hs].
  destruct (Z.gtb_spec (spoolingWorkerCount (es_st s))
              (spoolingMaxOutOfOrderSegments (es_st s))) as [_|Hle]; [reflexivity | lia].
Qed.

End ExecFailures.

Lemma serialStub_errors (v : driverValue) (e : error) :
  serialStub v = Err e -> isSpoolingConfigError e = false.
Proof. destruct v; discriminate. Qed.

Lemma exec_rejected_spooling_options_persist_witness :
  snd (exec serialStub sameString sameString
         (es_conn (fst (execWith workersOnly))) (es_st (fst (execWith workersOnly))) [])
  = Err (Errorf fmtSpoolingWorkers [opInt 3; opInt 0]).
Proof.
  apply (exec_rejected_spooling_options_persist serialStub sameString sameString
           serialStub_errors freshConn freshStmt workersOnly
           (Errorf fmtSpoolingWorkers [opInt 3; opInt 0])).
  - vm_compute. reflexivity.
  - reflexivity.
Defined.

(** ** Scan types and converters *)

Lemma oneOf_array (t : string) : oneOf t ["array"] = true -> t = "array".
Proof. intros H. apply oneOf_In in H. destruct H as [<-|[]]. reflexivity. Qed.

Ltac scan_cases :=
  repeat match goal with
         | |- context [if oneOf ?a ?b then _ else _] =>
             let H := fresh "Hcase" in destruct (oneOf a b) eqn:H
         end;
  try discriminate.

Lemma getScanType2_Err (t2 : string) (rest : list string) (e : error) :
  getScanType2 t2 rest = Err e -> e = ErrInvalidResponseType /\ t2 = "array" /\ rest = [].
Proof.
  unfold getScanType2. scan_cases.
  destruct rest; [|discriminate].
  intros H. injection H as <-. auto using oneOf_array.
Qed.

Lemma getScanType1_Err (t1 : string) (rest : list string) (e : error) :
  getScanType1 t1 rest = Err e ->
  e = ErrInvalidResponseType /\ t1 = "array" /\ (rest = [] \/ rest = ["array"]).
Proof.
  unfold getScanType1. scan_cases.
  destruct rest as [|t2 rest].
  - intros H. injection H as <-. auto using oneOf_array.
  - intros H. apply getScanType2_Err in H. destruct H as (-> & -> & ->).
    auto using oneOf_array.
Qed.

Lemma getScanType_Err (typeNames : list string) (e : error) :
  getScanType typeNames = Err e -> e = ErrInvalidResponseType /\ In typeNames bareArrays.
Proof.
  unfold getScanType. destruct typeNames as [|t0 rest]; [discriminate|]. scan_cases.
  destruct rest as [|t1 rest].
  - intros H. injection H as <-. apply oneOf_array in Hcase8. subst. simpl. auto.
  - intros H. apply getScanType1_Err in H. destruct H as (-> & -> & Hrest).
    apply oneOf_array in Hcase8. subst.
    split; [reflexivity|]. destruct Hrest as [-> | ->]; simpl; auto.
Qed.

Lemma getScanType_no_panic (typeNames : list string) (m : string) :
  getScanType typeNames = Panic m -> typeNames = [].
Proof.
  unfold getScanType. destruct typeNames as [|t0 rest]; [reflexivity|]. scan_cases.
  destruct rest as [|t1 rest]; [discriminate|].
  unfold getScanType1. scan_cases.
  destruct rest as [|t2 rest]; [discriminate|].
  unfold getScanType2. scan_cases.
  destruct rest; discriminate.
Qed.

Lemma longParameter_outcome (a : typeArgument) :
  longParameter a = Err ErrInvalidResponseType \/ exists n, longParameter a = Ok n.
Proof.
  unfold longParameter. destruct (negb (String.eqb (Kind a) KIND_LONG)); eauto.
Qed.

(** X16.  [getScanType] fails exactly on an array nested up to three deep
    that names no element type, and then with the invalid-response error;
    it panics on an empty list of names only.  [newTypeConverter] always
    hands it a list that starts with the raw type, so it never panics, and
    the invalid-response error is the only one it returns. *)
Theorem converter_failures (typeName : string) (signature : typeSignature)
    (typeNames : list string) :
  ((exists e, getScanType typeNames = Err e) <-> In typeNames bareArrays) /\
  (forall e, getScanType typeNames = Err e -> e = ErrInvalidResponseType) /\
  ((exists m, getScanType typeNames = Panic m) <-> typeNames = []) /\
  (forall m, newTypeConverter typeName signature <> Panic m) /\
  (forall e, newTypeConverter typeName signature = Err e -> e = ErrInvalidResponseType).
Proof.
  split.
  { split.
    - intros [e H]. apply (getScanType_Err _ _ H).
    - unfold bareArrays. simpl. intros [<-|[<-|[<-|[]]]]; eexists; reflexivity. }
  split; [intros e H; apply (getScanType_Err _ _ H)|].
  split.
  { split.
    - intros [m H]. apply (getScanType_no_panic _ _ H).
    - intros ->. eexists. reflexivity. }
  assert (Hscan : (exists t, getScanType (getNestedTypes [] signature) = Ok t) \/
                  getScanType (getNestedTypes [] signature) = Err ErrInvalidResponseType).
  { destruct (getScanType (getNestedTypes [] signature)) as [t|e|m] eqn:H.
    - left. eauto.
    - right. apply getScanType_Err in H. destruct H as [-> _]. reflexivity.
    - apply getScanType_no_panic in H. destruct (parsedType_head signature) as [tail E].
      rewrite E in H. discriminate. }
  assert (Hall : newTypeConverter typeName signature = Err ErrInvalidResponseType \/
                 exists c, newTypeConverter typeName signature = Ok c).
  { unfold newTypeConverter. cbn zeta.
    destruct Hscan as [[t ->] | ->]; cbn [bindOutcome]; [|auto].
    repeat match goal with
           | |- context [if oneOf ?a ?b then _ else _] => destruct (oneOf a b)
           end;
      destruct (Arguments signature) as [|a0 [|a1 rest]]; eauto;
      destruct (longParameter_outcome a0) as [-> | [n0 ->]]; cbn [bindOutcome]; eauto;
      destruct (longParameter_outcome a1) as [-> | [n1 ->]]; cbn [bindOutcome]; eauto. }
  split.
  - intros m. destruct Hall as [-> | [c ->]]; discriminate.
  - intros e. destruct Hall as [-> | [c ->]]; [intros H; injection H as <-; reflexivity|].
    discriminate.
Qed.

Example newTypeConverter_bare_array :
  newTypeConverter "array(array(1))" array_of_array = Err ErrInvalidResponseType.
Proof. vm_compute. reflexivity. Qed.

(** ** Converting values *)

Lemma newTypeConverter_fields (name : string) (signature : typeSignature)
    (c : typeConverter) :
  newTypeConverter name signature = Ok c ->
  typeName c = name /\ parsedType c = getNestedTypes [] signature.
Proof.
  unfold newTypeConverter. cbn zeta.
  destruct (getScanType (getNestedTypes [] signature)) as [t|e|m]; cbn [bindOutcome];
    [|discriminate|discriminate].
  repeat match goal with
         | |- context [if oneOf ?a ?b then _ else _] => destruct (oneOf a b)
         end;
    destruct (Arguments signature) as [|a0 [|a1 rest]];
    try (intros H; injection H as <-; split; reflexivity);
    destruct (longParameter a0) as [n0|e0|m0]; cbn [bindOutcome]; try discriminate;
    try (intros H; injection H as <-; split; reflexivity);
    destruct (longParameter a1) as [n1|e1|m1]; cbn [bindOutcome]; try discriminate;
    intros H; injection H as <-; split; reflexivity.
Qed.


Lemma Split_trailing_space (s : string) :
  exists part parts, Split (s +:+ " ") " " = part :: parts ++ [EmptyString].
Proof.
  induction s as [|c s (part & parts & IH)].
  - exists EmptyString, []. reflexivity.
  - change (String c s +:+ " ") with (String c (s +:+ " ")). cbn [Split]. rewrite IH.
    destruct (Ascii.eqb c " ").
    + exists EmptyString, (part :: parts). reflexivity.
    + exists (String c part), parts. reflexivity.
Qed.

Lemma lastPart_snoc (part : string) (parts : list string) (x : string) :
  lastPart (part :: parts ++ [x]) = x.
Proof.
  unfold lastPart. change (part :: parts ++ [x]) with ((part :: parts) ++ [x]).
  apply List.last_last.
Qed.

Section ConvertProperties.

Variable fmtV : jsonValue -> string.
Variable fmtT : jsonValue -> string.
Variable numberInt64 : string -> outcome Z.
Variable numberFloat64 : string -> outcome float.
Variable ParseFloat : string -> outcome float.
Variable DecodeString : string -> outcome (list byte).
Variable Time : Type.
Variable zeroTime : Time.
Variable Location : Type.
Variable Local : Location.
Variable LoadLocation : string -> outcome Location.
Variable timeParse : string -> string -> outcome Time.
Variable ParseInLocation : string -> string -> Location -> outcome Time.

Let ConvertValue' :=
  ConvertValue fmtV fmtT numberInt64 numberFloat64 ParseFloat DecodeString Time zeroTime
    Location Local LoadLocation timeParse ParseInLocation.
Let scanNullTime' :=
  scanNullTime fmtV fmtT Time zeroTime Location Local LoadLocation timeParse ParseInLocation.


(** X18.  A time value whose text ends in a space makes [scanNullTime]
    panic: the text is split at the spaces and the first byte of the last
    part is read although that part is empty.  So does [ConvertValue] on a
    date, time or timestamp column. *)
Theorem scanNullTime_trailing_space
    (name : string) (signature : typeSignature) (c : typeConverter) (text : string) :
  newTypeConverter name signature = Ok c ->
  In (RawType signature) temporalTypes ->
  scanNullTime' (JString (text +:+ " ")) = Panic "index out of range [0] with length 0" /\
  ConvertValue' c (JString (text +:+ " ")) = Panic "index out of range [0] with length 0".
Proof.
  intros Hc Hin.
  assert (Hscan : scanNullTime' (JString (text +:+ " "))
                  = Panic "index out of range [0] with length 0").
  { unfold scanNullTime', scanNullTime. cbn zeta.
    destruct (Split_trailing_space text) as (part & parts & ->).
    rewrite lastPart_snoc.
    assert (Hlen : (len (part :: parts ++ [EmptyString]) >? 1) = true).
    { unfold len. cbn [length]. rewrite length_app. cbn [length].
      apply Z.gtb_lt. lia. }
    rewrite Hlen. reflexivity. }
  split; [exact Hscan|].
  destruct (newTypeConverter_fields _ _ _ Hc) as [Hname Hparsed].
  destruct (parsedType_head signature) as [tail Htail]. rewrite Htail in Hparsed.
  unfold ConvertValue', ConvertValue. rewrite Hparsed.
  fold scanNullTime'.
  unfold temporalTypes in Hin. simpl in Hin.
  repeat (destruct Hin as [Hin|Hin];
          [rewrite <- Hin;
           change (oneOf ?a ?b) with (oneOf a b);
           cbv beta iota delta [oneOf existsb String.eqb Ascii.eqb Bool.eqb orb
                                  convertedStringTypes integerTypes floatTypes temporalTypes];
           rewrite Hscan; reflexivity|]).
  contradiction.
Qed.

End ConvertProperties.


Lemma scanNullTime_trailing_space_witness :
  scanTimeWith (JString "2024-01-01 00:00:00 ") = Panic "index out of range [0] with length 0" /\
  convertWith timestampConverter (JString "2024-01-01 00:00:00 ")
  = Panic "index out of range [0] with length 0".
Proof.
  apply (scanNullTime_trailing_space fmtStub fmtStub int64Stub floatStub floatStub
           base64Stub Z 0 string "Local" loadStub parseStub parseInStub
           "timestamp(3)" timestamp_3 timestampConverter "2024-01-01 00:00:00").
  - reflexivity.
  - simpl. auto.
Defined.

Example convert_values_run :
  convertWith timestampConverter JNull = Ok cvNil /\
  convertWith (mkTypeConverter "bigint" ["bigint"] tNullInt64 noInt64 noInt64 noInt64)
    (JNumber "42") = Ok (cvInt64 42) /\
  convertWith (mkTypeConverter "bigint" ["bigint"] tNullInt64 noInt64 noInt64 noInt64)
    (JString "42")
  = Err (Errorf "cannot convert %v (%T) to int64" [opString "?"; opString "?"]).
Proof. repeat split; vm_compute; reflexivity. Qed.

(** ** The slice scanners *)

Lemma scanEach_replace {A : Type} (scan : jsonValue -> outcome A) (v1 v2 : jsonValue)
    (before after : list jsonValue) :
  scan v1 = scan v2 ->
  scanEach scan (before ++ v1 :: after) = scanEach scan (before ++ v2 :: after).
Proof.
  intros H. induction before as [|v before IH]; cbn [app scanEach].
  - rewrite H. reflexivity.
  - rewrite IH. reflexivity.
Qed.

Lemma scanEach_Ok {A : Type} (scan : jsonValue -> outcome A) (vs : list jsonValue) :
  forall xs, scanEach scan vs = Ok xs -> Forall2 (fun v x => scan v = Ok x) vs xs.
Proof.
  induction vs as [|v vs IH]; intros xs; cbn [scanEach].
  - intros H. injection H as <-. apply List.Forall2_nil.
  - destruct (scan v) as [a|e|m] eqn:Hv; cbn [bindOutcome]; [|discriminate|discriminate].
    destruct (scanEach scan vs) as [rest|e|m]; cbn [bindOutcome]; [|discriminate|discriminate].
    intros H. injection H as <-. apply List.Forall2_cons; [exact Hv | apply IH; reflexivity].
Qed.

Section ScanProperties.

Variable fmtV : jsonValue -> string.
Variable fmtT : jsonValue -> string.

Let Scan1 := NullSliceBool_Scan fmtV fmtT.
Let Scan2 := NullSlice2Bool_Scan fmtV fmtT.
Let Scan3 := NullSlice3Bool_Scan fmtV fmtT.

(** X19.  [NullSliceBool.Scan] keeps the shape of a JSON array of
    booleans: one entry per element, a NULL element as an entry that is not
    valid.  One level up the shape is not kept: [NullSlice2Bool.Scan] and
    [NullSlice3Bool.Scan] store only the slice of what the inner [Scan]
    produced, so a NULL inner array and an empty inner array give the same
    result. *)
Theorem slice_scan_shape (vs before after : list jsonValue)
    (r : nullSlice (sqlNull bool)) :
  Scan1 (JArray vs) = Ok r ->
  (sliceValid r = true /\
   Forall2
     (fun v entry =>
        (v = JNull /\ entry = mkSqlNull false false) \/
        (exists b, v = JBool b /\ entry = mkSqlNull b true))
     vs (Slice r)) /\
  Scan2 (JArray (before ++ JNull :: after)) = Scan2 (JArray (before ++ JArray [] :: after)) /\
  Scan3 (JArray (before ++ JNull :: after)) = Scan3 (JArray (before ++ JArray [] :: after)).
Proof.
  intros Hscan. split; [|split].
  - unfold Scan1, NullSliceBool_Scan in Hscan.
    destruct (scanEach (scanNullBool fmtV fmtT) vs) as [slice|e|m] eqn:Heach;
      cbn [bindOutcome] in Hscan; [|discriminate|discriminate].
    injection Hscan as <-. cbn [sliceValid Slice]. split; [reflexivity|].
    apply scanEach_Ok in Heach.
    eapply List.Forall2_impl; [|exact Heach].
    intros v entry Hv. unfold scanNullBool in Hv.
    destruct v; try discriminate; injection Hv as <-; eauto.
  - unfold Scan2, NullSlice2Bool_Scan.
    rewrite (scanEach_replace _ JNull (JArray []) before after); reflexivity.
  - unfold Scan3, NullSlice3Bool_Scan.
    rewrite (scanEach_replace _ JNull (JArray []) before after); reflexivity.
Qed.

End ScanProperties.

Lemma slice_scan_shape_witness :
  NullSlice2Bool_Scan fmtStub fmtStub (JArray [JArray [JBool true]; JNull])
  = NullSlice2Bool_Scan fmtStub fmtStub (JArray [JArray [JBool true]; JArray []]).
Proof.
  destruct (slice_scan_shape fmtStub fmtStub [JBool true; JNull] [JArray [JBool true]] []
              (mkNullSlice [mkSqlNull true true; mkSqlNull false false] true) eq_refl)
    as (_ & H & _).
  exact H.
Defined.

(** ** Spooled segments *)

Lemma queueSegments_prefix (encoding : string) (segments : list jsonValue) :
  forall segmentIndex : Z,
    let '(queued, err) := queueSegments encoding segmentIndex segments in
    map qs_segment queued = leadingObjects segments /\
    map qs_segmentIndex queued
    = map (fun i => segmentIndex + Z.of_nat i) (seq 0 (length queued)) /\
    Forall (fun q => qs_encoding q = encoding) queued /\
    (err = None <-> forallb isObject segments = true) /\
    (forall e, err = Some e ->
       e = Errorf fmtSegmentInvalid
             [opInt (segmentIndex + len queued); opString "map[string]interface {}"]).
Proof.
  induction segments as [|segment segments IH]; intros segmentIndex.
  - cbn. split; [reflexivity|]. split; [reflexivity|]. split; [constructor|].
    split; [split; reflexivity | discriminate].
  - assert (Hbad : isObject segment = false ->
              queueSegments encoding segmentIndex (segment :: segments)
              = ([], Some (Errorf fmtSegmentInvalid
                             [opInt segmentIndex; opString "map[string]interface {}"])) /\
              leadingObjects (segment :: segments) = []).
    { destruct segment; try discriminate; intros _; split; reflexivity. }
    destruct (isObject segment) eqn:Hobj.
    + destruct segment as [| | | | |fields]; try discriminate.
      cbn [queueSegments leadingObjects forallb isObject andb].
      specialize (IH (segmentIndex + 1)).
      destruct (queueSegments encoding (segmentIndex + 1) segments) as [queued err].
      destruct IH as (Hseg & Hidx & Henc & Herr & Hfmt).
      cbn [map length qs_segment qs_segmentIndex seq].
      split; [rewrite Hseg; reflexivity|].
      split.
      { rewrite Hidx, Z.add_0_r. f_equal. rewrite <- seq_shift, map_map.
        apply map_ext. intros i. lia. }
      split; [constructor; [reflexivity | exact Henc]|].
      split; [exact Herr|].
      intros e He. rewrite (Hfmt e He). unfold len. cbn [length].
      do 3 f_equal. lia.
    + destruct (Hbad eq_refl) as [-> ->].
      cbn [map length seq forallb andb]. rewrite Hobj.
      split; [reflexivity|]. split; [reflexivity|]. split; [constructor|].
      split; [split; discriminate|].
      intros e He. injection He as <-. unfold len. cbn [length]. rewrite Z.add_0_r.
      reflexivity.
Qed.

(** X20.  [queueSpoolingSegments] sends the segments on in their order,
    each with its position as index and the response's encoding, up to the
    first element that is not a JSON object; it returns an error exactly
    when there is such an element, after the segments before it were sent.
    The error names the position, and reports the type as the map type
    whatever the element was. *)
Theorem queueSpoolingSegments_prefix
    (data : jsonMap) (encoding : string) (segments : list jsonValue) :
  mapIndex data "encoding" = Some (JString encoding) ->
  mapIndex data "segments" = Some (JArray segments) ->
  map qs_segment (fst (queueSpoolingSegments data)) = leadingObjects segments /\
  map qs_segmentIndex (fst (queueSpoolingSegments data))
  = map Z.of_nat (seq 0 (length (fst (queueSpoolingSegments data)))) /\
  Forall (fun q => qs_encoding q = encoding) (fst (queueSpoolingSegments data)) /\
  (snd (queueSpoolingSegments data) = None <-> forallb isObject segments = true) /\
  (forall e, snd (queueSpoolingSegments data) = Some e ->
     e = Errorf fmtSegmentInvalid
           [opInt (len (fst (queueSpoolingSegments data)));
            opString "map[string]interface {}"]).
Proof.
  intros Henc Hsegs. unfold queueSpoolingSegments. rewrite Henc, Hsegs.
  pose proof (queueSegments_prefix encoding segments 0) as H.
  destruct (queueSegments encoding 0 segments) as [queued err]. cbn [fst snd].
  destruct H as (H1 & H2 & H3 & H4 & H5).
  split; [exact H1|]. split; [exact H2|]. split; [exact H3|]. split; [exact H4 | exact H5].
Qed.

Lemma queueSpoolingSegments_prefix_witness :
  map qs_segment (fst (queueSpoolingSegments spoolingData))
  = leadingObjects [JObject [("type", JString "inline")]; JString "oops"; JObject []].
Proof.
  apply (queueSpoolingSegments_prefix spoolingData "json+zstd"
           [JObject [("type", JString "inline")]; JString "oops"; JObject []]);
    reflexivity.
Defined.

Example queueSpoolingSegments_run :
  queueSpoolingSegments spoolingData
  = ([mkQueuedSegment 0 "json+zstd" [("type", JString "inline")]],
     Some (Errorf fmtSegmentInvalid [opInt 1; opString "map[string]interface {}"])).
Proof. vm_compute. reflexivity. Qed.

Section SpooledSegmentsProperties.

Variable fmtT : jsonValue -> string.
Variable numberInt64 : string -> outcome Z.
Variable DecodeString : string -> list byte * option error.
Variable zstdReadAll : list byte -> zstdRun.
Variable lz4UncompressBlock : list byte -> Z -> outcome (list byte).
Variable jsonDecodeRows : list byte -> outcome (list queryData).

Let parseSegmentMetadata' := parseSegmentMetadata fmtT numberInt64.
Let dispatchSegment' := dispatchSegment fmtT numberInt64 DecodeString.
Let decompressSegment' := decompressSegment zstdReadAll lz4UncompressBlock.
Let decodeSegment' := decodeSegment zstdReadAll lz4UncompressBlock jsonDecodeRows.

Lemma getInt64_Ok (metadata : jsonMap) (key : string) (n : Z) :
  getInt64 fmtT numberInt64 metadata key = Ok n ->
  exists num, mapIndex metadata key = Some (JNumber num) /\ numberInt64 num = Ok n.
Proof.
  unfold getInt64, parseInt64. destruct (mapIndex metadata key) as [val|]; [|discriminate].
  destruct val; try discriminate.
  destruct (numberInt64 literal) as [n'|e|m] eqn:Hnum; try discriminate.
  intros H. injection H as <-. eauto.
Qed.

(** X21.  [parseSegmentMetadata] succeeds only when [rowOffset] and
    [segmentSize] are there as numbers that fit an [int64]; it asks for
    [rowOffset] first.  [uncompressedSize] and [rowsCount] may be absent
    and are then zero, and with [uncompressedSize] zero [decompressSegment]
    hands the bytes back as they are, whatever the encoding says: a
    segment whose metadata names no uncompressed size is never
    decompressed. *)
Theorem segment_metadata_defaults (metadata : jsonMap) :
  (mapIndex metadata "rowOffset" = None ->
   parseSegmentMetadata' metadata = Err (Errorf fmtMissingField [opString "rowOffset"])) /\
  (forall md, parseSegmentMetadata' metadata = Ok md ->
     (exists num, mapIndex metadata "rowOffset" = Some (JNumber num) /\
                  numberInt64 num = Ok (rowOffset md)) /\
     (exists num, mapIndex metadata "segmentSize" = Some (JNumber num) /\
                  numberInt64 num = Ok (segmentSize md)) /\
     (mapIndex metadata "rowsCount" = None -> rowsCount md = 0) /\
     (mapIndex metadata "uncompressedSize" = None ->
        uncompressedSize md = 0 /\
        forall data encoding, decompressSegment' data encoding md = Ok data)).
Proof.
  split.
  { intros Hmissing. unfold parseSegmentMetadata', parseSegmentMetadata, getInt64.
    rewrite Hmissing. reflexivity. }
  intros md. unfold parseSegmentMetadata', parseSegmentMetadata.
  destruct (getInt64 fmtT numberInt64 metadata "rowOffset") as [ro|e|m] eqn:Hro;
    cbn [bindOutcome]; [|discriminate|discriminate].
  destruct (getInt64 fmtT numberInt64 metadata "segmentSize") as [ss|e|m] eqn:Hss;
    cbn [bindOutcome]; [|discriminate|discriminate].
  destruct (getOptionalInt64 fmtT numberInt64 metadata "uncompressedSize") as [us|e|m] eqn:Hus;
    cbn [bindOutcome]; [|discriminate|discriminate].
  destruct (getOptionalInt64 fmtT numberInt64 metadata "rowsCount") as [rc|e|m] eqn:Hrc;
    cbn [bindOutcome]; [|discriminate|discriminate].
  intros H. injection H as <-. cbn [rowOffset segmentSize rowsCount uncompressedSize].
  split; [apply getInt64_Ok; exact Hro|].
  split; [apply getInt64_Ok; exact Hss|].
  split.
  { intros Hnone. unfold getOptionalInt64 in Hrc. rewrite Hnone in Hrc. congruence. }
  intros Hnone. unfold getOptionalInt64 in Hus. rewrite Hnone in Hus.
  injection Hus as <-. split; [reflexivity|].
  intros data encoding. reflexivity.
Qed.

(** [json.Number.Int64] returns a number or an error. *)
Hypothesis numberInt64_returns : forall num m, numberInt64 num <> Panic m.

Lemma parseSegmentMetadata_returns (metadata : jsonMap) (m : string) :
  parseSegmentMetadata' metadata <> Panic m.
Proof.
  assert (Hget : forall key m', getInt64 fmtT numberInt64 metadata key <> Panic m').
  { intros key m'. unfold getInt64, parseInt64.
    destruct (mapIndex metadata key) as [[]|]; try discriminate.
    destruct (numberInt64 literal) eqn:Hnum; try discriminate.
    exfalso. eapply numberInt64_returns. exact Hnum. }
  assert (Hopt : forall key m', getOptionalInt64 fmtT numberInt64 metadata key <> Panic m').
  { intros key m'. unfold getOptionalInt64, parseInt64.
    destruct (mapIndex metadata key) as [[]|]; try discriminate.
    destruct (numberInt64 literal) eqn:Hnum; try discriminate.
    exfalso. eapply numberInt64_returns. exact Hnum. }
  unfold parseSegmentMetadata', parseSegmentMetadata.
  destruct (getInt64 fmtT numberInt64 metadata "rowOffset") as [ro|e|m1] eqn:Hro;
    cbn [bindOutcome]; [|discriminate|exfalso; eapply Hget; exact Hro].
  destruct (getInt64 fmtT numberInt64 metadata "segmentSize") as [ss|e|m1] eqn:Hss;
    cbn [bindOutcome]; [|discriminate|exfalso; eapply Hget; exact Hss].
  destruct (getOptionalInt64 fmtT numberInt64 metadata "uncompressedSize") as [us|e|m1] eqn:Hus;
    cbn [bindOutcome]; [|discriminate|exfalso; eapply Hopt; exact Hus].
  destruct (getOptionalInt64 fmtT numberInt64 metadata "rowsCount") as [rc|e|m1] eqn:Hrc;
    cbn [bindOutcome]; [discriminate|discriminate|exfalso; eapply Hopt; exact Hrc].
Qed.

(** X22.  What the dispatcher hands on depends on the segment's [type]
    only.  A type other than [inline] and [spooled] hands nothing on (the
    token stays pushed).  A spooled segment goes to the download workers
    and an inline one with a string as [data] to the decoders, whatever
    errors were published about it, and always under index zero; an inline
    segment whose [data] is not a string panics the dispatcher. *)
Theorem dispatcher_forwards_by_type (queued : queuedSegment) :
  let d := dispatchSegment' queued in
  let segment := qs_segment queued in
  (segmentKindOf segment = otherSegment ->
     dispatchForwarded d = None /\ dispatchPanic d = None) /\
  (segmentKindOf segment = spooledSegment ->
     (exists spooled, dispatchForwarded d = Some (toDownloaders spooled)) /\
     dispatchPanic d = None) /\
  (segmentKindOf segment = inlineSegment ->
     forall data, mapIndex segment "data" = Some (JString data) ->
       (exists metadata,
          dispatchForwarded d
          = Some (toDecoders (mkSegmentToDecode 0 (qs_encoding queued)
                                (fst (DecodeString data)) metadata))) /\
       dispatchPanic d = None) /\
  (segmentKindOf segment = inlineSegment ->
     (forall data, mapIndex segment "data" <> Some (JString data)) ->
     dispatchForwarded d = None /\ dispatchPanic d <> None).
Proof.
  cbn zeta. unfold dispatchSegment', dispatchSegment, segmentKindOf. cbn zeta.
  set (errors1 := match mapIndex (qs_segment queued) "metadata" with
                  | Some _ => []
                  | None => _
                  end).
  set (typed := match mapIndex (qs_segment queued) "metadata" with
                | Some (JObject typed) => (typed, errors1)
                | _ => _
                end).
  destruct typed as [typedMetadata errors2].
  pose proof (parseSegmentMetadata_returns typedMetadata) as Hreturns.
  unfold parseSegmentMetadata' in Hreturns.
  destruct (parseSegmentMetadata fmtT numberInt64 typedMetadata) as [md|e|m];
    [| |exfalso; eapply Hreturns; reflexivity].
  - destruct (mapIndex (qs_segment queued) "type") as [[| | |type| |]|];
      try (repeat split; try discriminate; reflexivity).
    destruct (String.eqb type "inline") eqn:Hinline.
    + split; [discriminate|]. split; [discriminate|]. split.
      * intros _ data ->. destruct (DecodeString data) as [bytes err]. cbn [fst].
        split; [eexists; reflexivity | reflexivity].
      * intros _ Hdata.
        destruct (mapIndex (qs_segment queued) "data") as [[| | |data| |]|];
          try (split; [reflexivity | discriminate]).
        exfalso. apply (Hdata data). reflexivity.
    + destruct (String.eqb type "spooled") eqn:Hspooled.
      * split; [discriminate|]. split; [|split; discriminate].
        intros _.
        destruct (parseSpooledMetadata (qs_segment queued) 0 md (qs_encoding queued))
          as [spooled|e|m] eqn:Hparse.
        -- split; [eexists; reflexivity | reflexivity].
        -- split; [eexists; reflexivity | reflexivity].
        -- exfalso. revert Hparse. unfold parseSpooledMetadata.
           repeat match goal with
                  | |- context [match ?x with _ => _ end] => destruct x
                  end; discriminate.
      * split; [intros _; split; reflexivity|]. split; [discriminate|].
        split; discriminate.
  - destruct (mapIndex (qs_segment queued) "type") as [[| | |type| |]|];
      try (repeat split; try discriminate; reflexivity).
    destruct (String.eqb type "inline") eqn:Hinline.
    + split; [discriminate|]. split; [discriminate|]. split.
      * intros _ data ->. destruct (DecodeString data) as [bytes err]. cbn [fst].
        split; [eexists; reflexivity | reflexivity].
      * intros _ Hdata.
        destruct (mapIndex (qs_segment queued) "data") as [[| | |data| |]|];
          try (split; [reflexivity | discriminate]).
        exfalso. apply (Hdata data). reflexivity.
    + destruct (String.eqb type "spooled") eqn:Hspooled.
      * split; [discriminate|]. split; [|split; discriminate].
        intros _.
        destruct (parseSpooledMetadata (qs_segment queued) 0 zeroSegmentMetadata
                    (qs_encoding queued)) as [spooled|e'|m] eqn:Hparse.
        -- split; [eexists; reflexivity | reflexivity].
        -- split; [eexists; reflexivity | reflexivity].
        -- exfalso. revert Hparse. unfold parseSpooledMetadata.
           repeat match goal with
                  | |- context [match ?x with _ => _ end] => destruct x
                  end; discriminate.
      * split; [intros _; split; reflexivity|]. split; [discriminate|].
        split; discriminate.
Qed.

(** X23.  An inline segment that comes without [metadata] costs three
    errors (metadata missing, metadata invalid, [rowOffset] missing) and is
    handed to the decoders all the same, with metadata that is all zero.
    [decodeSegment] then checks its bytes against a segment size of zero,
    so any payload that is not empty fails there with the size mismatch. *)
Theorem dispatcher_forwards_unparsed_segment (queued : queuedSegment) (data : string) :
  mapIndex (qs_segment queued) "type" = Some (JString "inline") ->
  mapIndex (qs_segment queued) "data" = Some (JString data) ->
  mapIndex (qs_segment queued) "metadata" = None ->
  let d := dispatchSegment' queued in
  let bytes := fst (DecodeString data) in
  dispatchForwarded d
  = Some (toDecoders (mkSegmentToDecode 0 (qs_encoding queued) bytes zeroSegmentMetadata)) /\
  firstn 3 (dispatchErrors d)
  = [Errorf fmtMetadataMissing [opInt (qs_segmentIndex queued)];
     Errorf fmtMetadataInvalid [opInt (qs_segmentIndex queued)];
     Errorf fmtMissingField [opString "rowOffset"]] /\
  (snd (DecodeString data) = None -> length (dispatchErrors d) = 3%nat) /\
  dispatchPanic d = None /\
  (bytes <> [] ->
   decodeSegment' bytes (qs_encoding queued) zeroSegmentMetadata
   = Err (Errorf fmtSegmentSizeMismatch [opInt 0; opInt (len bytes)])).
Proof.
  intros Htype Hdata Hmeta. cbn zeta.
  unfold dispatchSegment', dispatchSegment. cbn zeta.
  rewrite Hmeta, Htype, Hdata. cbn [parseSegmentMetadata getInt64 mapIndex bindOutcome].
  cbn [String.eqb Ascii.eqb Bool.eqb].
  destruct (DecodeString data) as [bytes [err|]]; cbn [fst snd dispatchForwarded
    dispatchErrors dispatchPanic app firstn length].
  - split; [reflexivity|]. split; [reflexivity|]. split; [discriminate|].
    split; [reflexivity|].
    intros Hbytes. unfold decodeSegment', decodeSegment. cbn [segmentSize zeroSegmentMetadata].
    destruct (Z.eqb_spec (len bytes) 0) as [Hlen|_]; [|reflexivity].
    destruct bytes; [contradiction | discriminate Hlen].
  - split; [reflexivity|]. split; [reflexivity|]. split; [reflexivity|].
    split; [reflexivity|].
    intros Hbytes. unfold decodeSegment', decodeSegment. cbn [segmentSize zeroSegmentMetadata].
    destruct (Z.eqb_spec (len bytes) 0) as [Hlen|_]; [|reflexivity].
    destruct bytes; [contradiction | discriminate Hlen].
Qed.

End SpooledSegmentsProperties.

Lemma Atoi_returns (text m : string) : int64Stub text <> Panic m.
Proof.
  unfold int64Stub, Atoi.
  destruct (match text with
            | String "+"%char rest => (false, rest)
            | String "-"%char rest => (true, rest)
            | _ => (false, text)
            end) as [negative digits].
  destruct digits as [|c digits]; [discriminate|].
  destruct (parseDigits (String c digits) 0) as [n|]; [|discriminate].
  destruct ((int64_min <=? (if negative then - n else n))
            && ((if negative then - n else n) <=? int64_max)); discriminate.
Qed.

Lemma segment_metadata_defaults_witness :
  decompressSegment zstdStub lz4Stub threeBytes "json+zstd" (mkSegmentMetadata 10 0 3 0)
  = Ok threeBytes.
Proof.
  destruct (segment_metadata_defaults typeStub int64Stub zstdStub lz4Stub
              metadataWithoutSizes) as [_ H].
  destruct (H (mkSegmentMetadata 10 0 3 0) eq_refl) as (_ & _ & _ & Hd).
  apply Hd. reflexivity.
Defined.

Lemma dispatcher_forwards_by_type_witness :
  dispatchForwarded
    (dispatchSegment typeStub int64Stub decodeStub
       (mkQueuedSegment 0 "json" [("type", JString "direct")])) = None.
Proof.
  destruct (dispatcher_forwards_by_type typeStub int64Stub decodeStub Atoi_returns
              (mkQueuedSegment 0 "json" [("type", JString "direct")])) as (H & _).
  apply H. reflexivity.
Defined.

Lemma dispatcher_forwards_unparsed_segment_witness :
  dispatchForwarded (dispatchSegment typeStub int64Stub decodeStub inlineWithoutMetadata)
  = Some (toDecoders (mkSegmentToDecode 0 "json" [x00; x01; x02] zeroSegmentMetadata)) /\
  decodeSegment zstdStub lz4Stub jsonStub [x00; x01; x02] "json" zeroSegmentMetadata
  = Err (Errorf fmtSegmentSizeMismatch [opInt 0; opInt 3]).
Proof.
  destruct (dispatcher_forwards_unparsed_segment typeStub int64Stub decodeStub
              zstdStub lz4Stub jsonStub inlineWithoutMetadata "AAEC"
              eq_refl eq_refl eq_refl) as (Hf & _ & _ & _ & Hd).
  split; [exact Hf|]. apply Hd. discriminate.
Defined.

(** ** Map-valued DSN parameters *)

Lemma ContainsRune_app (s1 s2 : string) (c : ascii) :
  ContainsRune (s1 +:+ s2) c = ContainsRune s1 c || ContainsRune s2 c.
Proof.
  induction s1 as [|a s1 IH]; [reflexivity|].
  change (String a s1 +:+ s2) with (String a (s1 +:+ s2)).
  cbn [ContainsRune]. rewrite IH. apply orb_assoc.
Qed.

Lemma SplitN2_cut (sep : ascii) (k v : string) :
  ContainsRune k sep = false -> SplitN2 (k +:+ String sep v) sep = [k; v].
Proof.
  induction k as [|c k IH]; intros Hk.
  - change ("" +:+ String sep v) with (String sep v).
    cbn [SplitN2]. rewrite Ascii.eqb_refl. reflexivity.
  - change (String c k +:+ String sep v) with (String c (k +:+ String sep v)).
    cbn [ContainsRune] in Hk. apply orb_false_iff in Hk. destruct Hk as [Hc Hk].
    cbn [SplitN2]. rewrite Hc, (IH Hk). reflexivity.
Qed.

Lemma SplitN2_inv (sep : ascii) (s : string) :
  forall k v, SplitN2 s sep = [k; v] ->
    s = k +:+ String sep v /\ ContainsRune k sep = false.
Proof.
  induction s as [|c s IH]; intros k v; cbn [SplitN2]; [discriminate|].
  destruct (Ascii.eqb_spec c sep) as [->|Hc].
  - intros H. injection H as <- <-. split; reflexivity.
  - destruct (SplitN2 s sep) as [|part parts]; [discriminate|].
    intros H. injection H as <- ->.
    destruct (IH part v eq_refl) as [-> Hpart].
    split; [reflexivity|]. cbn [ContainsRune].
    destruct (Ascii.eqb_spec c sep); [contradiction | exact Hpart].
Qed.

Lemma Split_nonempty (s : string) (sep : ascii) : Split s sep <> [].
Proof.
  destruct s as [|c s]; cbn [Split]; [discriminate|].
  destruct (Ascii.eqb c sep); [discriminate|].
  destruct (Split s sep); discriminate.
Qed.

Lemma Split_cut (s1 s2 : string) (sep : ascii) :
  ContainsRune s1 sep = false ->
  Split (s1 +:+ String sep s2) sep = s1 :: Split s2 sep.
Proof.
  induction s1 as [|c s1 IH]; intros H.
  - change ("" +:+ String sep s2) with (String sep s2).
    cbn [Split]. rewrite Ascii.eqb_refl. reflexivity.
  - change (String c s1 +:+ String sep s2) with (String c (s1 +:+ String sep s2)).
    cbn [ContainsRune] in H. apply orb_false_iff in H. destruct H as [Hc H].
    cbn [Split]. rewrite Hc, (IH H). reflexivity.
Qed.

Lemma Split_whole (s : string) (sep : ascii) :
  ContainsRune s sep = false -> Split s sep = [s].
Proof.
  induction s as [|c s IH]; intros H; [reflexivity|].
  cbn [ContainsRune] in H. apply orb_false_iff in H. destruct H as [Hc H].
  cbn [Split]. rewrite Hc, (IH H). reflexivity.
Qed.

Lemma Split_parts (s : string) (sep : ascii) :
  Forall (fun part => ContainsRune part sep = false) (Split s sep).
Proof.
  induction s as [|c s IH]; cbn [Split].
  - repeat constructor.
  - destruct (Ascii.eqb c sep) eqn:Hc.
    + constructor; [reflexivity | exact IH].
    + destruct (Split s sep) as [|part parts]; [repeat constructor; cbn; rewrite Hc; reflexivity|].
      inversion IH as [|? ? Hpart Hparts]; subst.
      constructor; [cbn [ContainsRune]; rewrite Hc; exact Hpart | exact Hparts].
Qed.

Lemma Join_cons (e : string) (rest : list string) (sep : ascii) :
  rest <> [] ->
  Join (e :: rest) (String sep "") = e +:+ String sep (Join rest (String sep "")).
Proof. destruct rest; [contradiction | reflexivity]. Qed.

Lemma Join_Split (s : string) (sep : ascii) : Join (Split s sep) (String sep "") = s.
Proof.
  induction s as [|c s IH]; [reflexivity|].
  cbn [Split]. destruct (Ascii.eqb_spec c sep) as [->|Hc].
  - rewrite Join_cons by apply Split_nonempty. rewrite IH. reflexivity.
  - destruct (Split s sep) as [|part [|part' parts]] eqn:Hs.
    + exfalso. eapply Split_nonempty. exact Hs.
    + cbn [Join] in *. rewrite IH. reflexivity.
    + rewrite Join_cons by discriminate. rewrite Join_cons in IH by discriminate.
      rewrite <- IH. reflexivity.
Qed.

Lemma Split_Join (parts : list string) (sep : ascii) :
  parts <> [] ->
  Forall (fun part => ContainsRune part sep = false) parts ->
  Split (Join parts (String sep "")) sep = parts.
Proof.
  induction parts as [|e [|e' rest] IH]; intros Hne Hall; [contradiction| |].
  - inversion Hall; subst. apply Split_whole. assumption.
  - inversion Hall as [|? ? He Hrest]; subst.
    rewrite Join_cons by discriminate. rewrite Split_cut by exact He.
    rewrite IH; [reflexivity | discriminate | exact Hrest].
Qed.

Lemma length_zero (s : string) : (Z.of_nat (String.length s) =? 0) = String.eqb s "".
Proof. destruct s; reflexivity. Qed.

Section MapHeaderProperties.

Variable QueryEscape : string -> string.

Let headerEntry (kv : string * string) : string :=
  fst kv +:+ "=" +:+ QueryEscape (snd kv).

Lemma decodeEntries_accepts (name input : string) (pairs : list (string * string)) :
  forall result,
    Forall (fun kv => acceptedEntry kv = true) pairs ->
    decodeEntries QueryEscape name input (map writtenEntry pairs) result
    = Ok (result ++ map headerEntry pairs).
Proof.
  induction pairs as [|[k v] pairs IH]; intros result Hall.
  - cbn. rewrite app_nil_r. reflexivity.
  - inversion Hall as [|? ? Hkv Hrest]; subst.
    unfold acceptedEntry in Hkv. cbn [fst snd] in Hkv.
    repeat (apply andb_prop in Hkv; destruct Hkv as [Hkv ?]).
    repeat match goal with H : negb _ = true |- _ => apply negb_true_iff in H end.
    cbn [map decodeEntries]. unfold writtenEntry at 1. cbn [fst snd].
    rewrite SplitN2_cut by assumption.
    rewrite !length_zero.
    repeat match goal with H : _ = false |- _ => rewrite H; clear H end.
    repeat match goal with H : _ = true |- _ => rewrite H; clear H end.
    cbn [negb]. rewrite IH by exact Hrest.
    rewrite <- app_assoc. reflexivity.
Qed.

Lemma decodeEntries_Ok (name input : string) (entries : list string) :
  forall result out,
    Forall (fun part => ContainsRune part mapEntrySeparator = false) entries ->
    decodeEntries QueryEscape name input entries result = Ok out ->
    exists pairs,
      Forall (fun kv => acceptedEntry kv = true) pairs /\
      entries = map writtenEntry pairs /\
      out = result ++ map headerEntry pairs.
Proof.
  induction entries as [|entry entries IH]; intros result out Hparts.
  - cbn. intros H. injection H as <-. exists []. rewrite app_nil_r. repeat split. constructor.
  - inversion Hparts as [|? ? Hentry Hrest]; subst.
    cbn [decodeEntries].
    destruct (SplitN2 entry mapKeySeparator) as [|key [|value [|x more]]] eqn:Hcut;
      try discriminate.
    apply SplitN2_inv in Hcut. destruct Hcut as [-> Hkey].
    rewrite ContainsRune_app in Hentry. apply orb_false_iff in Hentry.
    destruct Hentry as [Hk Hv]. cbn [ContainsRune] in Hv.
    apply orb_false_iff in Hv. destruct Hv as [_ Hv].
    rewrite !length_zero.
    destruct (String.eqb key "") eqn:Ek; [discriminate|].
    destruct (String.eqb value "") eqn:Ev; [discriminate|].
    destruct (isASCII key) eqn:Ak; cbn [negb]; [|discriminate].
    destruct (isASCII value) eqn:Av; cbn [negb]; [|discriminate].
    intros Hdecode. destruct (IH _ _ Hrest Hdecode) as (pairs & Hall & -> & ->).
    exists ((key, value) :: pairs).
    split; [|split].
    + constructor; [|exact Hall]. unfold acceptedEntry. cbn [fst snd].
      rewrite Ek, Ev, Ak, Av, Hkey, Hk, Hv. reflexivity.
    + reflexivity.
    + rewrite <- app_assoc. reflexivity.
Qed.

Lemma writtenEntry_parts (pairs : list (string * string)) :
  Forall (fun kv => acceptedEntry kv = true) pairs ->
  Forall (fun part => ContainsRune part mapEntrySeparator = false) (map writtenEntry pairs).
Proof.
  induction 1 as [|[k v] pairs Hkv _ IH]; cbn [map]; constructor; [|exact IH].
  unfold acceptedEntry in Hkv. cbn [fst snd] in Hkv.
  repeat (apply andb_prop in Hkv; destruct Hkv as [Hkv ?]).
  repeat match goal with H : negb _ = true |- _ => apply negb_true_iff in H end.
  unfold writtenEntry. cbn [fst snd]. rewrite ContainsRune_app. cbn [ContainsRune].
  repeat match goal with H : ContainsRune _ mapEntrySeparator = false |- _ => rewrite H end.
  reflexivity.
Qed.

(** X25.  [decodeMapHeader] accepts exactly the texts that are a list of
    [key:value] entries joined by semicolons, as [FormatDSN] writes them,
    in which no key or value is empty, all are printable ASCII without
    spaces, and no key holds a colon; it returns the entries in order as
    [key=escaped value].  The empty text is malformed. *)
Theorem decodeMapHeader_exact (name input : string) (entries : list string) :
  (decodeMapHeader QueryEscape name input = Ok entries <->
   exists pairs,
     pairs <> [] /\
     Forall (fun kv => acceptedEntry kv = true) pairs /\
     input = Join (map writtenEntry pairs) (String mapEntrySeparator "") /\
     entries = map headerEntry pairs) /\
  decodeMapHeader QueryEscape name "" = Err (Errorf fmtMalformed [opString name; opString ""]).
Proof.
  split; [|reflexivity].
  unfold decodeMapHeader. split.
  - intros Hdecode.
    destruct (decodeEntries_Ok name input _ _ _ (Split_parts input mapEntrySeparator) Hdecode)
      as (pairs & Hall & Hsplit & ->).
    exists pairs. split; [|split; [exact Hall|split; [|reflexivity]]].
    + intros ->. cbn [map] in Hsplit. eapply Split_nonempty. exact Hsplit.
    + rewrite <- Hsplit. symmetry. apply Join_Split.
  - intros (pairs & Hne & Hall & -> & ->).
    rewrite Split_Join.
    + apply (decodeEntries_accepts name _ pairs [] Hall).
    + destruct pairs; [contradiction | discriminate].
    + apply writtenEntry_parts. exact Hall.
Qed.

End MapHeaderProperties.

Example decodeMapHeader_run :
  decodeMapHeader sameString "session_properties" "query_max_run_time:1h;join_distribution_type:AUTO"
  = Ok ["query_max_run_time=1h"; "join_distribution_type=AUTO"] /\
  decodeMapHeader sameString "session_properties" "query_max_run_time:1h;"
  = Err (Errorf fmtMalformed
           [opString "session_properties"; opString "query_max_run_time:1h;"]).
Proof. split; vm_compute; reflexivity. Qed.

(** ** The pipeline and the streamer *)

Lemma rowsSent_snoc (rows : list (list queryData)) (batch : list queryData) :
  len (concat (rows ++ [batch])) = len (concat rows) + len batch.
Proof.
  unfold len. rewrite concat_app. cbn [concat]. rewrite app_nil_r, length_app. lia.
Qed.

Section PipelineOrder.

Variable SortFunc : list decodedSegment -> list decodedSegment.
Variable maxOutOfOrder : nat.

Let step' := step SortFunc maxOutOfOrder.
Let runPipeline' := runPipeline SortFunc maxOutOfOrder.

(** No move takes rows back from [spoolingRowsChannel]. *)
Lemma step_rowsSent (m : move) (p p' : pipeline) :
  step' m p = Some p' -> rowsSent p <= rowsSent p'.
Proof.
  unfold step', step, rowsSent. intros Hstep.
  destruct m as [segment| |i err|i| | |].
  - injection Hstep as <-. simpl. lia.
  - destruct (segmentsToProccess p) as [|segment queue]; [discriminate|].
    destruct (segmentThrottleCh p <? maxOutOfOrder)%nat; [|discriminate].
    injection Hstep as <-. simpl. lia.
  - destruct (inFlight p !! i); [|discriminate]. injection Hstep as <-. simpl. lia.
  - destruct (phase p); try discriminate.
    destruct (inFlight p !! i); [|discriminate].
    destruct (negb _); injection Hstep as <-; simpl; lia.
  - destruct (phase p); try discriminate.
    destruct (buffer (strm p)) as [|segment rest]; [discriminate|].
    destruct (ds_rowOffset segment =? nextExpectedOffset (strm p)); [|discriminate].
    injection Hstep as <-. cbn [spoolingRowsChannel]. rewrite rowsSent_snoc.
    pose proof (len_nonneg (ds_queryData segment)). lia.
  - destruct (phase p); try discriminate.
    destruct (segmentThrottleCh p); [discriminate|].
    injection Hstep as <-. simpl. lia.
  - destruct (phase p); try discriminate.
    destruct (buffer (strm p)) as [|segment rest].
    + injection Hstep as <-. simpl. lia.
    + destruct (ds_rowOffset segment =? nextExpectedOffset (strm p)); [discriminate|].
      injection Hstep as <-. simpl. lia.
Qed.

Lemma runPipeline_rowsSent (moves : list move) :
  forall p p', runPipeline' moves p = Some p' -> rowsSent p <= rowsSent p'.
Proof.
  induction moves as [|m moves IH]; intros p p' Hrun.
  - injection Hrun as <-. lia.
  - unfold runPipeline' in Hrun. cbn [runPipeline] in Hrun.
    destruct (step SortFunc maxOutOfOrder m p) as [p1|] eqn:Hstep; [|discriminate].
    pose proof (step_rowsSent m p p1 Hstep). pose proof (IH p1 p' Hrun). lia.
Qed.

(** Every move keeps the expected offset at the number of rows sent, the
    batch whose token is about to be taken apart. *)
Lemma step_offset (m : move) (p p' : pipeline) :
  nextExpectedOffset (strm p) + pendingRows p = rowsSent p ->
  step' m p = Some p' -> rowsSent p' <= int64_max ->
  nextExpectedOffset (strm p') + pendingRows p' = rowsSent p'.
Proof.
  unfold step', step, rowsSent, pendingRows. intros Hinv Hstep Hfit.
  destruct m as [segment| |i err|i| | |].
  - injection Hstep as <-. exact Hinv.
  - destruct (segmentsToProccess p) as [|segment queue]; [discriminate|].
    destruct (segmentThrottleCh p <? maxOutOfOrder)%nat; [|discriminate].
    injection Hstep as <-. exact Hinv.
  - destruct (inFlight p !! i); [|discriminate]. injection Hstep as <-. exact Hinv.
  - destruct (phase p) eqn:Hph; try discriminate.
    destruct (inFlight p !! i); [|discriminate].
    destruct (negb _); injection Hstep as <-; cbn [phase strm nextExpectedOffset
      spoolingRowsChannel]; exact Hinv.
  - destruct (phase p) eqn:Hph; try discriminate.
    destruct (buffer (strm p)) as [|segment rest]; [discriminate|].
    destruct (ds_rowOffset segment =? nextExpectedOffset (strm p)); [|discriminate].
    injection Hstep as <-. cbn [phase strm nextExpectedOffset spoolingRowsChannel].
    rewrite rowsSent_snoc. lia.
  - destruct (phase p) as [| |segment] eqn:Hph; try discriminate.
    destruct (segmentThrottleCh p); [discriminate|].
    injection Hstep as <-.
    cbn [phase strm nextExpectedOffset spoolingRowsChannel] in *.
    pose proof (len_nonneg (concat (spoolingRowsChannel p))).
    rewrite wrap64_in_range by (unfold in_int64, int64_min, int64_max in *; lia).
    lia.
  - destruct (phase p) eqn:Hph; try discriminate.
    destruct (buffer (strm p)) as [|segment rest].
    + injection Hstep as <-. cbn [phase strm spoolingRowsChannel]. exact Hinv.
    + destruct (ds_rowOffset segment =? nextExpectedOffset (strm p)); [discriminate|].
      injection Hstep as <-. cbn [phase strm spoolingRowsChannel]. exact Hinv.
Qed.

Lemma runPipeline_offset (moves : list move) :
  forall p p',
    nextExpectedOffset (strm p) + pendingRows p = rowsSent p ->
    runPipeline' moves p = Some p' -> rowsSent p' <= int64_max ->
    nextExpectedOffset (strm p') + pendingRows p' = rowsSent p'.
Proof.
  induction moves as [|m moves IH]; intros p p' Hinv Hrun Hfit.
  - injection Hrun as <-. exact Hinv.
  - unfold runPipeline' in Hrun. cbn [runPipeline] in Hrun.
    destruct (step SortFunc maxOutOfOrder m p) as [p1|] eqn:Hstep; [|discriminate].
    apply (IH p1 p'); [|exact Hrun | exact Hfit].
    apply (step_offset m p p1 Hinv Hstep).
    pose proof (runPipeline_rowsSent moves p1 p' Hrun). lia.
Qed.

(** X24.  Whatever the schedule of the goroutines, in every state the
    pipeline reaches (with fewer rows sent than an [int64] counts) the
    expected offset is the number of rows sent on [spoolingRowsChannel], the
    batch whose token is about to be taken apart.  So the streamer holds a
    received segment back exactly when its [rowOffset] is not the number of
    rows sent so far (and publishes nothing when it is); it sends a batch
    only from the buffered segment whose [rowOffset] is the number of rows
    sent so far; and once the token is taken the expected offset is the
    number of rows sent. *)
Theorem pipeline_sends_at_row_count (moves : list move) (p : pipeline) :
  runPipeline' moves startPipeline = Some p ->
  rowsSent p <= int64_max ->
  nextExpectedOffset (strm p) + pendingRows p = rowsSent p /\
  (forall i segment p',
     inFlight p !! i = Some segment -> step' (deliver i) p = Some p' ->
     spoolingRowsChannel p' = spoolingRowsChannel p /\
     if ds_rowOffset segment =? rowsSent p
     then phase p' = draining /\ errorsCh p' = errorsCh p /\
          buffer (strm p') = SortFunc (buffer (strm p) ++ [segment])
     else phase p' = waiting /\ buffer (strm p') = buffer (strm p) ++ [segment]) /\
  (forall p',
     step' emit p = Some p' ->
     exists segment rest,
       buffer (strm p) = segment :: rest /\
       ds_rowOffset segment = rowsSent p /\
       spoolingRowsChannel p' = spoolingRowsChannel p ++ [ds_queryData segment] /\
       buffer (strm p') = rest) /\
  (forall p',
     step' release p = Some p' ->
     spoolingRowsChannel p' = spoolingRowsChannel p /\
     nextExpectedOffset (strm p') = rowsSent p).
Proof.
  intros Hrun Hfit.
  assert (Hinv : nextExpectedOffset (strm p) + pendingRows p = rowsSent p).
  { apply (runPipeline_offset moves startPipeline p); [reflexivity | exact Hrun | exact Hfit]. }
  split; [exact Hinv|].
  unfold step', step, pendingRows in *.
  split; [|split].
  - intros i segment p' Hi Hstep.
    destruct (phase p) eqn:Hph; try discriminate.
    rewrite Hi in Hstep. rewrite Z.add_0_r in Hinv. rewrite <- Hinv, (Z.eqb_sym _ _).
    destruct (nextExpectedOffset (strm p) =? ds_rowOffset segment); cbn [negb] in Hstep;
      injection Hstep as <-; cbn [phase strm buffer spoolingRowsChannel errorsCh]; auto.
  - intros p' Hstep.
    destruct (phase p) eqn:Hph; try discriminate.
    destruct (buffer (strm p)) as [|segment rest]; [discriminate|].
    destruct (Z.eqb_spec (ds_rowOffset segment) (nextExpectedOffset (strm p))) as [Heq|];
      [|discriminate].
    injection Hstep as <-. exists segment, rest.
    cbn [strm buffer spoolingRowsChannel]. rewrite Z.add_0_r in Hinv.
    repeat split; congruence.
  - intros p' Hstep.
    destruct (phase p) as [| |segment] eqn:Hph; try discriminate.
    destruct (segmentThrottleCh p); [discriminate|].
    injection Hstep as <-. cbn [strm nextExpectedOffset spoolingRowsChannel].
    split; [reflexivity|].
    unfold rowsSent in *. pose proof (len_nonneg (concat (spoolingRowsChannel p))).
    rewrite wrap64_in_range by (unfold in_int64, int64_min, int64_max in *; lia).
    exact Hinv.
Qed.

End PipelineOrder.

Lemma scheduleMidway_runs :
  runPipeline sortByRowOffset 2 scheduleMidway startPipeline = Some midway.
Proof. vm_compute. reflexivity. Qed.

Lemma pipeline_sends_at_row_count_witness :
  nextExpectedOffset (strm midway) = 1 /\
  exists segment rest,
    buffer (strm midway) = segment :: rest /\
    ds_rowOffset segment = rowsSent midway /\
    option_map spoolingRowsChannel (step sortByRowOffset 2 emit midway)
      = Some (spoolingRowsChannel midway ++ [ds_queryData segment]).
Proof.
  assert (Hfit : rowsSent midway <= int64_max) by (vm_compute; discriminate).
  destruct (pipeline_sends_at_row_count sortByRowOffset 2 scheduleMidway midway
              scheduleMidway_runs Hfit) as (Hoffset & _ & Hemit & _).
  split; [exact Hoffset|].
  destruct (step sortByRowOffset 2 emit midway) as [p'|] eqn:Hstep;
    [|vm_compute in Hstep; discriminate].
  destruct (Hemit p' eq_refl) as (segment & rest & Hbuf & Hoff & Hrows & _).
  exists segment, rest. split; [exact Hbuf|]. split; [exact Hoff|].
  cbn [option_map]. rewrite Hrows. reflexivity.
Defined.

Example pipeline_midway_run :
  spoolingRowsChannel midway = [ds_queryData (oneRow 0)] /\
  buffer (strm midway) = [oneRow 1] /\
  phase midway = draining /\
  option_map spoolingRowsChannel (step sortByRowOffset 2 emit midway)
    = Some (map ds_queryData [oneRow 0; oneRow 1]).
Proof. repeat split; vm_compute; reflexivity. Qed.

(** ** Building requests *)

Lemma assignAll_lookup (h req : Header) (key : string) :
  assignAll h req !! key
  = match h !! key with
    | Some values => Some values
    | None => req !! key
    end.
Proof.
  unfold assignAll.
  apply (map_fold_weak_ind
           (fun (r : Header) (m : Header) =>
              r !! key = match m !! key with
                         | Some values => Some values
                         | None => req !! key
                         end)).
  - rewrite lookup_empty. reflexivity.
  - intros i x m r Hi IH. destruct (decide (i = key)) as [->|Hne].
    + rewrite !lookup_insert_eq. reflexivity.
    + rewrite !lookup_insert_ne by exact Hne. exact IH.
Qed.

Section NewRequestProperties.

Variable basicAuth : string -> string -> string.
Variable SetSPNEGOHeader : Header -> outcome Header.

Let newRequest' := newRequest basicAuth SetSPNEGOHeader.

(** X26.  The headers of a request that [newRequest] builds, by
    precedence: the basic-auth credentials of the connection replace any
    [Authorization] value; otherwise a key takes the values the caller
    passed in [hs], all of them and only them, else the connection's own,
    else what SPNEGO set.  So with credentials on the connection a bearer
    token that the caller put in [hs] does not reach the server. *)
Theorem newRequest_precedence
    (kerberosEnabled : bool) (auth : option (string * string))
    (httpHeaders hs req : Header) :
  newRequest' None kerberosEnabled auth httpHeaders hs = Ok req ->
  exists base,
    (if kerberosEnabled then SetSPNEGOHeader ∅ = Ok base else base = ∅) /\
    (forall key, key <> authorizationHeader \/ auth = None ->
       req !! key
       = match hs !! key with
         | Some values => Some values
         | None =>
             match httpHeaders !! key with
             | Some values => Some values
             | None => base !! key
             end
         end) /\
    (forall username pass, auth = Some (username, pass) ->
       Header_Values req authorizationHeader = ["Basic " +:+ basicAuth username pass]).
Proof.
  unfold newRequest', newRequest.
  set (start := if kerberosEnabled then _ else Ok ∅).
  assert (Hstart : (exists base, start = Ok base /\
                      (if kerberosEnabled then SetSPNEGOHeader ∅ = Ok base else base = ∅)) \/
                   (forall base, start <> Ok base)).
  { subst start. destruct kerberosEnabled; [|left; eauto].
    destruct (SetSPNEGOHeader ∅) as [base|e|m]; [left; eauto | right | right]; discriminate. }
  destruct Hstart as [(base & -> & Hbase) | Hnone].
  - cbn [bindOutcome]. intros Hreq. exists base. split; [exact Hbase|].
    destruct auth as [[username pass]|]; injection Hreq as <-.
    + split.
      * intros key [Hkey | Habs]; [|discriminate].
        unfold Header_Set. rewrite lookup_insert_ne by congruence.
        rewrite !assignAll_lookup. reflexivity.
      * intros u p H. injection H as <- <-. apply Header_Values_Set_eq.
    + split; [|discriminate].
      intros key _. rewrite !assignAll_lookup. reflexivity.
  - destruct start as [base|e|m]; cbn [bindOutcome]; try discriminate.
    exfalso. apply (Hnone base). reflexivity.
Qed.

End NewRequestProperties.

Lemma newRequest_precedence_witness :
  Header_Values
    (Header_Set (assignAll bearerHeaders (assignAll sessionHeaders ∅)) authorizationHeader
       ("Basic " +:+ basicStub "alice" "pw"))
    authorizationHeader
  = ["Basic alice:pw"].
Proof.
  destruct (newRequest_precedence basicStub spnegoStub false (Some ("alice", "pw"))
              sessionHeaders bearerHeaders
              (Header_Set (assignAll bearerHeaders (assignAll sessionHeaders ∅))
                 authorizationHeader ("Basic " +:+ basicStub "alice" "pw")) eq_refl)
    as (base & _ & _ & H).
  apply (H "alice" "pw"). reflexivity.
Defined.

(** ** Reading rows *)

Section ReadingRowsProperties.

Variable fmtV : jsonValue -> string.
Variable fmtT : jsonValue -> string.
Variable numberInt64 : string -> outcome Z.
Variable numberFloat64 : string -> outcome float.
Variable ParseFloat : string -> outcome float.
Variable DecodeString : string -> outcome (list byte).
Variable Time : Type.
Variable zeroTime : Time.
Variable Location : Type.
Variable Local : Location.
Variable LoadLocation : string -> outcome Location.
Variable timeParse : string -> string -> outcome Time.
Variable ParseInLocation : string -> string -> Location -> outcome Time.

Let ConvertValue' :=
  ConvertValue fmtV fmtT numberInt64 numberFloat64 ParseFloat DecodeString Time zeroTime
    Location Local LoadLocation timeParse ParseInLocation.
Let nextColumns' :=
  nextColumns fmtV fmtT numberInt64 numberFloat64 ParseFloat DecodeString Time zeroTime
    Location Local LoadLocation timeParse ParseInLocation.
Let Next' :=
  Next fmtV fmtT numberInt64 numberFloat64 ParseFloat DecodeString Time zeroTime
    Location Local LoadLocation timeParse ParseInLocation.

(** The loop of [next] in closed form, for a row that has a value for
    each column and whose values all convert. *)
Lemma nextColumns_converted (columns : list typeConverter) :
  forall (row : list jsonValue) (values dest : list (convertedValue Time)),
    length row = length columns ->
    zip_with ConvertValue' columns row = map Ok values ->
    nextColumns' columns row dest
    = (take (length dest) values ++ drop (length values) dest, Ok tt).
Proof.
  induction columns as [|c columns IH]; intros row values dest Hlen Hzip.
  - destruct values; [|discriminate]. destruct dest; reflexivity.
  - destruct row as [|v row]; [discriminate|].
    destruct values as [|x values]; [discriminate|].
    cbn [zip_with map] in Hzip. injection Hzip as Hx Hrest.
    destruct dest as [|d dest]; [reflexivity|].
    unfold nextColumns'. cbn [nextColumns]. fold nextColumns'.
    unfold ConvertValue' in Hx. rewrite Hx.
    rewrite (IH row values dest) by (cbn [length] in Hlen; first [lia | exact Hrest]).
    reflexivity.
Qed.

(** X27.  [Next] under the spooling protocol, when the batch at hand is
    used up, there are columns and [dest] has room.  A batch without rows
    makes it panic: the batch is stored and its row zero is read.  A closed
    channel gives [io.EOF].  A batch whose first row has a value for each
    column, all of which convert, fills [dest] with the values of the
    first columns, as many as [dest] has room for, leaves the rest of
    [dest] as it was, and moves to row one. *)
Theorem Next_takes_the_next_batch
    (qr : rowsCursor) (dest : list (convertedValue Time)) :
  cursorErr qr = None -> len (data qr) <= rowindex qr ->
  coltype qr <> [] -> dest <> [] ->
  Next' (rowsReceived []) qr dest
  = (mkRowsCursor None 0 [] (coltype qr), dest, callPanic "index out of range") /\
  Next' rowsClosed qr dest
  = (mkRowsCursor (Some ioEOF) (rowindex qr) [] (coltype qr), dest, callError ioEOF) /\
  (forall row rows values,
     length row = length (coltype qr) ->
     zip_with ConvertValue' (coltype qr) row = map Ok values ->
     Next' (rowsReceived (row :: rows)) qr dest
     = (mkRowsCursor None 1 (row :: rows) (coltype qr),
        take (length dest) values ++ drop (length values) dest, callNil)).
Proof.
  intros Herr Hused Hcolumns Hdest.
  assert (Hif : (len (data qr) <=? rowindex qr) = true) by (apply Z.leb_le; exact Hused).
  unfold Next', Next. rewrite Herr, Hif.
  destruct (coltype qr) as [|c columns] eqn:Hc; [contradiction|].
  destruct dest as [|d dest]; [contradiction|].
  split; [|split].
  - unfold next. cbn [coltype rowindex data]. reflexivity.
  - reflexivity.
  - intros row rows values Hlen Hzip. unfold next. cbn [coltype rowindex data cursorErr].
    cbn [Z.ltb Z.compare orb].
    assert (Hin : (@len queryData (row :: rows) <=? 0) = false).
    { apply Z.leb_gt. unfold len. cbn [length]. lia. }
    rewrite Hin. lazy beta iota delta [Z.to_nat nth_error].
    pose proof (nextColumns_converted (c :: columns) row values (d :: dest) Hlen Hzip) as Hloop.
    unfold nextColumns' in Hloop. rewrite Hloop. reflexivity.
Qed.

End ReadingRowsProperties.

Lemma Next_takes_the_next_batch_witness :
  Next fmtStub fmtStub int64Stub floatStub floatStub base64Stub Z 0
    string "Local" loadStub parseStub parseInStub
    (rowsReceived []) (mkRowsCursor None 0 [] [bigintConverter]) [cvNil]
  = (mkRowsCursor None 0 [] [bigintConverter], [cvNil], callPanic "index out of range").
Proof.
  destruct (Next_takes_the_next_batch fmtStub fmtStub int64Stub floatStub floatStub
              base64Stub Z 0 string "Local" loadStub parseStub parseInStub
              (mkRowsCursor None 0 [] [bigintConverter]) [cvNil]) as (H & _).
  - reflexivity.
  - unfold len. simpl. lia.
  - discriminate.
  - discriminate.
  - exact H.
Defined.

Example Next_row_run :
  Next fmtStub fmtStub int64Stub floatStub floatStub base64Stub Z 0
    string "Local" loadStub parseStub parseInStub
    (rowsReceived [[JNumber "7"]; [JNumber "8"]])
    (mkRowsCursor None 0 [] [bigintConverter]) [cvNil; cvBool true]
  = (mkRowsCursor None 1 [[JNumber "7"]; [JNumber "8"]] [bigintConverter],
     [cvInt64 7; cvBool true], callNil).
Proof. vm_compute. reflexivity. Qed.

(** ** Downloading a segment *)

Section FetchSegmentProperties.

Variable CanonicalMIMEHeaderKey : string -> string.
Variable fmtT : jsonValue -> string.

Let fetchSegment' := fetchSegment CanonicalMIMEHeaderKey fmtT.
Let segmentHeaders' := segmentHeaders CanonicalMIMEHeaderKey fmtT.

Lemma segmentHeaders_plain (headers : jsonMap) :
  forall req, (exists req', segmentHeaders' headers req = Ok req') <-> plainHeaders headers = true.
Proof.
  induction headers as [|[k v] headers IH]; intros req.
  - cbn. split; eauto.
  - unfold segmentHeaders'. cbn [segmentHeaders plainHeaders]. fold segmentHeaders'.
    destruct v as [| | | |[|[| | |header| |] [|second more]]|];
      try (split; [intros [req' H]; discriminate | discriminate]);
      apply IH.
Qed.

(** X28.  [fetchSegment] sends its request only when every header of the
    spooled segment is a list of at most one string.  Once six results of
    the request are in it has returned.  It acknowledges the segment only
    when it returns its bytes.  Whatever fails in the round trip comes back
    wrapped into a plain text error that names the URI, so the caller never
    gets the query-failed error itself. *)
Theorem fetchSegment_outcomes (spooled : spooledMetadata) (results : list fetchResult) :
  let run := fetchSegment' None spooled results in
  (fetchRequest run <> None <-> plainHeaders (sm_headers spooled) = true) /\
  (plainHeaders (sm_headers spooled) = false ->
     exists e, fetchReturned run = Some (Err e)) /\
  ((6 <= length results)%nat -> fetchReturned run <> None) /\
  (acknowledged run = true <-> exists bytes, fetchReturned run = Some (Ok bytes)) /\
  (forall e, fetchReturned run = Some (Err e) -> failedStatus e = None) /\
  (forall e, plainHeaders (sm_headers spooled) = true ->
     fetched (SegmentFetcher_roundTrip results) = Some (Err e) ->
     fetchReturned run
     = Some (Err (Errorf fmtFetchFailed [opString (uri spooled); opError e]))).
Proof.
  cbn zeta. unfold fetchSegment', fetchSegment.
  assert (Hheaders : forall e, segmentHeaders CanonicalMIMEHeaderKey fmtT
                                 (sm_headers spooled) ∅ = Err e -> failedStatus e = None).
  { generalize (∅ : Header). induction (sm_headers spooled) as [|[k v] headers IH];
      intros req e; cbn [segmentHeaders]; [discriminate|].
    destruct v as [| | | |[|[| | |header| |] [|second more]]|];
      try (intros H; injection H as <-; reflexivity); apply IH. }
  assert (Hnopanic : forall m, segmentHeaders CanonicalMIMEHeaderKey fmtT
                                 (sm_headers spooled) ∅ <> Panic m).
  { clear Hheaders. generalize (∅ : Header).
    induction (sm_headers spooled) as [|[k v] headers IH];
      intros req m; cbn [segmentHeaders]; [discriminate|].
    destruct v as [| | | |[|[| | |header| |] [|second more]]|];
      try discriminate; apply IH. }
  pose proof (segmentHeaders_plain (sm_headers spooled) ∅) as Hplain.
  unfold segmentHeaders' in Hplain.
  destruct (segmentHeaders CanonicalMIMEHeaderKey fmtT (sm_headers spooled) ∅)
    as [req|e0|m0] eqn:Hreq.
  - assert (Hp : plainHeaders (sm_headers spooled) = true) by (apply Hplain; eauto).
    assert (Hsix : (6 <= length results)%nat ->
              fetched (SegmentFetcher_roundTrip results) <> None).
    { intros Hlen. unfold SegmentFetcher_roundTrip.
      apply fetcherLoop_returns; [lia | simpl; lia]. }
    destruct (fetched (SegmentFetcher_roundTrip results)) as [[resp|e|m]|] eqn:Hrun.
    + destruct (BodyReadError resp) as [err|];
        cbn [fetchRequest fetchReturned acknowledged].
      * split; [split; [intros _; exact Hp | discriminate]|].
        split; [rewrite Hp; discriminate|]. split; [discriminate|].
        split; [split; [discriminate | intros [bytes H]; discriminate]|].
        split; [intros e H; injection H as <-; reflexivity | discriminate].
      * split; [split; [intros _; exact Hp | discriminate]|].
        split; [rewrite Hp; discriminate|]. split; [discriminate|].
        split; [split; [eauto | reflexivity]|].
        split; discriminate.
    + cbn [fetchRequest fetchReturned acknowledged].
      split; [split; [intros _; exact Hp | discriminate]|].
      split; [rewrite Hp; discriminate|]. split; [discriminate|].
      split; [split; [discriminate | intros [bytes H]; discriminate]|].
      split; [intros e' H; injection H as <-; reflexivity|].
      intros e' _ H. injection H as <-. reflexivity.
    + cbn [fetchRequest fetchReturned acknowledged].
      split; [split; [intros _; exact Hp | discriminate]|].
      split; [rewrite Hp; discriminate|]. split; [discriminate|].
      split; [split; [discriminate | intros [bytes H]; discriminate]|].
      split; discriminate.
    + cbn [fetchRequest fetchReturned acknowledged].
      split; [split; [intros _; exact Hp | discriminate]|].
      split; [rewrite Hp; discriminate|].
      split; [intros Hlen; exfalso; apply (Hsix Hlen); reflexivity|].
      split; [split; [discriminate | intros [bytes H]; discriminate]|].
      split; discriminate.
  - assert (Hp : plainHeaders (sm_headers spooled) = false).
    { destruct (plainHeaders (sm_headers spooled)); [|reflexivity].
      destruct (proj2 Hplain eq_refl) as [req' H]. discriminate. }
    cbn [fetchRequest fetchReturned acknowledged].
    split; [split; [intros H; contradiction | rewrite Hp; discriminate]|].
    split; [eauto|]. split; [discriminate|].
    split; [split; [discriminate | intros [bytes H]; discriminate]|].
    split; [intros e H; injection H as <-; apply (Hheaders e0 eq_refl)|].
    rewrite Hp. discriminate.
  - exfalso. apply (Hnopanic m0). reflexivity.
Qed.

End FetchSegmentProperties.

Lemma fetchSegment_outcomes_witness :
  fetchReturned (fetchSegment sameString typeStub None spooledExample sixFailures)
  = Some (Err (Errorf fmtFetchFailed
                 [opString "https://storage/segment/1";
                  opError (ErrQueryFailed 0 (Errorf fmtMaxRetriesStatus [opInt 503]))])).
Proof.
  destruct (fetchSegment_outcomes sameString typeStub spooledExample sixFailures)
    as (_ & _ & _ & _ & _ & H).
  apply H; reflexivity.
Defined.

(** ** Time values and their zones *)

Lemma LastIndex_lower (s : string) (c : ascii) : -1 <= LastIndex s c.
Proof.
  induction s as [|a s IH]; cbn [LastIndex]; [lia|].
  destruct (Z.leb_spec 0 (LastIndex s c)); [lia|].
  destruct (Ascii.eqb a c); lia.
Qed.

Lemma LastIndex_contains (s : string) (c : ascii) :
  ContainsRune s c = true -> 0 <= LastIndex s c.
Proof.
  induction s as [|a s IH]; cbn [ContainsRune LastIndex]; [discriminate|].
  intros H. destruct (Z.leb_spec 0 (LastIndex s c)) as [Hge|Hlt]; [lia|].
  destruct (Ascii.eqb a c); [lia|].
  cbn [orb] in H. specialize (IH H). lia.
Qed.

Lemma Count_contains (s : string) (c : ascii) :
  0 < Count s c -> ContainsRune s c = true.
Proof.
  induction s as [|a s IH]; cbn [Count ContainsRune]; [lia|].
  destruct (Ascii.eqb a c); [reflexivity|]. cbn [orb]. intros H. apply IH. lia.
Qed.

Lemma ReplaceFirst_contains (s : string) (old c : ascii) (new : string) :
  ContainsRune s old = true ->
  ContainsRune (ReplaceFirst s old (String c new)) c = true.
Proof.
  induction s as [|a s IH]; cbn [ContainsRune ReplaceFirst]; [discriminate|].
  destruct (Ascii.eqb a old).
  - intros _. change (String c new +:+ s) with (String c (new +:+ s)).
    cbn [ContainsRune]. rewrite Ascii.eqb_refl. reflexivity.
  - cbn [orb]. intros H. cbn [ContainsRune]. rewrite (IH H). apply orb_true_r.
Qed.

(** The text from the last occurrence of a byte on holds that byte. *)
Lemma LastIndex_suffix (s : string) (c : ascii) :
  0 <= LastIndex s c ->
  ContainsRune
    (String.substring (Z.to_nat (LastIndex s c))
       (String.length s - Z.to_nat (LastIndex s c)) s) c = true.
Proof.
  induction s as [|a s IH]; cbn [LastIndex]; [lia|].
  destruct (Z.leb_spec 0 (LastIndex s c)) as [Hge|Hlt].
  - intros _. replace (Z.to_nat (LastIndex s c + 1)) with (S (Z.to_nat (LastIndex s c))) by lia.
    cbn [String.length String.substring Nat.sub]. apply IH. exact Hge.
  - destruct (Ascii.eqb a c) eqn:Ha; [|lia].
    intros _. change (Z.to_nat 0) with 0%nat. rewrite Nat.sub_0_r.
    cbn [String.length String.substring ContainsRune].
    rewrite Ha. reflexivity.
Qed.

Lemma Split_several (s : string) (sep : ascii) :
  len (Split s sep) > 1 -> ContainsRune s sep = true.
Proof.
  intros H. destruct (ContainsRune s sep) eqn:Hc; [reflexivity|].
  rewrite (Split_whole s sep Hc) in H. unfold len in H. cbn [length] in H. lia.
Qed.

Section TimeZones.

Variable fmtV : jsonValue -> string.
Variable fmtT : jsonValue -> string.
Variable Time : Type.
Variable zeroTime : Time.
Variable Location : Type.
Variable Local : Location.
Variable LoadLocation : string -> outcome Location.
Variable timeParse : string -> string -> outcome Time.
Variable ParseInLocation : string -> string -> Location -> outcome Time.

(** The [time] library has errors of its own. *)
Hypothesis timeParse_errors :
  forall layout v e, timeParse layout v = Err e -> isTimeZoneError e = false.
Hypothesis ParseInLocation_errors :
  forall layout v loc e, ParseInLocation layout v loc = Err e -> isTimeZoneError e = false.

Let scanNullTime' :=
  scanNullTime fmtV fmtT Time zeroTime Location Local LoadLocation timeParse ParseInLocation.
Let parseNullTimeWithLocation' :=
  parseNullTimeWithLocation Time zeroTime Location LoadLocation timeParse ParseInLocation.
Let parseNullTime' := parseNullTime Time zeroTime Location Local ParseInLocation.

Lemma tryLayouts_error (parse : string -> outcome Time) (layouts : list string) :
  (forall layout e, parse layout = Err e -> isTimeZoneError e = false) ->
  forall last e,
    (forall e', last = Err e' -> isTimeZoneError e' = false) ->
    tryLayouts Time parse layouts last = Err e -> isTimeZoneError e = false.
Proof.
  intros Hparse. induction layouts as [|layout layouts IH]; intros last e Hlast;
    cbn [tryLayouts]; [apply Hlast|].
  destruct (parse layout) as [t|err|m] eqn:Hl; [discriminate| |discriminate].
  apply IH. intros e' H. injection H as <-. apply (Hparse layout err Hl).
Qed.

Lemma parseNullTimeWithLocation_spaced (v : string) (e : error) :
  ContainsRune v " " = true ->
  parseNullTimeWithLocation' v = Err e -> isTimeZoneError e = false.
Proof.
  intros Hspace. apply LastIndex_contains in Hspace.
  unfold parseNullTimeWithLocation', parseNullTimeWithLocation. cbn zeta.
  destruct (Z.eqb_spec (LastIndex v " ") (-1)) as [Habs|_]; [lia|].
  destruct (HasPrefix _ "+" || HasPrefix _ "-").
  - apply tryLayouts_error; [intros layout e'; apply timeParse_errors | discriminate].
  - destruct (LoadLocation _) as [loc|err|m]; [| |discriminate].
    + apply tryLayouts_error; [intros layout e'; apply ParseInLocation_errors | discriminate].
    + intros H. injection H as <-. reflexivity.
Qed.

(** X29.  Whichever way [scanNullTime] takes to [parseNullTimeWithLocation]
    (a last part that does not start with a digit, a plus sign, or a count
    of hyphens other than zero and two), the text it passes holds a space:
    before the zone as the value had it, or put there before the sign.  So
    the error of a text without a zone separator never comes out of
    [scanNullTime]. *)
Theorem scanNullTime_zone_is_spaced (v : jsonValue) (e : error) :
  scanNullTime' v = Err e -> isTimeZoneError e = false.
Proof.
  unfold scanNullTime', scanNullTime.
  destruct v as [| | |vv| |];
    try (intros H; injection H as <-; reflexivity); [discriminate|].
  cbn zeta.
  set (named := if len (Split vv " ") >? 1 then _ else Ok false).
  assert (Hnamed : named = Ok true -> ContainsRune vv " " = true).
  { subst named. destruct (Z.gtb_spec (len (Split vv " ")) 1) as [Hgt|_]; [|discriminate].
    intros _. apply Split_several. lia. }
  assert (Hreturns : forall err, named <> Err err).
  { subst named. intros err. destruct (len (Split vv " ") >? 1); [|discriminate].
    destruct (lastPart (Split vv " ")); discriminate. }
  destruct named as [[|]|err|m]; cbn [bindOutcome];
    [| |exfalso; apply (Hreturns err); reflexivity|discriminate].
  - fold parseNullTimeWithLocation'. apply parseNullTimeWithLocation_spaced.
    apply Hnamed. reflexivity.
  - destruct (ContainsRune vv "+") eqn:Hplus.
    + fold parseNullTimeWithLocation'. apply parseNullTimeWithLocation_spaced.
      apply (ReplaceFirst_contains vv "+" " " "+" Hplus).
    + destruct ((Count vv "-" =? 1) || (Count vv "-" >? 2)) eqn:Hcount.
      * fold parseNullTimeWithLocation'. apply parseNullTimeWithLocation_spaced.
        assert (Hpos : 0 < Count vv "-").
        { apply orb_true_iff in Hcount. destruct Hcount as [H|H].
          - apply Z.eqb_eq in H. lia.
          - apply Z.gtb_lt in H. lia. }
        apply Count_contains, LastIndex_contains in Hpos.
        rewrite ContainsRune_app.
        rewrite (ReplaceFirst_contains _ "-" " " "-" (LastIndex_suffix vv "-" Hpos)).
        apply orb_true_r.
      * fold parseNullTime'. unfold parseNullTime', parseNullTime.
        apply tryLayouts_error;
          [intros layout e'; apply ParseInLocation_errors | discriminate].
Qed.

End TimeZones.

Lemma parseStub_errors (layout v : string) (e : error) :
  parseStub layout v = Err e -> isTimeZoneError e = false.
Proof. intros H. injection H as <-. reflexivity. Qed.

Lemma parseInStub_errors (layout v loc : string) (e : error) :
  parseInStub layout v loc = Err e -> isTimeZoneError e = false.
Proof. intros H. injection H as <-. reflexivity. Qed.

Lemma scanNullTime_zone_is_spaced_witness :
  isTimeZoneError (errorsNew "parsing time") = false.
Proof.
  apply (scanNullTime_zone_is_spaced fmtStub fmtStub Z 0 string "Local" loadStub
           parseStub parseInStub parseStub_errors parseInStub_errors
           (JString "12:00:00+05:30") (errorsNew "parsing time")).
  vm_compute. reflexivity.
Defined.

Example scanNullTime_offsets_run :
  scanNullTime fmtStub fmtStub Z 0 string "Local" loadStub
    (fun layout v => if String.eqb v "12:00:00 +05:30" then Ok 1 else Err (errorsNew v))
    parseInStub (JString "12:00:00+05:30") = Ok (mkSqlNull 1 true) /\
  scanNullTime fmtStub fmtStub Z 0 string "Local" loadStub
    (fun layout v =>
       if String.eqb v "2024-01-01 12:00:00 -05:00" then Ok 2 else Err (errorsNew v))
    parseInStub (JString "2024-01-01 12:00:00-05:00") = Ok (mkSqlNull 2 true).
Proof. split; vm_compute; reflexivity. Qed.

(** ** From the streamer to [Next] *)

Section EmptySegments.

Variable SortFunc : list decodedSegment -> list decodedSegment.
Hypothesis SortFunc_sorts : sortsByRowOffset SortFunc.
Variable maxOutOfOrder : Z.

Variable fmtV : jsonValue -> string.
Variable fmtT : jsonValue -> string.
Variable numberInt64 : string -> outcome Z.
Variable numberFloat64 : string -> outcome float.
Variable ParseFloat : string -> outcome float.
Variable DecodeString : string -> outcome (list byte).
Variable Time : Type.
Variable zeroTime : Time.
Variable Location : Type.
Variable Local : Location.
Variable LoadLocation : string -> outcome Location.
Variable timeParse : string -> string -> outcome Time.
Variable ParseInLocation : string -> string -> Location -> outcome Time.

Let Next' :=
  Next fmtV fmtT numberInt64 numberFloat64 ParseFloat DecodeString Time zeroTime
    Location Local LoadLocation timeParse ParseInLocation.

(** X30.  A decoded segment without rows goes through the pipeline like
    any other: arriving at the expected offset with nothing buffered it is
    sent on as an empty batch, the expected offset and the errors staying
    as they are.  That batch is what makes [Next] panic once the batch
    before it is used up. *)
Theorem empty_segment_reaches_Next
    (r : streamerRun) (segment : decodedSegment)
    (qr : rowsCursor) (dest : list (convertedValue Time)) :
  buffer (locals r) = [] ->
  in_int64 (nextExpectedOffset (locals r)) ->
  ds_rowOffset segment = nextExpectedOffset (locals r) ->
  ds_queryData segment = [] ->
  cursorErr qr = None -> len (data qr) <= rowindex qr ->
  coltype qr <> [] -> dest <> [] ->
  let r' := receive SortFunc maxOutOfOrder r segment in
  rowBatches r' = rowBatches r ++ [[]] /\
  locals r' = locals r /\
  published r' = published r /\
  (forall batch, List.last (rowBatches r') [JNull :: nil] = batch ->
     snd (Next' (rowsReceived batch) qr dest) = callPanic "index out of range").
Proof.
  intros Hbuf Hnext Hoffset Hrows Herr Hused Hcolumns Hdest r'.
  assert (Hsort : SortFunc [segment] = [segment]).
  { destruct (SortFunc_sorts [segment]) as [Hperm _].
    apply Permutation_sym, Permutation_singleton_l in Hperm. symmetry. exact Hperm. }
  assert (Hr' : r' = mkStreamerRun (locals r) (sent r ++ [segment]) (published r)).
  { subst r'. unfold receive. rewrite Hbuf. cbn [app].
    rewrite Hoffset, Z.eqb_refl. cbn [negb]. rewrite Hsort. cbn [drain].
    rewrite Hoffset, Z.eqb_refl, Hrows. unfold len. cbn [length Z.of_nat].
    rewrite Z.add_0_r, (wrap64_in_range _ Hnext).
    destruct (locals r) as [b n]. cbn [buffer nextExpectedOffset] in *. subst b.
    reflexivity. }
  rewrite Hr'. unfold rowBatches. cbn [sent locals published].
  rewrite map_app. cbn [map]. rewrite Hrows.
  split; [reflexivity|]. split; [reflexivity|]. split; [reflexivity|].
  intros batch Hlast. rewrite List.last_last in Hlast. subst batch.
  assert (Hif : (len (data qr) <=? rowindex qr) = true) by (apply Z.leb_le; exact Hused).
  unfold Next', Next. rewrite Herr, Hif. unfold next. cbn [coltype rowindex data].
  destruct (coltype qr) as [|c columns]; [contradiction|].
  destruct dest as [|d dest]; [contradiction|]. reflexivity.
Qed.

End EmptySegments.

Lemma empty_segment_reaches_Next_witness :
  rowBatches (receive sortByRowOffset 10 startOfRun (emptySegment 0))
  = rowBatches startOfRun ++ [[]].
Proof.
  destruct (empty_segment_reaches_Next sortByRowOffset sortByRowOffset_sorts 10
              fmtStub fmtStub int64Stub floatStub floatStub base64Stub Z 0
              string "Local" loadStub parseStub parseInStub
              startOfRun (emptySegment 0)
              (mkRowsCursor None 0 [] [bigintConverter]) [cvNil]) as (H & _).
  - reflexivity.
  - vm_compute. split; discriminate.
  - reflexivity.
  - reflexivity.
  - reflexivity.
  - unfold len. simpl. lia.
  - discriminate.
  - discriminate.
  - exact H.
Defined.
